(** * The Arvados boot supervisor (lib/boot/supervisor.go), embedded in Rocq

    The development follows the Go source function by function:
    the environment model ([dedupEnv]), the process supervisor
    ([RunProgram]), the task scheduler ([run], [wait]) as a labelled
    transition system, and configuration autofill ([autofillConfig],
    [nextPort], [randomHexString]). *)

From Stdlib Require Import ZArith Lia Ascii DecimalString.
From Stdlib.Strings Require Import Byte.
From stdpp Require Import base option list gmap strings.

Local Open Scope string_scope.
Local Open Scope list_scope.
Local Open Scope Z_scope.

(** ** Go values *)

(** A Go function either returns or panics; a loop that is cut off by the
    fuel of its model has not returned yet. *)
Inductive outcome (A : Type) : Type :=
| Returns (a : A)
| Panics (msg : string)
| Diverges.
Arguments Returns {A} a.
Arguments Panics {A} msg.
Arguments Diverges {A}.

(** Go's [error] values that the supervisor produces or passes on. *)
Inductive error : Type :=
| ContextCanceled            (* context.Canceled *)
| ContextDeadlineExceeded    (* context.DeadlineExceeded *)
| Errorf (msg : string)      (* fmt.Errorf / errors.New *)
| NotExist (path : string)   (* an error for which os.IsNotExist holds *)
| OSError (msg : string).    (* another error handed back by the OS or a library *)

Global Instance error_eq_dec : EqDecision error.
Proof. solve_decision. Defined.

(** ** Strings (package strings) *)

Module strings.

(** [strings.Index(s, substr)]: byte index of the first occurrence, or -1. *)
Definition Index (s substr : string) : Z :=
  match String.index 0 substr s with
  | Some n => Z.of_nat n
  | None => -1
  end.

End strings.

(** The slice expression [s[:n]]. *)
Definition slice_to (s : string) (n : Z) : string :=
  String.substring 0 (Z.to_nat n) s.

(** ** Environment model *)

(** One iteration of the loop of [dedupEnv], on the pair of the [saw]
    map and the [out] slice. *)
Definition dedupEnv_body (st : gmap string bool * list string) (kv : string)
  : outcome (gmap string bool * list string) :=
  let split := strings.Index kv "=" in
  if split <? 1 then Panics ("invalid environment var: " +:+ kv)
  else if default false (st.1 !! slice_to kv split) then Returns st
  else Returns (<[slice_to kv split := true]> st.1, st.2 ++ [kv]).

Fixpoint dedupEnv_loop (st : gmap string bool * list string) (l : list string)
  : outcome (gmap string bool * list string) :=
  match l with
  | [] => Returns st
  | kv :: rest =>
      match dedupEnv_body st kv with
      | Returns st' => dedupEnv_loop st' rest
      | Panics m => Panics m
      | Diverges => Diverges
      end
  end.

(** [dedupEnv]: remove all but the first occurrence of each env var. *)
Definition dedupEnv (l : list string) : outcome (list string) :=
  match dedupEnv_loop (∅, []) l with
  | Returns st => Returns st.2
  | Panics m => Panics m
  | Diverges => Diverges
  end.

(** The key of an entry: the bytes before its first [=]. *)
Definition env_key (kv : string) : string := slice_to kv (strings.Index kv "=").

(** An entry the loop accepts: its first [=] is at index 1 or later. *)
Definition env_valid (kv : string) : Prop := 1 <= strings.Index kv "=".

Global Instance env_valid_dec kv : Decision (env_valid kv).
Proof. unfold env_valid. apply _. Defined.

(** The entry has a [=] separator somewhere. *)
Definition has_sep (kv : string) : Prop := exists a b, kv = a +:+ "=" +:+ b.

(** The entry begins with [=], so its key is empty. *)
Definition empty_key (kv : string) : Prop := exists b, kv = "=" +:+ b.

(** *** What the loop keeps *)

(** The entries appended to [out] when the loop runs over accepted
    entries from the map [saw]. *)
Fixpoint kept (saw : gmap string bool) (l : list string) : list string :=
  match l with
  | [] => []
  | kv :: rest =>
      if default false (saw !! env_key kv) then kept saw rest
      else kv :: kept (<[env_key kv := true]> saw) rest
  end.


(** ** The supervisor *)

(** The fields of [Supervisor] that are plain data.  The logger, the
    context, the readiness map and the wait group live in the states of
    the models below. *)
Record Supervisor : Type := {
  SourcePath : string;
  SourceVersion : string;
  ClusterType : string;
  ListenHost : string;
  ControllerAddr : string;
  OwnTemporaryDatabase : bool;
  tempdir : string;
  configfile : string;
  environ : list string;   (* for child processes *)
}.

(** ** Contexts *)

(** A [context.Context] seen from one run: the instant at which it is
    canceled, if ever, with the error [Err()] reports from then on.
    Cancellation is monotone: [ctx_Err] stays [Some _] once it is. *)
Record Context : Type := {
  ctx_canceled : option (nat * error);
}.

(** [ctx.Err()] evaluated at the instant [now]. *)
Definition ctx_Err (ctx : Context) (now : nat) : option error :=
  match ctx_canceled ctx with
  | Some (t, e) => if (t <=? now)%nat then Some e else None
  | None => None
  end.

(** ** Process supervisor *)

(** The text of an error, as [%v] prints it. *)
Definition error_string (e : error) : string :=
  match e with
  | ContextCanceled => "context canceled"
  | ContextDeadlineExceeded => "context deadline exceeded"
  | Errorf m => m
  | NotExist p => "stat " +:+ p +:+ ": no such file or directory"
  | OSError m => m
  end.

(** [fmt.Sprintf("%s", append([]string{prog}, args...))]. *)
Definition cmdline (prog : string) (args : list string) : string :=
  "[" +:+ String.concat " " (prog :: args) +:+ "]".

(** The outcome of [cmd.StdoutPipe()] and [cmd.StderrPipe()]. *)
Record Pipes : Type := {
  stdoutPipe_err : option error;
  stderrPipe_err : option error;
}.

(** What the operating system does with one child process: whether
    [cmd.Start] succeeds and when it returns, how long the child runs
    and what [cmd.Wait] reports, and how long after the exit
    [RunProgram] gets to look at the context.  [child_exit] is [None]
    for a child that never exits. *)
Record Child : Type := {
  start_err : option error;
  start_time : nat;
  child_exit : option (nat * option error);
  resume_delay : nat;
}.

(** The child is running at the instant [t]: it was started and has
    not exited yet. *)
Definition child_running (c : Child) (t : nat) : Prop :=
  start_err c = None /\ (start_time c <= t)%nat /\
  match child_exit c with
  | Some (d, _) => (t <= start_time c + d)%nat
  | None => True
  end.

(** Lines 450-452: the environment handed to the child. *)
Definition cmd_Env (super : Supervisor) (env : list string) : outcome (list string) :=
  dedupEnv (env ++ environ super).

(** [RunProgram]: the pipes, the environment, [cmd.Start], [cmd.Wait],
    and the choice of the returned error (lines 476-491).  [os] is the
    operating system's answer to spawning a command with the given
    environment. *)
Definition RunProgram (super : Supervisor) (ctx : Context)
    (env : list string) (prog : string) (args : list string)
    (pipes : Pipes) (os : list string -> Child) : outcome (option error) :=
  match stdoutPipe_err pipes with
  | Some e => Returns (Some e)
  | None =>
  match stderrPipe_err pipes with
  | Some e => Returns (Some e)
  | None =>
  match cmd_Env super env with
  | Panics m => Panics m
  | Diverges => Diverges
  | Returns cmdEnv =>
  match start_err (os cmdEnv) with
  | Some e => Returns (Some e)
  | None =>
  match child_exit (os cmdEnv) with
  | None => Diverges
  | Some (d, werr) =>
      let now := (start_time (os cmdEnv) + d + resume_delay (os cmdEnv))%nat in
      match ctx_Err ctx now with
      | Some e => Returns (Some e)
      | None =>
          match werr with
          | Some e =>
              Returns (Some (Errorf (cmdline prog args +:+ ": error: " +:+ error_string e)))
          | None => Returns None
          end
      end
  end end end end end.

(** ** Task scheduler *)

(** A readiness signal: a [chan bool] that is only ever closed. *)
Inductive chan : Type := ChanOpen | ChanClosed.

Global Instance chan_eq_dec : EqDecision chan.
Proof. solve_decision. Defined.

(** Where a call of [wait] stands: before the loop iteration for the
    first of the remaining tasks, or returned. *)
Inductive wait_pc : Type :=
| WaitAt (rest : list string)
| WaitReturned (err : option error).

(** The two cases of the [select] in [wait]. *)
Inductive select_case : Type := CaseReady | CaseDone.

(** One step of [Supervisor.wait] (lines 233-249) on the readiness map
    [ready] and the current [ctx.Err()].  [None]: the chosen case of the
    [select] cannot fire; the call is blocked when neither can. *)
Definition wait_step (ready : gmap string chan) (ctxerr : option error)
    (c : select_case) (tasks : list string) : option wait_pc :=
  match tasks with
  | [] => Some (WaitReturned None)
  | t :: rest =>
      match ready !! t with
      | None => Some (WaitReturned (Some (Errorf ("no such task: " +:+ t))))
      | Some ch =>
          match c with
          | CaseReady =>
              match ch with
              | ChanClosed => Some (WaitAt rest)
              | ChanOpen => None
              end
          | CaseDone =>
              match ctxerr with
              | Some e => Some (WaitReturned (Some e))
              | None => None
              end
          end
      end
  end.

(** The call of [wait] is blocked: no case of its [select] can fire. *)
Definition wait_blocked (ready : gmap string chan) (ctxerr : option error)
    (tasks : list string) : Prop :=
  wait_step ready ctxerr CaseReady tasks = None /\
  wait_step ready ctxerr CaseDone tasks = None.

(** The goroutine of a task: [task.Run] is still running, or it has
    returned this error and the goroutine is done. *)
Inductive task_status : Type :=
| TaskRunning
| TaskReturned (err : option error).

(** The goroutine of [run] from line 221 on: inside [wait], blocked on
    [<-super.ctx.Done()], in [waitShutdown.Wait()], or returned. *)
Inductive main_pc : Type :=
| MainWait (rest : list string)
| MainHealthy
| MainShutdown
| MainReturned (err : option error).

(** The shared state of one run of the scheduler.  [closes] lists the
    [close] operations carried out, in order. *)
Record sched : Type := {
  ctx_err : option error;          (* super.ctx.Err() *)
  tasksReady : gmap string chan;   (* super.tasksReady *)
  status : list task_status;       (* one goroutine per task, in list order *)
  main : main_pc;
  closes : list string;
  panicked : option string;
}.

Definition set_ctx_err (e : option error) (s : sched) : sched :=
  {| ctx_err := e; tasksReady := tasksReady s; status := status s;
     main := main s; closes := closes s; panicked := panicked s |}.

Definition set_status (st : list task_status) (s : sched) : sched :=
  {| ctx_err := ctx_err s; tasksReady := tasksReady s; status := st;
     main := main s; closes := closes s; panicked := panicked s |}.

Definition set_main (pc : main_pc) (s : sched) : sched :=
  {| ctx_err := ctx_err s; tasksReady := tasksReady s; status := status s;
     main := pc; closes := closes s; panicked := panicked s |}.

Definition set_panicked (msg : string) (s : sched) : sched :=
  {| ctx_err := ctx_err s; tasksReady := tasksReady s; status := status s;
     main := main s; closes := closes s; panicked := Some msg |}.

(** The effect of a successful [close] of the channel of [name]. *)
Definition set_closed (name : string) (s : sched) : sched :=
  {| ctx_err := ctx_err s; tasksReady := <[name := ChanClosed]> (tasksReady s);
     status := status s; main := main s; closes := closes s ++ [name];
     panicked := panicked s |}.

(** What can happen next. *)
Inductive event : Type :=
| EvCancel                                   (* a signal or [Stop] calls [super.cancel()] *)
| EvParentDone (e : error)                   (* the context handed to [Start] is done *)
| EvTaskFail (i : nat) (e : error)           (* task [i] calls its [fail] callback *)
| EvTaskReturn (i : nat) (r : option error)  (* [task.Run] of task [i] returns [r] *)
| EvMainSelect (c : select_case)             (* [run]'s [wait] takes a case of its [select] *)
| EvMainStep.                                (* [run] takes its next step otherwise *)

(** [super.cancel()]: the first cancellation decides [ctx.Err()]. *)
Definition cancel_with (e : error) (s : sched) : sched :=
  match ctx_err s with
  | Some _ => s
  | None => set_ctx_err (Some e) s
  end.

(** The [fail] closure of lines 204-210. *)
Definition fail (s : sched) : sched :=
  match ctx_err s with
  | Some _ => s
  | None => cancel_with ContextCanceled s
  end.

(** [close(super.tasksReady[name])]. *)
Definition close_ready (name : string) (s : sched) : sched :=
  match tasksReady s !! name with
  | Some ChanOpen =>
      set_closed name s
  | Some ChanClosed => set_panicked "close of closed channel" s
  | None => set_panicked "close of nil channel" s
  end.

(** Lines 198-201: one open channel per task name. *)
Definition make_tasksReady (tasks : list string) : gmap string chan :=
  foldl (fun m t => <[t := ChanOpen]> m) ∅ tasks.

(** The state when [run] reaches line 221: every goroutine started. *)
Definition run_init (tasks : list string) : sched :=
  {| ctx_err := None;
     tasksReady := make_tasksReady tasks;
     status := replicate (length tasks) TaskRunning;
     main := MainWait tasks;
     closes := [];
     panicked := None |}.

(** The step of [run] from line 221 on. *)
Definition main_step (c : option select_case) (s : sched) : option sched :=
  match main s, c with
  | MainWait [], None => Some (set_main (MainHealthy) s)
  | MainWait (t :: rest), _ =>
      match tasksReady s !! t, c with
      | None, None => Some (set_main (MainReturned (Some (Errorf ("no such task: " +:+ t)))) s)
      | Some _, Some c =>
          match wait_step (tasksReady s) (ctx_err s) c (t :: rest) with
          | Some (WaitAt rest') => Some (set_main (MainWait rest') s)
          | Some (WaitReturned None) => Some (set_main (MainHealthy) s)
          | Some (WaitReturned (Some e)) => Some (set_main (MainReturned (Some e)) s)
          | None => None
          end
      | _, _ => None
      end
  | MainHealthy, None =>
      match ctx_err s with
      | Some _ => Some (set_main (MainShutdown) s)
      | None => None
      end
  | MainShutdown, None => Some (set_main (MainReturned (ctx_err s)) s)
  | _, _ => None
  end.

(** One transition of the scheduler; [None] when the event cannot
    happen in the state.  Nothing happens after a panic. *)
Definition run_step (tasks : list string) (s : sched) (ev : event) : option sched :=
  match panicked s with
  | Some _ => None
  | None =>
      match ev with
      | EvCancel => Some (cancel_with ContextCanceled s)
      | EvParentDone e => Some (cancel_with e s)
      | EvTaskFail i _ =>
          match status s !! i with
          | Some TaskRunning => Some (fail s)
          | _ => None
          end
      | EvTaskReturn i r =>
          match status s !! i, tasks !! i with
          | Some TaskRunning, Some name =>
              let s' := set_status (<[i := TaskReturned r]> (status s)) s in
              match r with
              | Some _ => Some (fail s')
              | None => Some (close_ready name s')
              end
          | _, _ => None
          end
      | EvMainSelect c => main_step (Some c) s
      | EvMainStep => main_step None s
      end
  end.

(** A schedule: the events of a run in order. *)
Fixpoint run_exec (tasks : list string) (s : sched) (evs : list event) : option sched :=
  match evs with
  | [] => Some s
  | ev :: evs' =>
      match run_step tasks s ev with
      | Some s' => run_exec tasks s' evs'
      | None => None
      end
  end.

(** Runs of [wait] on its own, against a fixed readiness map and
    context: the cases its [select] takes, in order. *)
Fixpoint wait_exec (ready : gmap string chan) (ctxerr : option error)
    (cs : list select_case) (pc : wait_pc) : option wait_pc :=
  match cs with
  | [] => Some pc
  | c :: cs' =>
      match pc with
      | WaitReturned _ => None
      | WaitAt tasks =>
          match wait_step ready ctxerr c tasks with
          | Some pc' => wait_exec ready ctxerr cs' pc'
          | None => None
          end
      end
  end.

(** *** Invariants of the scheduler *)

(** Every listed task has its channel; [run] waits for listed tasks
    only, and what it returns is what the context reports. *)
Definition main_inv (tasks : list string) (s : sched) : Prop :=
  (forall t, t ∈ tasks -> is_Some (tasksReady s !! t))
  /\ match main s with
     | MainWait rest => forall t, t ∈ rest -> t ∈ tasks
     | MainHealthy => True
     | MainShutdown => is_Some (ctx_err s)
     | MainReturned r => is_Some r /\ r = ctx_err s
     end.

(** The channel of a task tells how its goroutine ended: open while
    the task runs and after it failed (the context is canceled then),
    closed once it returned without error; every channel is closed at
    most once, and nothing panics. *)
Definition tasks_inv (tasks : list string) (s : sched) : Prop :=
  panicked s = None
  /\ NoDup (closes s)
  /\ (forall t, t ∈ closes s <-> tasksReady s !! t = Some ChanClosed)
  /\ forall i t, tasks !! i = Some t ->
       match status s !! i with
       | Some TaskRunning => tasksReady s !! t = Some ChanOpen
       | Some (TaskReturned None) => tasksReady s !! t = Some ChanClosed
       | Some (TaskReturned (Some _)) =>
           tasksReady s !! t = Some ChanOpen /\ is_Some (ctx_err s)
       | None => False
       end.

(** ** Cluster configuration (sdk/go/arvados, as far as autofill uses it) *)

(** [arvados.URL]: the components autofill sets. *)
Record URL : Type := { Scheme : string; Host : string }.

Global Instance URL_eq_dec : EqDecision URL.
Proof. solve_decision. Defined.

Global Instance URL_countable : Countable URL.
Proof.
  refine (inj_countable' (fun u => (Scheme u, Host u))
            (fun p => {| Scheme := p.1; Host := p.2 |}) _).
  by intros [].
Defined.

(** [arvados.Service]; a [ServiceInstance] carries no data. *)
Record Service : Type := {
  InternalURLs : gmap URL unit;
  ExternalURL : URL;
}.

(** The fields of [arvados.Services] that autofill visits, in the
    order of its loop. *)
Inductive service_name : Type :=
| Controller | DispatchCloud | GitHTTP | Health | Keepproxy | Keepstore
| RailsAPI | WebDAV | WebDAVDownload | Websocket | Workbench1.

Global Instance service_name_eq_dec : EqDecision service_name.
Proof. solve_decision. Defined.

(** [arvados.Services]: one [Service] per field. *)
Definition Services : Type := service_name -> Service.

(** [arvados.VolumeAccess]. *)
Record VolumeAccess : Type := { ReadOnly : bool }.

(** [arvados.Volume]. *)
Record Volume : Type := {
  Driver : string;
  DriverParameters : string;   (* json.RawMessage *)
  AccessViaHosts : gmap URL VolumeAccess;
}.

(** [arvados.Cluster]. *)
Record Cluster : Type := {
  ClusterID : string;
  ManagementToken : string;
  SystemRootToken : string;
  API_RailsSessionSecretToken : string;
  Collections_BlobSigningKey : string;
  Containers_DispatchPrivateKey : string;
  TLS_Insecure : bool;
  ClusterServices : Services;
  Volumes : gmap string Volume;
  PostgreSQL_Connection : gmap string string;
}.

(** [arvados.Config]. *)
Record Config : Type := { Clusters : gmap string Cluster }.

Definition set_ManagementToken (v : string) (c : Cluster) : Cluster :=
  {| ClusterID := ClusterID c; ManagementToken := v;
     SystemRootToken := SystemRootToken c;
     API_RailsSessionSecretToken := API_RailsSessionSecretToken c;
     Collections_BlobSigningKey := Collections_BlobSigningKey c;
     Containers_DispatchPrivateKey := Containers_DispatchPrivateKey c;
     TLS_Insecure := TLS_Insecure c; ClusterServices := ClusterServices c;
     Volumes := Volumes c; PostgreSQL_Connection := PostgreSQL_Connection c |}.

Definition set_SystemRootToken (v : string) (c : Cluster) : Cluster :=
  {| ClusterID := ClusterID c; ManagementToken := ManagementToken c;
     SystemRootToken := v;
     API_RailsSessionSecretToken := API_RailsSessionSecretToken c;
     Collections_BlobSigningKey := Collections_BlobSigningKey c;
     Containers_DispatchPrivateKey := Containers_DispatchPrivateKey c;
     TLS_Insecure := TLS_Insecure c; ClusterServices := ClusterServices c;
     Volumes := Volumes c; PostgreSQL_Connection := PostgreSQL_Connection c |}.

Definition set_RailsSessionSecretToken (v : string) (c : Cluster) : Cluster :=
  {| ClusterID := ClusterID c; ManagementToken := ManagementToken c;
     SystemRootToken := SystemRootToken c;
     API_RailsSessionSecretToken := v;
     Collections_BlobSigningKey := Collections_BlobSigningKey c;
     Containers_DispatchPrivateKey := Containers_DispatchPrivateKey c;
     TLS_Insecure := TLS_Insecure c; ClusterServices := ClusterServices c;
     Volumes := Volumes c; PostgreSQL_Connection := PostgreSQL_Connection c |}.

Definition set_BlobSigningKey (v : string) (c : Cluster) : Cluster :=
  {| ClusterID := ClusterID c; ManagementToken := ManagementToken c;
     SystemRootToken := SystemRootToken c;
     API_RailsSessionSecretToken := API_RailsSessionSecretToken c;
     Collections_BlobSigningKey := v;
     Containers_DispatchPrivateKey := Containers_DispatchPrivateKey c;
     TLS_Insecure := TLS_Insecure c; ClusterServices := ClusterServices c;
     Volumes := Volumes c; PostgreSQL_Connection := PostgreSQL_Connection c |}.

Definition set_DispatchPrivateKey (v : string) (c : Cluster) : Cluster :=
  {| ClusterID := ClusterID c; ManagementToken := ManagementToken c;
     SystemRootToken := SystemRootToken c;
     API_RailsSessionSecretToken := API_RailsSessionSecretToken c;
     Collections_BlobSigningKey := Collections_BlobSigningKey c;
     Containers_DispatchPrivateKey := v;
     TLS_Insecure := TLS_Insecure c; ClusterServices := ClusterServices c;
     Volumes := Volumes c; PostgreSQL_Connection := PostgreSQL_Connection c |}.

Definition set_TLS_Insecure (v : bool) (c : Cluster) : Cluster :=
  {| ClusterID := ClusterID c; ManagementToken := ManagementToken c;
     SystemRootToken := SystemRootToken c;
     API_RailsSessionSecretToken := API_RailsSessionSecretToken c;
     Collections_BlobSigningKey := Collections_BlobSigningKey c;
     Containers_DispatchPrivateKey := Containers_DispatchPrivateKey c;
     TLS_Insecure := v; ClusterServices := ClusterServices c;
     Volumes := Volumes c; PostgreSQL_Connection := PostgreSQL_Connection c |}.

Definition set_Services (v : Services) (c : Cluster) : Cluster :=
  {| ClusterID := ClusterID c; ManagementToken := ManagementToken c;
     SystemRootToken := SystemRootToken c;
     API_RailsSessionSecretToken := API_RailsSessionSecretToken c;
     Collections_BlobSigningKey := Collections_BlobSigningKey c;
     Containers_DispatchPrivateKey := Containers_DispatchPrivateKey c;
     TLS_Insecure := TLS_Insecure c; ClusterServices := v;
     Volumes := Volumes c; PostgreSQL_Connection := PostgreSQL_Connection c |}.

Definition set_Volumes (v : gmap string Volume) (c : Cluster) : Cluster :=
  {| ClusterID := ClusterID c; ManagementToken := ManagementToken c;
     SystemRootToken := SystemRootToken c;
     API_RailsSessionSecretToken := API_RailsSessionSecretToken c;
     Collections_BlobSigningKey := Collections_BlobSigningKey c;
     Containers_DispatchPrivateKey := Containers_DispatchPrivateKey c;
     TLS_Insecure := TLS_Insecure c; ClusterServices := ClusterServices c;
     Volumes := v; PostgreSQL_Connection := PostgreSQL_Connection c |}.

Definition set_Connection (v : gmap string string) (c : Cluster) : Cluster :=
  {| ClusterID := ClusterID c; ManagementToken := ManagementToken c;
     SystemRootToken := SystemRootToken c;
     API_RailsSessionSecretToken := API_RailsSessionSecretToken c;
     Collections_BlobSigningKey := Collections_BlobSigningKey c;
     Containers_DispatchPrivateKey := Containers_DispatchPrivateKey c;
     TLS_Insecure := TLS_Insecure c; ClusterServices := ClusterServices c;
     Volumes := Volumes c; PostgreSQL_Connection := v |}.

(** Assign one field of [cluster.Services]. *)
Definition set_service (n : service_name) (svc : Service) (c : Cluster) : Cluster :=
  set_Services (fun m => if decide (m = n) then svc else ClusterServices c m) c.

(** ** The world outside autofill *)

(** The result of a Go call that returns [(value, error)]. *)
Inductive result (A : Type) : Type :=
| Ok (a : A)
| Fail (e : error).
Arguments Ok {A} a.
Arguments Fail {A} e.

(** What [autofillConfig] calls and does not define: [GetCluster] of
    sdk/go/arvados, the Go library, and the operating system.  The
    [n]-th call of [net.Listen] and of [rand.Read] are told apart by
    their index. *)
Record World : Type := {
  GetCluster : Config -> result Cluster;           (* cfg.GetCluster("") *)
  net_SplitHostPort : string -> result (string * string);
  net_JoinHostPort : string -> string -> string;
  net_Listen : nat -> string -> result string;     (* ln.Addr().String() *)
  rand_fault : nat -> option error;                (* the error of rand.Read *)
  rand_byte : nat -> nat -> byte;                  (* the bytes it fills in *)
  filepath_Join : list string -> string;
  ReadFile : string -> result string;
  stat_fault : string -> option error;
  mkdir_fault : string -> option error;
  range_pick : nat -> nat;                         (* the order of a map range *)
  strconv_Quote : string -> string;                (* the verb %q *)
}.

(** What changes while autofill runs: the closure variable [usedPort],
    the number of calls made to [net.Listen] and to [rand.Read], and the
    directories that exist. *)
Record wstate : Type := {
  usedPort : gmap string bool;
  listens : nat;
  reads : nat;
  dirs : gset string;
}.

(** Computations of autofill: they read and change the [wstate] and
    return a value, return an error, panic, or run out of fuel. *)
Definition M (A : Type) : Type := wstate -> outcome (result A * wstate).

Global Instance M_ret : MRet M := fun A a st => Returns (Ok a, st).

Global Instance M_bind : MBind M := fun A B k m st =>
  match m st with
  | Returns (Ok a, st') => k a st'
  | Returns (Fail e, st') => Returns (Fail e, st')
  | Panics msg => Panics msg
  | Diverges => Diverges
  end.

(** [if err != nil { return err }] after a call without effects. *)
Definition lift {A} (r : result A) : M A := fun st => Returns (r, st).

(** ** Port allocation *)

(** [availablePort] (lines 673-684), at the [n]-th listen. *)
Definition availablePort (w : World) (n : nat) (host : string) : result string :=
  match net_Listen w n (net_JoinHostPort w host "0") with
  | Fail e => Fail e
  | Ok addr =>
      match net_SplitHostPort w addr with
      | Fail e => Fail e
      | Ok (_, port) => Ok port
      end
  end.

(** The closure [nextPort] (lines 499-511); [fuel] bounds the number
    of iterations of its loop. *)
Fixpoint nextPort (w : World) (fuel : nat) (host : string) : M string :=
  fun st =>
    match fuel with
    | O => Diverges
    | S fuel' =>
        match availablePort w (listens st) host with
        | Fail e => Panics (error_string e)
        | Ok port =>
            let st' := {| usedPort := usedPort st; listens := S (listens st);
                          reads := reads st; dirs := dirs st |} in
            if default false (usedPort st' !! port) then nextPort w fuel' host st'
            else Returns (Ok port,
                          {| usedPort := <[port := true]> (usedPort st');
                             listens := listens st'; reads := reads st';
                             dirs := dirs st' |})
        end
    end.

(** A run of allocations: [nextPort] called for each host in turn. *)
Fixpoint nextPorts (w : World) (fuel : nat) (hosts : list string) : M (list string) :=
  match hosts with
  | [] => mret []
  | h :: hosts' =>
      p ← nextPort w fuel h;
      ps ← nextPorts w fuel hosts';
      mret (p :: ps)
  end.

(** ** Secrets *)

Definition hex_digit (n : nat) : ascii :=
  nth n (String.list_ascii_of_string "0123456789abcdef") "0"%char.

(** The verb [%x] on one byte: two lower-case digits. *)
Definition hex_byte (b : byte) : string :=
  String (hex_digit (Nat.div (Byte.to_nat b) 16))
    (String (hex_digit (Nat.modulo (Byte.to_nat b) 16)) "").

(** [fmt.Sprintf("%x", b)]. *)
Definition hex_encode (b : list byte) : string :=
  foldr (fun x s => hex_byte x +:+ s) "" b.

(** [rand.Read(b)] with [len(b) = n], as the [k]-th read. *)
Definition rand_Read (w : World) (k n : nat) : result (list byte) :=
  match rand_fault w k with
  | Some e => Fail e
  | None => Ok (rand_byte w k <$> seq 0 n)
  end.

(** [randomHexString] (lines 634-641). *)
Definition randomHexString (w : World) (chars : nat) : M string :=
  fun st =>
    match rand_Read w (reads st) (Nat.div chars 2) with
    | Fail e => Panics (error_string e)
    | Ok b =>
        Returns (Ok (hex_encode b),
                 {| usedPort := usedPort st; listens := listens st;
                    reads := S (reads st); dirs := dirs st |})
    end.

(** A lower-case hexadecimal digit. *)
Definition is_hex (c : ascii) : bool :=
  bool_decide (c ∈ String.list_ascii_of_string "0123456789abcdef").

(** A well-formed secret: [n] hexadecimal digits. *)
Definition hex_string (n : nat) (s : string) : Prop :=
  String.length s = n /\ forallb is_hex (String.list_ascii_of_string s) = true.

(** ** Configuration autofill *)

(** [fmt.Sprintf("%s:%s", host, port)]. *)
Definition host_port (host port : string) : string := host +:+ ":" +:+ port.

(** The verb [%d] on a non-negative [int]. *)
Definition itoa (n : nat) : string := NilEmpty.string_of_uint (Nat.to_uint n).

Fixpoint zeros (n : nat) : string :=
  match n with
  | O => ""
  | S n' => String "0" (zeros n')
  end.

(** The verb [%015d] on a non-negative [int]. *)
Definition pad015 (n : nat) : string :=
  zeros (15 - String.length (itoa n)) +:+ itoa n.

(** [fmt.Sprintf(cluster.ClusterID+"-nyw5e-%015d", volnum)].  The
    cluster identifier is part of the format: this is what [Sprintf]
    prints when the identifier has no [%] in it ([no_verb]). *)
Definition volume_key (clusterID : string) (volnum : nat) : string :=
  clusterID +:+ "-nyw5e-" +:+ pad015 volnum.


(** [fmt.Sprintf("%s/keep%d.data", super.tempdir, volnum)]. *)
Definition keep_datadir (super : Supervisor) (volnum : nat) : string :=
  tempdir super +:+ "/keep" +:+ itoa volnum +:+ ".data".

Definition dquote : string := String (ascii_of_nat 34) "".

(** [fmt.Sprintf(`{"Root":%q}`, datadir)]. *)
Definition root_parameters (w : World) (datadir : string) : string :=
  "{" +:+ dquote +:+ "Root" +:+ dquote +:+ ":" +:+ strconv_Quote w datadir +:+ "}".

Definition set_ExternalURL (u : URL) (svc : Service) : Service :=
  {| InternalURLs := InternalURLs svc; ExternalURL := u |}.

Definition set_InternalURLs (m : gmap URL unit) (svc : Service) : Service :=
  {| InternalURLs := m; ExternalURL := ExternalURL svc |}.

(** The services of the loop of lines 525-537, in order. *)
Definition autofill_services : list service_name :=
  [Controller; DispatchCloud; GitHTTP; Health; Keepproxy; Keepstore;
   RailsAPI; WebDAV; WebDAVDownload; Websocket; Workbench1].

(** The services that get an [https] external URL (lines 542-547). *)
Definition https_services : list service_name :=
  [Controller; GitHTTP; Keepproxy; WebDAV; WebDAVDownload; Workbench1].

Fixpoint foldM {A B} (f : A -> B -> M A) (a : A) (l : list B) : M A :=
  match l with
  | [] => mret a
  | b :: l' => a' ← f a b; foldM f a' l'
  end.

(** Lines 512-524. *)
Definition autofill_controller (w : World) (fuel : nat) (super : Supervisor)
    (cluster : Cluster) : M Cluster :=
  if decide (Host (ExternalURL (ClusterServices cluster Controller)) = "") then
    hp ← lift (net_SplitHostPort w (ControllerAddr super));
    let h := if decide (hp.1 = "") then ListenHost super else hp.1 in
    p ← (if decide (hp.2 = "0") then nextPort w fuel h else mret hp.2);
    mret (set_service Controller
            (set_ExternalURL {| Scheme := "https"; Host := net_JoinHostPort w h p |}
               (ClusterServices cluster Controller)) cluster)
  else mret cluster.

(** The body of the loop over the services (lines 538-557). *)
Definition autofill_service (w : World) (fuel : nat) (super : Supervisor)
    (cluster : Cluster) (n : service_name) : M Cluster :=
  if decide (n = DispatchCloud /\ ClusterType super = "test") then mret cluster
  else
    let svc := ClusterServices cluster n in
    svc ← (if decide (Host (ExternalURL svc) = "") then
             if decide (n ∈ https_services) then
               port ← nextPort w fuel (ListenHost super);
               mret (set_ExternalURL
                       {| Scheme := "https"; Host := host_port (ListenHost super) port |} svc)
             else if decide (n = Websocket) then
               port ← nextPort w fuel (ListenHost super);
               mret (set_ExternalURL
                       {| Scheme := "wss"; Host := host_port (ListenHost super) port |} svc)
             else mret svc
           else mret svc);
    svc ← (if decide (size (InternalURLs svc) = 0%nat) then
             port ← nextPort w fuel (ListenHost super);
             mret (set_InternalURLs
                     {[ {| Scheme := "http"; Host := host_port (ListenHost super) port |} := () ]}
                     svc)
           else mret svc);
    mret (set_service n svc cluster).

(** Lines 559-570. *)
Definition autofill_secrets (w : World) (cluster : Cluster) : M Cluster :=
  cluster ← (if decide (SystemRootToken cluster = "") then
               s ← randomHexString w 64; mret (set_SystemRootToken s cluster)
             else mret cluster);
  cluster ← (if decide (ManagementToken cluster = "") then
               s ← randomHexString w 64; mret (set_ManagementToken s cluster)
             else mret cluster);
  cluster ← (if decide (API_RailsSessionSecretToken cluster = "") then
               s ← randomHexString w 64; mret (set_RailsSessionSecretToken s cluster)
             else mret cluster);
  if decide (Collections_BlobSigningKey cluster = "") then
    s ← randomHexString w 64; mret (set_BlobSigningKey s cluster)
  else mret cluster.

(** Lines 571-580. *)
Definition autofill_nonproduction (w : World) (super : Supervisor)
    (cluster : Cluster) : M Cluster :=
  cluster ← (if decide (ClusterType super <> "production"
                        /\ Containers_DispatchPrivateKey cluster = "") then
               buf ← lift (ReadFile w (filepath_Join w
                        [SourcePath super; "lib"; "dispatchcloud"; "test"; "sshkey_dispatch"]));
               mret (set_DispatchPrivateKey buf cluster)
             else mret cluster);
  if decide (ClusterType super <> "production") then mret (set_TLS_Insecure true cluster)
  else mret cluster.

(** [os.Stat(datadir + "/.")]: it succeeds on an existing directory. *)
Definition Stat_dot (w : World) (datadir : string) : M (option error) :=
  fun st =>
    match stat_fault w datadir with
    | Some e => Returns (Ok (Some e), st)
    | None =>
        if decide (datadir ∈ dirs st) then Returns (Ok None, st)
        else Returns (Ok (Some (NotExist (datadir +:+ "/."))), st)
    end.

(** [os.IsNotExist]. *)
Definition IsNotExist (e : error) : bool :=
  match e with
  | NotExist _ => true
  | _ => false
  end.

(** [os.Mkdir(datadir, 0755)]. *)
Definition Mkdir (w : World) (datadir : string) : M unit :=
  fun st =>
    if decide (datadir ∈ dirs st) then
      Returns (Fail (OSError ("mkdir " +:+ datadir +:+ ": file exists")), st)
    else
      match mkdir_fault w datadir with
      | Some e => Returns (Fail e, st)
      | None =>
          Returns (Ok (), {| usedPort := usedPort st; listens := listens st;
                             reads := reads st; dirs := {[datadir]} ∪ dirs st |})
      end.

Definition insert_at {A} (n : nat) (x : A) (l : list A) : list A :=
  take n l ++ x :: drop n l.

(** An order of the elements of [l] decided by [pick]: every order
    can be had. *)
Fixpoint shuffle {A} (pick : nat -> nat) (l : list A) : list A :=
  match l with
  | [] => []
  | x :: l' => insert_at (pick (length l')) x (shuffle pick l')
  end.

(** The keys of a map in the order in which [range] yields them. *)
Definition range_keys {V} (w : World) (m : gmap URL V) : list URL :=
  shuffle (range_pick w) (map_to_list m).*1.

(** The body of the loop over the keepstore URLs (lines 589-603). *)
Definition autofill_volume (w : World) (super : Supervisor)
    (cluster : Cluster) (url : URL) : M Cluster :=
  let volnum := size (Volumes cluster) in
  let datadir := keep_datadir super volnum in
  err ← Stat_dot w datadir;
  _ ← match err with
      | None => mret ()
      | Some e => if IsNotExist e then Mkdir w datadir else lift (Fail e)
      end;
  mret (set_Volumes
          (<[volume_key (ClusterID cluster) volnum :=
               {| Driver := "Directory";
                  DriverParameters := root_parameters w datadir;
                  AccessViaHosts := {[ url := {| ReadOnly := false |} ]} |}]>
             (Volumes cluster))
          cluster).

(** Lines 581-605. *)
Definition autofill_test (w : World) (fuel : nat) (super : Supervisor)
    (cluster : Cluster) : M Cluster :=
  if decide (ClusterType super = "test") then
    port ← nextPort w fuel (ListenHost super);
    let ks := ClusterServices cluster Keepstore in
    let urls := <[ {| Scheme := "http"; Host := host_port (ListenHost super) port |} := () ]>
                  (InternalURLs ks) in
    let cluster := set_service Keepstore (set_InternalURLs urls ks) cluster in
    foldM (autofill_volume w super) (set_Volumes ∅ cluster) (range_keys w urls)
  else mret cluster.

(** Lines 606-615. *)
Definition autofill_database (w : World) (fuel : nat) (super : Supervisor)
    (cluster : Cluster) : M Cluster :=
  if OwnTemporaryDatabase super then
    port ← nextPort w fuel (ListenHost super);
    mret (set_Connection
            (<["client_encoding" := "utf8"]>
               (<["host" := "localhost"]>
                  (<["port" := port]>
                     (<["dbname" := "arvados_test"]>
                        (<["user" := "arvados"]>
                           (<["password" := "insecure_arvados_test"]> ∅))))))
            cluster)
  else mret cluster.

(** [autofillConfig] (lines 493-619): the new configuration when it
    returns [nil], the error otherwise. *)
Definition autofillConfig (w : World) (fuel : nat) (super : Supervisor)
    (cfg : Config) : M Config :=
  fun st =>
    (cluster ← lift (GetCluster w cfg);
     cluster ← autofill_controller w fuel super cluster;
     cluster ← foldM (autofill_service w fuel super) cluster autofill_services;
     cluster ← autofill_secrets w cluster;
     cluster ← autofill_nonproduction w super cluster;
     cluster ← autofill_test w fuel super cluster;
     cluster ← autofill_database w fuel super cluster;
     mret {| Clusters := <[ClusterID cluster := cluster]> (Clusters cfg) |})
      {| usedPort := ∅; listens := listens st; reads := reads st; dirs := dirs st |}.

(** ** A concrete world for examples *)

Module Example.

(** [GetCluster("")] for a configuration with exactly one cluster. *)
Definition getCluster (cfg : Config) : result Cluster :=
  match map_to_list (Clusters cfg) with
  | [] => Fail (Errorf "no clusters configured")
  | [(id, cc)] =>
      Ok {| ClusterID := id; ManagementToken := ManagementToken cc;
            SystemRootToken := SystemRootToken cc;
            API_RailsSessionSecretToken := API_RailsSessionSecretToken cc;
            Collections_BlobSigningKey := Collections_BlobSigningKey cc;
            Containers_DispatchPrivateKey := Containers_DispatchPrivateKey cc;
            TLS_Insecure := TLS_Insecure cc; ClusterServices := ClusterServices cc;
            Volumes := Volumes cc; PostgreSQL_Connection := PostgreSQL_Connection cc |}
  | _ => Fail (Errorf "multiple clusters configured, cannot choose")
  end.

(** Split at the last colon. *)
Fixpoint split_colon (s : string) : option (string * string) :=
  match s with
  | EmptyString => None
  | String c s' =>
      match split_colon s' with
      | Some (h, p) => Some (String c h, p)
      | None => if decide (c = ":"%char) then Some (EmptyString, s') else None
      end
  end.

Definition splitHostPort (s : string) : result (string * string) :=
  match split_colon s with
  | Some hp => Ok hp
  | None => Fail (OSError ("address " +:+ s +:+ ": missing port in address"))
  end.

(** The system hands out every port twice in a row, from 4000 on. *)
Definition listen (n : nat) (addr : string) : result string :=
  match split_colon addr with
  | Some (h, _) => Ok (host_port h (itoa (4000 + Nat.div n 2)))
  | None => Fail (OSError "listen: missing port in address")
  end.

Definition world : World :=
  {| GetCluster := getCluster;
     net_SplitHostPort := splitHostPort;
     net_JoinHostPort := host_port;
     net_Listen := listen;
     rand_fault := fun _ => None;
     rand_byte := fun k i => default Byte.x00 (Byte.of_nat (Nat.modulo (k * 37 + i * 11) 256));
     filepath_Join := String.concat "/";
     ReadFile := fun _ => Ok "dispatch-key";
     stat_fault := fun _ => None;
     mkdir_fault := fun _ => None;
     range_pick := fun _ => O;
     strconv_Quote := fun s => dquote +:+ s +:+ dquote |}.

(** The same world without a random source. *)
Definition world_norand : World :=
  {| GetCluster := getCluster;
     net_SplitHostPort := splitHostPort;
     net_JoinHostPort := host_port;
     net_Listen := listen;
     rand_fault := fun _ => Some (OSError "crypto/rand: unavailable");
     rand_byte := fun _ _ => Byte.x00;
     filepath_Join := String.concat "/";
     ReadFile := fun _ => Ok "dispatch-key";
     stat_fault := fun _ => None;
     mkdir_fault := fun _ => None;
     range_pick := fun _ => O;
     strconv_Quote := fun s => dquote +:+ s +:+ dquote |}.

Definition super (clusterType : string) (ownDB : bool) : Supervisor :=
  {| SourcePath := "/src/arvados"; SourceVersion := "";
     ClusterType := clusterType; ListenHost := "localhost";
     ControllerAddr := ":0"; OwnTemporaryDatabase := ownDB;
     tempdir := "/tmp/arvados-server-boot-1"; configfile := "";
     environ := ["PATH=/usr/bin"; "HOME=/root"] |}.

Definition empty_service : Service :=
  {| InternalURLs := ∅; ExternalURL := {| Scheme := ""; Host := "" |} |}.

(** A cluster with nothing set. *)
Definition empty_cluster : Cluster :=
  {| ClusterID := ""; ManagementToken := ""; SystemRootToken := "";
     API_RailsSessionSecretToken := ""; Collections_BlobSigningKey := "";
     Containers_DispatchPrivateKey := ""; TLS_Insecure := false;
     ClusterServices := fun _ => empty_service;
     Volumes := ∅; PostgreSQL_Connection := ∅ |}.

(** The configuration that is empty but for the cluster identifier. *)
Definition cfg_zzzzz : Config := {| Clusters := {[ "zzzzz" := empty_cluster ]} |}.

(** The cluster that [GetCluster] finds in [cfg_zzzzz]. *)
Definition getCluster_zzzzz : Cluster :=
  {| ClusterID := "zzzzz"; ManagementToken := ""; SystemRootToken := "";
     API_RailsSessionSecretToken := ""; Collections_BlobSigningKey := "";
     Containers_DispatchPrivateKey := ""; TLS_Insecure := false;
     ClusterServices := fun _ => empty_service;
     Volumes := ∅; PostgreSQL_Connection := ∅ |}.

(** The workspace exists and has no data directories yet. *)
Definition st0 : wstate :=
  {| usedPort := ∅; listens := O; reads := O; dirs := ∅ |}.

(** The call returned nil. *)
Definition returned_nil {A} (o : outcome (result A * wstate)) : bool :=
  match o with
  | Returns (Ok _, _) => true
  | _ => false
  end.

End Example.

(** *** What the stages of autofill keep *)

(** The ports recorded as used stay recorded, and directories stay. *)
Definition grows (st st' : wstate) : Prop :=
  (forall p, usedPort st !! p = Some true -> usedPort st' !! p = Some true)
  /\ dirs st ⊆ dirs st'.

(** The four secret fields. *)
Definition secrets (c : Cluster) : list string :=
  [SystemRootToken c; ManagementToken c;
   API_RailsSessionSecretToken c; Collections_BlobSigningKey c].

(** A secret after autofill: generated when it was empty, and the old
    value otherwise. *)
Definition secret_filled (old new : string) : Prop :=
  if decide (old = "") then hex_string 64 new else new = old.

(** The volume that autofill makes for the keepstore at [url] as its
    [volnum]-th. *)
Definition keep_volume (w : World) (super : Supervisor) (volnum : nat) (url : URL)
  : Volume :=
  {| Driver := "Directory";
     DriverParameters := root_parameters w (keep_datadir super volnum);
     AccessViaHosts := {[ url := {| ReadOnly := false |} ]} |}.

(** The internal URL autofill makes for a port. *)
Definition http_url (super : Supervisor) (port : string) : URL :=
  {| Scheme := "http"; Host := host_port (ListenHost super) port |}.

(** * The rest of the supervisor *)

(** ** More of package strings *)

(** [strings.HasPrefix(s, prefix)]. *)
Definition HasPrefix (s prefix : string) : bool := String.prefix prefix s.

(** The slice expression [s[n:]]. *)
Definition slice_from (s : string) (n : nat) : string :=
  String.substring n (String.length s - n) s.

(** [strings.Split(s, ":")]: the pieces between the colons; there is
    always at least one piece. *)
Fixpoint Split_colon (s : string) : list string :=
  match s with
  | EmptyString => [EmptyString]
  | String c s' =>
      if decide (c = ":"%char) then EmptyString :: Split_colon s'
      else match Split_colon s' with
           | piece :: pieces => String c piece :: pieces
           | [] => [String c EmptyString]
           end
  end.

(** [filepath.SplitList(path)] on Unix. *)
Definition SplitList (path : string) : list string :=
  if decide (path = "") then [] else Split_colon path.

(** ** The environment of the child processes *)

(** [prependEnv] (lines 289-297), on [super.environ]. *)
Fixpoint prependEnv (key prepend : string) (env : list string) : list string :=
  match env with
  | [] => [key +:+ "=" +:+ prepend]
  | s :: rest =>
      if HasPrefix s (key +:+ "=")
      then (key +:+ "=" +:+ prepend +:+ slice_from s (String.length key + 1)) :: rest
      else s :: prependEnv key prepend rest
  end.

(** [cleanEnv] (lines 299-314). *)
Fixpoint cleanEnv (prefixes : list string) (env : list string) : list string :=
  match env with
  | [] => []
  | s :: rest =>
      if existsb (HasPrefix s) prefixes then cleanEnv prefixes rest
      else s :: cleanEnv prefixes rest
  end.

(** [setEnv] (lines 316-324). *)
Fixpoint setEnv (key val : string) (env : list string) : list string :=
  match env with
  | [] => [key +:+ "=" +:+ val]
  | s :: rest =>
      if HasPrefix s (key +:+ "=") then (key +:+ "=" +:+ val) :: rest
      else s :: setEnv key val rest
  end.

(** A name that can be the key of an entry: not empty, no [=]. *)
Definition key_ok (key : string) : Prop := key <> "" /\ ~ has_sep key.

(** Lines 124-129 of [run]: the environment of the children, made
    from the environment [os_environ] of the supervisor's process. *)
Definition run_environ (w : World) (super : Supervisor) (os_environ : list string)
  : list string :=
  prependEnv "PATH" (filepath_Join w [tempdir super; "bin"] +:+ ":")
    (setEnv "TMPDIR" (tempdir super)
       (setEnv "RAILS_ENV" (ClusterType super)
          (setEnv "ARVADOS_CONFIG" (configfile super)
             (cleanEnv ["ARVADOS_"] os_environ)))).

(** ** Looking up programs *)

(** The inner loop of [lookPath]: the first directory in which [prog]
    is an executable file.  [executable path] tells whether [os.Stat]
    succeeds on [path] and finds an execute bit. *)
Fixpoint lookPath_dirs (w : World) (executable : string -> bool) (prog : string)
    (dirs : list string) : option string :=
  match dirs with
  | [] => None
  | dir :: dirs' =>
      if executable (filepath_Join w [dir; prog]) then Some (filepath_Join w [dir; prog])
      else lookPath_dirs w executable prog dirs'
  end.

(** [lookPath] (lines 383-395). *)
Fixpoint lookPath (w : World) (executable : string -> bool) (env : list string)
    (prog : string) : string :=
  match env with
  | [] => prog
  | val :: rest =>
      if HasPrefix val "PATH=" then
        match lookPath_dirs w executable prog (SplitList (slice_from val 5)) with
        | Some path => path
        | None => lookPath w executable rest prog
        end
      else lookPath w executable rest prog
  end.

(** ** Installing Go programs and the Ruby environment *)

(** [installGoProgram] (lines 343-349): the path of the binary and the
    error of the [go install] run.  [filepath_Split] is
    [filepath.Split]; the working directory of the child is not part of
    the model of [RunProgram]. *)
Definition installGoProgram (w : World) (filepath_Split : string -> string * string)
    (super : Supervisor) (ctx : Context) (srcpath : string)
    (pipes : Pipes) (os : list string -> Child) : outcome (string * option error) :=
  let basename := (filepath_Split srcpath).2 in
  let bindir := filepath_Join w [tempdir super; "bin"] in
  let binfile := filepath_Join w [bindir; basename] in
  match RunProgram super ctx ["GOBIN=" +:+ bindir] "go"
          ["install"; "-ldflags";
           "-X git.arvados.org/arvados.git/lib/cmd.version=" +:+ SourceVersion super
           +:+ " -X main.version=" +:+ SourceVersion super]
          pipes os with
  | Returns err => Returns (binfile, err)
  | Panics m => Panics m
  | Diverges => Diverges
  end.

(** The verb [%v] on an [error] that may be nil. *)
Definition error_v (err : option error) : string :=
  match err with
  | Some e => error_string e
  | None => "<nil>"
  end.

(** [setupRubyEnv] (lines 355-381), on [super.environ]: the new
    environment and the returned error.  [rvm_path] is
    [os.Getenv("rvm_path")]; [gem] is the outcome of running
    [gem env gempath] with the given environment (its output and its
    error); [user_Current] gives the home directory of the user. *)
Definition setupRubyEnv (rvm_path : string)
    (gem : list string -> string * option error)
    (user_Current : result string) (env : list string)
  : list string * option error :=
  let r :=
    if decide (rvm_path = "") then
      let env1 := cleanEnv ["GEM_HOME="; "GEM_PATH="] env in
      let out := gem env1 in
      if bool_decide (out.2 <> None) || bool_decide (String.length out.1 = 0%nat) then
        (env1, Some (Errorf ("gem env gempath: " +:+ error_v out.2)))
      else
        let gempath := hd "" (Split_colon out.1) in
        (setEnv "GEM_PATH" gempath
           (setEnv "GEM_HOME" gempath
              (prependEnv "PATH" (gempath +:+ "/bin:") env1)),
         None)
    else (env, None) in
  match r.2 with
  | Some e => (r.1, Some e)
  | None =>
      match user_Current with
      | Fail e => (r.1, Some e)
      | Ok home => (setEnv "HOME" home r.1, None)
      end
  end.

(** ** More on autofill *)

(** The fields that only the non-production stage assigns. *)
Definition misc (c : Cluster) : bool * string :=
  (TLS_Insecure c, Containers_DispatchPrivateKey c).

(** The loop of lines 525-558 visits a service unless it is the cloud
    dispatcher of a test cluster. *)
Definition visited (super : Supervisor) (n : service_name) : Prop :=
  ~ (n = DispatchCloud /\ ClusterType super = "test").

(** ** Ports of a service *)

(** [internalPort] (lines 643-659).  The [range] over a map of at most
    one entry takes that entry. *)
Definition internalPort (w : World) (svc : Service) : result string :=
  if decide (1 < size (InternalURLs svc))%nat then
    Fail (Errorf "internalPort() doesn't work with multiple InternalURLs")
  else
    match map_to_list (InternalURLs svc) with
    | (u, _) :: _ =>
        match net_SplitHostPort w (Host u) with
        | Fail e => Fail e
        | Ok (_, p) =>
            if decide (p <> "") then Ok p
            else if decide (Scheme u = "https") then Ok "443"
            else Ok "80"
        end
    | [] => Fail (Errorf "service has no InternalURLs")
    end.

(** [externalPort] (lines 661-671). *)
Definition externalPort (w : World) (svc : Service) : result string :=
  match net_SplitHostPort w (Host (ExternalURL svc)) with
  | Fail e => Fail e
  | Ok (_, p) =>
      if decide (p <> "") then Ok p
      else if decide (Scheme (ExternalURL svc) = "https") then Ok "443"
      else Ok "80"
  end.

(** ** Waiting for a listener *)

(** The network and the clock as [waitForConnect] meets them: how long
    a dial begun at an instant takes and what it returns, how long the
    [time.Sleep] begun at an instant lasts, and how long after the test
    of the loop the final [ctx.Err()] is evaluated. *)
Record Net : Type := {
  DialContext : string -> nat -> nat * option error;
  sleep_time : nat -> nat;
  return_delay : nat -> nat;
}.

(** The instant of the next test of the loop after a dial begun at
    [now] has failed. *)
Definition next_attempt (net : Net) (addr : string) (now : nat) : nat :=
  let t := (now + (DialContext net addr now).1)%nat in
  (t + sleep_time net t)%nat.

(** [waitForConnect] (lines 688-700), entered at the instant [now]. *)
Fixpoint waitForConnect (net : Net) (fuel : nat) (ctx : Context) (addr : string)
    (now : nat) : outcome (option error) :=
  match fuel with
  | O => Diverges
  | S fuel' =>
      match ctx_Err ctx now with
      | None =>
          match (DialContext net addr now).2 with
          | Some _ => waitForConnect net fuel' ctx addr (next_attempt net addr now)
          | None => Returns None
          end
      | Some _ => Returns (ctx_Err ctx (now + return_delay net now))
      end
  end.

(** ** Waiting for the cluster to be healthy *)

(** What the [select] of [WaitReady] takes: a tick of the ticker, with
    the health checker as it is then ([None] while it is not set up,
    else the checks of [ClusterHealth()] in the order of the [range]:
    target and [Health]), or the end of the context. *)
Inductive ready_event : Type :=
| EvTick (health : option (list (string * string)))
| EvDone.

(** Lines 275-280: the targets that are not healthy. *)
Definition waiting_targets (checks : list (string * string)) : string :=
  foldl (fun waiting check =>
           if decide (check.2 <> "OK") then waiting +:+ " " +:+ check.1 else waiting)
        "" checks.

(** The loop of [WaitReady] (lines 259-284) with the return of lines
    285-286; [None] when the events end with the call still waiting. *)
Fixpoint WaitReady_loop (u : URL) (waiting : string) (evs : list ready_event)
  : option (option URL * bool) :=
  if decide (waiting <> "") then
    match evs with
    | [] => None
    | EvDone :: _ => Some (None, false)
    | EvTick None :: evs' => WaitReady_loop u waiting evs'
    | EvTick (Some checks) :: evs' => WaitReady_loop u (waiting_targets checks) evs'
    end
  else Some (Some u, true).

(** [WaitReady] (lines 256-287) for a supervisor of [cluster]. *)
Definition WaitReady (cluster : Cluster) (evs : list ready_event)
  : option (option URL * bool) :=
  WaitReady_loop (ExternalURL (ClusterServices cluster Controller)) "all" evs.

(** Every check reports [OK]. *)
Definition all_ok (checks : list (string * string)) : Prop :=
  Forall (fun check => check.2 = "OK") checks.

(** An event after which [WaitReady] goes on waiting. *)
Definition keeps_waiting (ev : ready_event) : Prop :=
  match ev with
  | EvTick None => True
  | EvTick (Some checks) => ~ all_ok checks
  | EvDone => False
  end.

(** ** The scheduler: what [run] has waited for *)

(** While [run] is in [wait], the tasks it has passed are ready; once
    it is past [wait], all are. *)
Definition passed_inv (tasks : list string) (s : sched) : Prop :=
  match main s with
  | MainWait rest =>
      exists passed, tasks = passed ++ rest
                     /\ forall t, t ∈ passed -> tasksReady s !! t = Some ChanClosed
  | MainHealthy | MainShutdown =>
      forall t, t ∈ tasks -> tasksReady s !! t = Some ChanClosed
  | MainReturned _ => True
  end.

(** ** Certificates (lib/boot/cert.go) *)

(** What [createCertificates.Run] does to the outside, in order: the
    programs it runs and the file it writes. *)
Inductive cert_effect : Type :=
| Called (prog : string) (args : list string)
| Wrote (path content : string).

Global Instance cert_effect_eq_dec : EqDecision cert_effect.
Proof. solve_decision. Defined.

Definition genrsa_root : list string := ["genrsa"; "-out"; "rootCA.key"; "4096"].

Definition req_root : list string :=
  ["req"; "-x509"; "-new"; "-nodes"; "-key"; "rootCA.key"; "-sha256"; "-days"; "3650";
   "-out"; "rootCA.crt"; "-subj"; "/C=US/ST=MA/O=Example Org/CN=localhost"].

Definition genrsa_server : list string := ["genrsa"; "-out"; "server.key"; "2048"].

Definition req_server : list string :=
  ["req"; "-new"; "-sha256"; "-key"; "server.key"; "-subj";
   "/C=US/ST=MA/O=Example Org/CN=localhost"; "-reqexts"; "SAN"; "-config"; "server.cfg";
   "-out"; "server.csr"].

Definition x509_server : list string :=
  ["x509"; "-req"; "-in"; "server.csr"; "-CA"; "rootCA.crt"; "-CAkey"; "rootCA.key";
   "-CAcreateserial"; "-out"; "server.crt"; "-days"; "3650"; "-sha256"].

(** The section appended to the default configuration. *)
Definition san_section : string :=
  "
[SAN]
subjectAltName=DNS:localhost,DNS:localhost.localdomain
".

(** [err := super.RunProgram(...); if err != nil { return err }] with
    the effects so far. *)
Definition and_then (r : outcome (option error)) (sofar : list cert_effect)
    (k : outcome (option error * list cert_effect))
  : outcome (option error * list cert_effect) :=
  match r with
  | Returns None => k
  | Returns (Some e) => Returns (Some e, sofar)
  | Panics m => Panics m
  | Diverges => Diverges
  end.

(** [createCertificates.Run]: the returned error and the effects.
    [pipes] and [os] answer for each command line; [WriteFile] is the
    error of [ioutil.WriteFile]. *)
Definition createCertificates_Run (w : World) (super : Supervisor) (ctx : Context)
    (pipes : list string -> Pipes) (os : list string -> list string -> Child)
    (WriteFile : string -> string -> option error)
  : outcome (option error * list cert_effect) :=
  let openssl args := RunProgram super ctx [] "openssl" args (pipes args) (os args) in
  let t1 := [Called "openssl" genrsa_root] in
  let t2 := t1 ++ [Called "openssl" req_root] in
  let t3 := t2 ++ [Called "openssl" genrsa_server] in
  and_then (openssl genrsa_root) t1
    (and_then (openssl req_root) t2
       (and_then (openssl genrsa_server) t3
          match ReadFile w "/etc/ssl/openssl.cnf" with
          | Fail e => Returns (Some e, t3)
          | Ok defaultconf =>
              let path := filepath_Join w [tempdir super; "server.cfg"] in
              let t4 := t3 ++ [Wrote path (defaultconf +:+ san_section)] in
              match WriteFile path (defaultconf +:+ san_section) with
              | Some e => Returns (Some e, t4)
              | None =>
                  let t5 := t4 ++ [Called "openssl" req_server] in
                  let t6 := t5 ++ [Called "openssl" x509_server] in
                  and_then (openssl req_server) t5
                    (and_then (openssl x509_server) t6 (Returns (None, t6)))
              end
          end)).

(** The effects of a run of [createCertificates.Run] that gets to its
    end. *)
Definition cert_plan (w : World) (super : Supervisor) (defaultconf : string)
  : list cert_effect :=
  [Called "openssl" genrsa_root; Called "openssl" req_root;
   Called "openssl" genrsa_server;
   Wrote (filepath_Join w [tempdir super; "server.cfg"]) (defaultconf +:+ san_section);
   Called "openssl" req_server; Called "openssl" x509_server].

(** The child of a command ran to a successful exit, with the context
    live when [RunProgram] looked at it. *)
Definition child_succeeded (super : Supervisor) (ctx : Context) (env : list string)
    (os : list string -> Child) : Prop :=
  exists cmdEnv d,
    cmd_Env super env = Returns cmdEnv
    /\ start_err (os cmdEnv) = None
    /\ child_exit (os cmdEnv) = Some (d, None)
    /\ ctx_Err ctx (start_time (os cmdEnv) + d + resume_delay (os cmdEnv)) = None.

(** ** The environment of the tasks *)

(** [run] builds the environment in lines 124-129 and calls
    [setupRubyEnv] on it (line 170) before it starts a task; the calls
    in between leave it alone.  This is the environment the children of
    the tasks get, with the error of [setupRubyEnv], on which [run]
    returns without starting a task. *)
Definition tasks_environ (w : World) (super : Supervisor) (rvm_path : string)
    (gem : list string -> string * option error) (user_Current : result string)
    (os_environ : list string) : list string * option error :=
  setupRubyEnv rvm_path gem user_Current (run_environ w super os_environ).

(** The directory [setupRubyEnv] puts in front of the path of [env]
    outside RVM: [bin] under the first path that [gem] prints. *)
Definition gem_bindir (gem : list string -> string * option error)
    (env : list string) : string :=
  hd "" (Split_colon (gem (cleanEnv ["GEM_HOME="; "GEM_PATH="] env)).1) +:+ "/bin".

(** The entries [lookPath] looks at. *)
Definition path_entries (env : list string) : list string :=
  filter (fun s => HasPrefix s "PATH=" = true) env.

(** ** A cluster with every endpoint configured *)

Module Configured.

(** Every service has an external URL and one internal URL, on the
    given port of the local host. *)
Definition service (port : string) : Service :=
  {| InternalURLs := {[ {| Scheme := "http"; Host := "localhost:" +:+ port |} := () ]};
     ExternalURL := {| Scheme := "https"; Host := "example.com:443" |} |}.

Definition cluster (port : string) : Cluster :=
  {| ClusterID := "zzzzz"; ManagementToken := ""; SystemRootToken := "";
     API_RailsSessionSecretToken := ""; Collections_BlobSigningKey := "";
     Containers_DispatchPrivateKey := ""; TLS_Insecure := false;
     ClusterServices := fun _ => service port;
     Volumes := ∅; PostgreSQL_Connection := ∅ |}.

Definition cfg (port : string) : Config :=
  {| Clusters := {[ "zzzzz" := cluster port ]} |}.

End Configured.
(** * Properties *)

Example dedupEnv_A : dedupEnv ["A=1"; "A=2"] = Returns ["A=1"].
Proof. vm_compute. reflexivity. Qed.

Example dedupEnv_order :
  dedupEnv ["PATH=/x"; "HOME=/h"; "PATH=/y"; "A=1"; "HOME=/g"]
  = Returns ["PATH=/x"; "HOME=/h"; "A=1"].
Proof. vm_compute. reflexivity. Qed.

Example dedupEnv_nosep : dedupEnv ["A=1"; "B"] = Panics "invalid environment var: B".
Proof. vm_compute. reflexivity. Qed.

Example dedupEnv_emptykey : dedupEnv ["=x"] = Panics "invalid environment var: =x".
Proof. vm_compute. reflexivity. Qed.

(** *** The index of the separator *)

Lemma append_nil_l (s : string) : "" +:+ s = s.
Proof. reflexivity. Qed.

Lemma append_cons_l c (a s : string) : String c a +:+ s = String c (a +:+ s).
Proof. reflexivity. Qed.

Lemma index_sep_cons c s :
  String.index 0 "=" (String c s)
  = if decide (c = "="%char) then Some 0%nat else S <$> String.index 0 "=" s.
Proof.
  cbn [String.index String.prefix].
  destruct (Ascii.ascii_dec "=" c) as [->|Hne].
  - rewrite decide_True by done. by destruct s.
  - rewrite decide_False by congruence. by destruct (String.index 0 "=" s).
Qed.

Lemma Index_sep_nil : strings.Index "" "=" = -1.
Proof. reflexivity. Qed.

Lemma Index_sep_cons c s :
  strings.Index (String c s) "="
  = if decide (c = "="%char) then 0
    else if decide (strings.Index s "=" = -1) then -1
    else strings.Index s "=" + 1.
Proof.
  unfold strings.Index. rewrite index_sep_cons.
  destruct (decide (c = "="%char)) as [|Hc]; [done|].
  destruct (String.index 0 "=" s) as [k|]; cbn.
  - rewrite decide_False by lia. lia.
  - by rewrite decide_True.
Qed.

Lemma Index_sep_ge s : -1 <= strings.Index s "=".
Proof. unfold strings.Index. destruct (String.index 0 "=" s); lia. Qed.

Lemma Index_sep_found s : strings.Index s "=" <> -1 -> has_sep s.
Proof.
  induction s as [|c s IH]; [done|].
  rewrite Index_sep_cons. destruct (decide (c = "="%char)) as [->|Hc].
  - intros _. by exists "", s.
  - destruct (decide (strings.Index s "=" = -1)) as [E|E]; [done|].
    intros _. destruct (IH E) as (a & b & ->). by exists (String c a), b.
Qed.

Lemma Index_sep_none s : strings.Index s "=" = -1 <-> ~ has_sep s.
Proof.
  split; [|intros Hn; destruct (decide (strings.Index s "=" = -1)); [done|];
           by destruct Hn; apply Index_sep_found].
  induction s as [|c s IH].
  - intros _ (a & b & E). by destruct a.
  - rewrite Index_sep_cons. destruct (decide (c = "="%char)) as [->|Hc]; [done|].
    pose proof (Index_sep_ge s).
    destruct (decide (strings.Index s "=" = -1)) as [E|E]; [|lia].
    intros _ (a & b & Hab). rewrite append_cons_l in Hab.
    destruct a as [|c' a]; [rewrite append_nil_l in Hab; congruence|].
    rewrite append_cons_l in Hab. injection Hab as -> ->. apply IH; [done|]. by exists a, b.
Qed.

Lemma Index_sep_zero s : strings.Index s "=" = 0 <-> empty_key s.
Proof.
  destruct s as [|c s].
  - split; [done|]. by intros (b & E).
  - rewrite Index_sep_cons. pose proof (Index_sep_ge s).
    destruct (decide (c = "="%char)) as [->|Hc].
    + split; [|done]. intros _. by exists s.
    + split.
      * destruct (decide (strings.Index s "=" = -1)); lia.
      * intros (b & E). rewrite append_cons_l in E. congruence.
Qed.

(** The loop rejects exactly the entries without separator and the
    entries whose separator is the first byte. *)
Lemma env_valid_iff kv : env_valid kv <-> has_sep kv /\ ~ empty_key kv.
Proof.
  unfold env_valid. pose proof (Index_sep_ge kv).
  pose proof (Index_sep_none kv) as Hn. pose proof (Index_sep_zero kv) as Hz.
  split.
  - intros Hv. split.
    + apply Index_sep_found. lia.
    + intros He. apply Hz in He. lia.
  - intros [Hs He].
    destruct (decide (strings.Index kv "=" = -1)) as [E|E].
    { apply Hn in E. done. }
    destruct (decide (strings.Index kv "=" = 0)) as [E0|E0].
    { apply Hz in E0. done. }
    lia.
Qed.

(** *** The loop on accepted entries *)

Lemma dedupEnv_body_valid st kv :
  env_valid kv ->
  dedupEnv_body st kv
  = if default false (st.1 !! env_key kv) then Returns st
    else Returns (<[env_key kv := true]> st.1, st.2 ++ [kv]).
Proof.
  unfold env_valid, dedupEnv_body, env_key. intros Hv.
  destruct (Z.ltb_spec (strings.Index kv "=") 1); [lia|done].
Qed.

Lemma dedupEnv_body_invalid st kv :
  ~ env_valid kv ->
  dedupEnv_body st kv = Panics ("invalid environment var: " +:+ kv).
Proof.
  unfold env_valid, dedupEnv_body. intros Hv.
  destruct (Z.ltb_spec (strings.Index kv "=") 1); [done|lia].
Qed.

Lemma dedupEnv_loop_valid l : forall saw out,
  Forall env_valid l ->
  dedupEnv_loop (saw, out) l
  = Returns (foldl (fun m kv => <[env_key kv := true]> m) saw (kept saw l),
             out ++ kept saw l).
Proof.
  induction l as [|kv rest IH]; intros saw out Hv; cbn [dedupEnv_loop kept].
  - cbn. by rewrite app_nil_r.
  - inversion_clear Hv as [|? ? Hkv Hrest].
    rewrite dedupEnv_body_valid by done. cbn [fst snd].
    destruct (default false (saw !! env_key kv)).
    + by apply IH.
    + rewrite IH by done. cbn [foldl]. by rewrite <- app_assoc.
Qed.

Lemma dedupEnv_loop_invalid l : forall st,
  Exists (fun kv => ~ env_valid kv) l ->
  exists kv, kv ∈ l /\ ~ env_valid kv
    /\ dedupEnv_loop st l = Panics ("invalid environment var: " +:+ kv).
Proof.
  induction l as [|kv rest IH]; intros st Hex; [by inversion Hex|].
  cbn [dedupEnv_loop]. destruct (decide (env_valid kv)) as [Hv|Hv].
  - inversion_clear Hex as [? ? Hbad|? ? Hbad]; [done|].
    rewrite dedupEnv_body_valid by done.
    destruct (default false (st.1 !! env_key kv));
      (edestruct IH as (kv' & Hin & Hn & ->); [done|]);
      exists kv'; split_and!; try done; by right.
  - exists kv. rewrite dedupEnv_body_invalid by done. split_and!; try done. by left.
Qed.

Lemma dedupEnv_valid l : Forall env_valid l -> dedupEnv l = Returns (kept ∅ l).
Proof. intros Hv. unfold dedupEnv. by rewrite dedupEnv_loop_valid. Qed.

Lemma kept_sublist l : forall saw, sublist (kept saw l) l.
Proof.
  induction l as [|kv rest IH]; intros saw; cbn [kept]; [done|].
  destruct (default false (saw !! env_key kv)).
  - by apply sublist_cons.
  - by apply sublist_skip.
Qed.

(** For every key: nothing is kept when the key was seen before the
    loop, and otherwise exactly the first entry of the input with it. *)
Lemma kept_filter_key k l : forall saw,
  filter (fun kv => env_key kv = k) (kept saw l)
  = if default false (saw !! k) then []
    else option_list (head (filter (fun kv => env_key kv = k) l)).
Proof.
  induction l as [|kv rest IH]; intros saw; cbn [kept].
  - by destruct (default false (saw !! k)).
  - destruct (decide (env_key kv = k)) as [<-|Hne].
    + rewrite (filter_cons_True _ kv rest) by done. cbn [head option_list].
      destruct (default false (saw !! env_key kv)) eqn:Hs.
      * by rewrite IH, Hs.
      * rewrite filter_cons_True by done. rewrite IH.
        by rewrite lookup_insert_eq.
    + rewrite (filter_cons_False _ kv rest) by done.
      destruct (default false (saw !! env_key kv)) eqn:Hs.
      * by rewrite IH.
      * rewrite filter_cons_False by done. rewrite IH.
        by rewrite lookup_insert_ne.
Qed.

(** A list whose keys are pairwise distinct and unseen is kept whole. *)
Lemma kept_all l : forall saw,
  NoDup (env_key <$> l) ->
  Forall (fun kv => default false (saw !! env_key kv) = false) l ->
  kept saw l = l.
Proof.
  induction l as [|kv rest IH]; intros saw Hnd Hun; [done|].
  cbn [kept]. rewrite fmap_cons in Hnd.
  apply NoDup_cons in Hnd as [Hnotin Hnd].
  inversion_clear Hun as [|? ? Hkv Hrest]. rewrite Hkv. f_equal.
  apply IH; [done|]. apply Forall_forall. intros kv' Hin.
  rewrite lookup_insert_ne.
  - by eapply Forall_forall in Hrest.
  - intros E. apply Hnotin. rewrite E. by apply list_elem_of_fmap_2.
Qed.

Lemma kept_unseen l : forall saw,
  Forall (fun kv => default false (saw !! env_key kv) = false) (kept saw l).
Proof.
  induction l as [|kv rest IH]; intros saw; cbn [kept]; [done|].
  destruct (default false (saw !! env_key kv)) eqn:Hs; [done|].
  constructor; [done|]. specialize (IH (<[env_key kv := true]> saw)).
  eapply Forall_impl; [exact IH|]. intros kv' H. cbn in H.
  destruct (decide (env_key kv = env_key kv')) as [E|E].
  - rewrite <- E, lookup_insert_eq in H. done.
  - by rewrite lookup_insert_ne in H.
Qed.

Lemma kept_NoDup l : forall saw, NoDup (env_key <$> kept saw l).
Proof.
  induction l as [|kv rest IH]; intros saw; cbn [kept]; [constructor|].
  destruct (default false (saw !! env_key kv)) eqn:Hs; [done|].
  rewrite fmap_cons. apply NoDup_cons. split; [|done].
  intros Hin. apply list_elem_of_fmap in Hin as (kv' & E & Hin).
  pose proof (kept_unseen rest (<[env_key kv := true]> saw)) as Hun.
  eapply Forall_forall in Hun; [|done].
  rewrite <- E, lookup_insert_eq in Hun. done.
Qed.

Lemma kept_idemp l : kept ∅ (kept ∅ l) = kept ∅ l.
Proof.
  apply kept_all; [apply kept_NoDup|].
  apply Forall_forall. intros kv _. by rewrite lookup_empty.
Qed.

(** *** Claims about [dedupEnv] *)

(** What [dedupEnv] returns on accepted entries. *)
Lemma dedupEnv_accepted (l : list string) :
  Forall env_valid l ->
  exists out,
    dedupEnv l = Returns out
    /\ forall k, filter (fun kv => env_key kv = k) out
                 = option_list (head (filter (fun kv => env_key kv = k) l)).
Proof.
  intros Hv. exists (kept ∅ l). split; [by apply dedupEnv_valid|].
  intros k. rewrite kept_filter_key. by rewrite lookup_empty.
Qed.

(** C6. Environment deduplication is idempotent, and of the entries
    with one key it keeps exactly the first, in the order of the input:
    on a list of accepted entries [dedupEnv] returns a list [out] which
    it maps to itself, which is a sublist of the input, and whose
    entries with key [k] are, for every [k], just the first entry of
    the input with key [k]. *)
Theorem dedupEnv_idempotent_first_wins (l : list string) :
  Forall env_valid l ->
  exists out,
    dedupEnv l = Returns out
    /\ dedupEnv out = Returns out
    /\ sublist out l
    /\ forall k, filter (fun kv => env_key kv = k) out
                 = option_list (head (filter (fun kv => env_key kv = k) l)).
Proof.
  intros Hv. exists (kept ∅ l). split_and!.
  - by apply dedupEnv_valid.
  - rewrite dedupEnv_valid.
    + by rewrite kept_idemp.
    + apply Forall_forall. intros kv Hin.
      eapply Forall_forall in Hv; [done|].
      eapply elem_of_sublist; [done|apply kept_sublist].
  - apply kept_sublist.
  - intros k. rewrite kept_filter_key. by rewrite lookup_empty.
Qed.

Lemma dedupEnv_idempotent_first_wins_witness :
  Forall env_valid ["A=1"; "A=2"] /\
  exists out,
    dedupEnv ["A=1"; "A=2"] = Returns out
    /\ dedupEnv out = Returns out
    /\ sublist out ["A=1"; "A=2"]
    /\ forall k, filter (fun kv => env_key kv = k) out
                 = option_list (head (filter (fun kv => env_key kv = k) ["A=1"; "A=2"])).
Proof.
  assert (Forall env_valid ["A=1"; "A=2"]) as Hv.
  { repeat constructor; vm_compute; discriminate. }
  split; [exact Hv|]. exact (dedupEnv_idempotent_first_wins ["A=1"; "A=2"] Hv).
Defined.

(** C7, as the code has it. [dedupEnv] panics exactly when some entry
    has no [=] separator or has it as its first byte (an empty key), and
    returns normally exactly when every entry has a separator after a
    non-empty key. *)
Theorem dedupEnv_panics_iff (l : list string) :
  ((exists m, dedupEnv l = Panics m)
     <-> Exists (fun kv => ~ has_sep kv \/ empty_key kv) l)
  /\ ((exists out, dedupEnv l = Returns out)
     <-> Forall (fun kv => has_sep kv /\ ~ empty_key kv) l).
Proof.
  assert (Forall env_valid l <-> Forall (fun kv => has_sep kv /\ ~ empty_key kv) l) as HF.
  { apply Forall_iff. intros kv. apply env_valid_iff. }
  assert (Exists (fun kv => ~ env_valid kv) l
          <-> Exists (fun kv => ~ has_sep kv \/ empty_key kv) l) as HE.
  { apply Exists_proper; [|done]. intros kv. red. rewrite env_valid_iff.
    pose proof (Index_sep_none kv) as Hn.
    destruct (decide (strings.Index kv "=" = -1)) as [E|E].
    - apply Hn in E. tauto.
    - apply Index_sep_found in E.
      destruct (decide (strings.Index kv "=" = 0)) as [E0|E0].
      + apply Index_sep_zero in E0. tauto.
      + rewrite <- Index_sep_zero. tauto. }
  destruct (decide (Forall env_valid l)) as [Hv|Hv].
  - rewrite <- HF, <- HE, dedupEnv_valid by done. split; split.
    + by intros [m ?].
    + intros Hex. apply Exists_exists in Hex as (kv & Hin & Hn).
      destruct Hn. by eapply Forall_forall in Hv.
    + done.
    + eauto.
  - rewrite <- HF, <- HE. apply not_Forall_Exists in Hv; [|apply _].
    change (Exists (fun kv => ~ env_valid kv) l) in Hv.
    destruct (dedupEnv_loop_invalid l (∅, []) Hv) as (kv & _ & _ & Hp).
    unfold dedupEnv. rewrite Hp. split; split.
    + done.
    + eauto.
    + by intros [out ?].
    + intros HFv. apply Exists_exists in Hv as (kv' & Hin & Hn).
      destruct Hn. by eapply Forall_forall in HFv.
Qed.

(** C7 as stated fails: the entry [=x] contains a separator, and
    [dedupEnv] panics on it. *)
Lemma dedupEnv_panics_with_sep :
  Forall has_sep ["=x"]
  /\ dedupEnv ["=x"] = Panics "invalid environment var: =x".
Proof.
  split; [|vm_compute; reflexivity].
  repeat constructor. by exists "", "x".
Qed.

(** *** Claims about [RunProgram] *)




Example RunProgram_env_example :
  cmd_Env (Example.super "test" true) ["GOBIN=/tmp/bin"; "HOME=/var/lib/arvados"]
  = Returns ["GOBIN=/tmp/bin"; "HOME=/var/lib/arvados"; "PATH=/usr/bin"].
Proof. vm_compute. reflexivity. Qed.

Lemma ctx_Err_monotone ctx t t' e :
  ctx_Err ctx t = Some e -> (t <= t')%nat -> ctx_Err ctx t' = Some e.
Proof.
  unfold ctx_Err. destruct (ctx_canceled ctx) as [[tc e']|]; [|done].
  destruct (Nat.leb_spec tc t); [|done]. intros [= ->] Hle.
  destruct (Nat.leb_spec tc t'); [done|lia].
Qed.

(** C1. If the context is canceled while the child is running, and the
    child then exits, [RunProgram] returns the context's error, whatever
    error [cmd.Wait] reports for the child. *)
Theorem RunProgram_returns_ctx_error (super : Supervisor) (ctx : Context)
    (env : list string) (prog : string) (args : list string)
    (pipes : Pipes) (os : list string -> Child)
    (childEnv : list string) (tc d : nat) (e : error) (werr : option error) :
  stdoutPipe_err pipes = None ->
  stderrPipe_err pipes = None ->
  cmd_Env super env = Returns childEnv ->
  child_exit (os childEnv) = Some (d, werr) ->
  ctx_canceled ctx = Some (tc, e) ->
  child_running (os childEnv) tc ->
  RunProgram super ctx env prog args pipes os = Returns (Some e)
  /\ ctx_Err ctx tc = Some e.
Proof.
  intros Hout Herr Henv Hexit Hctx (Hstart & Hts & Hte).
  rewrite Hexit in Hte.
  assert (ctx_Err ctx tc = Some e) as Hnow.
  { unfold ctx_Err. rewrite Hctx. by rewrite Nat.leb_refl. }
  split; [|done]. unfold RunProgram.
  rewrite Hout, Herr, Henv, Hstart, Hexit.
  rewrite (ctx_Err_monotone ctx tc _ e Hnow) by lia. done.
Qed.

Lemma RunProgram_returns_ctx_error_witness :
  let super := Example.super "test" true in
  let ctx := {| ctx_canceled := Some (7%nat, ContextCanceled) |} in
  let pipes := {| stdoutPipe_err := None; stderrPipe_err := None |} in
  let os := fun _ : list string =>
    {| start_err := None; start_time := 2;
       child_exit := Some (9%nat, Some (OSError "signal: terminated"));
       resume_delay := 1 |} in
  RunProgram super ctx [] "openssl" ["genrsa"] pipes os = Returns (Some ContextCanceled)
  /\ ctx_Err ctx 7 = Some ContextCanceled.
Proof.
  intros super ctx pipes os.
  apply (RunProgram_returns_ctx_error super ctx [] "openssl" ["genrsa"] pipes os
           ["PATH=/usr/bin"; "HOME=/root"] 7 9 ContextCanceled
           (Some (OSError "signal: terminated"))).
  - reflexivity.
  - reflexivity.
  - vm_compute. reflexivity.
  - reflexivity.
  - reflexivity.
  - subst os. unfold child_running. cbn. split_and!; [reflexivity|lia|lia].
Defined.

(** Without cancellation the same child's failure is reported with the
    command line. *)
Example RunProgram_child_failure :
  RunProgram (Example.super "test" true) {| ctx_canceled := None |} []
    "openssl" ["genrsa"] {| stdoutPipe_err := None; stderrPipe_err := None |}
    (fun _ => {| start_err := None; start_time := 2;
                 child_exit := Some (9%nat, Some (OSError "exit status 1"));
                 resume_delay := 1 |})
  = Returns (Some (Errorf "[openssl genrsa]: error: exit status 1")).
Proof. vm_compute. reflexivity. Qed.

(** *** The scheduler *)

Lemma make_tasksReady_lookup tasks t :
  make_tasksReady tasks !! t = if decide (t ∈ tasks) then Some ChanOpen else None.
Proof.
  unfold make_tasksReady.
  assert (forall m : gmap string chan, foldl (fun m t => <[t := ChanOpen]> m) m tasks !! t
                    = if decide (t ∈ tasks) then Some ChanOpen else m !! t) as H.
  { induction tasks as [|t' tasks IH]; intros m; cbn [foldl].
    - rewrite decide_False; [done|]. apply not_elem_of_nil.
    - rewrite IH. destruct (decide (t ∈ tasks)) as [Hin|Hin].
      + rewrite decide_True; [done|]. by right.
      + destruct (decide (t = t')) as [->|Hne].
        * rewrite decide_True by left. by rewrite lookup_insert_eq.
        * rewrite decide_False; [by rewrite lookup_insert_ne|].
          intros [?|?]%elem_of_cons; done. }
  rewrite H. by rewrite lookup_empty.
Qed.

Lemma cancel_with_spec e s :
  cancel_with e s
  = set_ctx_err (Some (default e (ctx_err s))) s.
Proof. unfold cancel_with. by destruct s as [[?|] ? ? ? ? ?]. Qed.

Lemma fail_spec s : fail s = cancel_with ContextCanceled s.
Proof. unfold fail, cancel_with. by destruct (ctx_err s). Qed.

Section scheduler.

(** The names of the tasks of the run, in list order. *)
Context (tasks : list string).

Lemma main_inv_init : main_inv tasks (run_init tasks).
Proof.
  split; cbn.
  - intros t Hin. rewrite make_tasksReady_lookup. by rewrite decide_True.
  - done.
Qed.

Lemma main_inv_cancel e s : main_inv tasks s -> main_inv tasks (cancel_with e s).
Proof.
  rewrite cancel_with_spec. intros [Hdom Hmain]. split; [done|]. cbn.
  destruct (main s) as [rest| | |r]; try done.
  destruct Hmain as [[x ->] <-]. done.
Qed.

Lemma main_inv_status st s : main_inv tasks s -> main_inv tasks (set_status st s).
Proof. done. Qed.

Lemma main_inv_close name s : main_inv tasks s -> main_inv tasks (close_ready name s).
Proof.
  intros [Hdom Hmain]. unfold close_ready.
  destruct (tasksReady s !! name) as [[|]|] eqn:E; try done.
  split; [|done]. cbn. intros t Hin.
  destruct (decide (t = name)) as [->|Hne].
  - by rewrite lookup_insert_eq.
  - rewrite lookup_insert_ne by done. by apply Hdom.
Qed.

Lemma main_inv_main_step c s s' :
  main_inv tasks s -> main_step c s = Some s' -> main_inv tasks s'.
Proof.
  intros [Hdom Hmain] Hstep. unfold main_step in Hstep.
  destruct (main s) as [[|t rest]| | |r] eqn:Em.
  - destruct c; [done|]. injection Hstep as <-. done.
  - assert (t ∈ tasks) as Ht by (apply Hmain; left).
    destruct (Hdom t Ht) as [ch Hch]. rewrite Hch in Hstep.
    destruct c as [c|]; [|done]. unfold wait_step in Hstep. rewrite Hch in Hstep.
    destruct c.
    + destruct ch; [done|]. injection Hstep as <-. split; [done|]. cbn.
      intros t' Hin. apply Hmain. by right.
    + destruct (ctx_err s) as [e|] eqn:Ee; [|done]. injection Hstep as <-.
      split; [done|]. cbn. rewrite Ee. split; [by eexists|done].
  - destruct c; [done|]. destruct (ctx_err s) as [e|] eqn:Ee; [|done].
    injection Hstep as <-. split; [done|]. cbn. rewrite Ee. by eexists.
  - destruct c; [done|]. injection Hstep as <-. split; [done|]. cbn. done.
  - by destruct c.
Qed.

Lemma main_inv_step s ev s' :
  main_inv tasks s -> run_step tasks s ev = Some s' -> main_inv tasks s'.
Proof.
  intros Hinv Hstep. unfold run_step in Hstep.
  destruct (panicked s); [done|]. destruct ev as [|e|i e|i r|c|].
  - injection Hstep as <-. by apply main_inv_cancel.
  - injection Hstep as <-. by apply main_inv_cancel.
  - destruct (status s !! i) as [[|]|]; try done. injection Hstep as <-.
    rewrite fail_spec. by apply main_inv_cancel.
  - destruct (status s !! i) as [[|]|]; try done.
    destruct (tasks !! i) as [name|]; [|done].
    destruct r as [e|]; injection Hstep as <-.
    + rewrite fail_spec. by apply main_inv_cancel, main_inv_status.
    + by apply main_inv_close, main_inv_status.
  - by eapply main_inv_main_step.
  - by eapply main_inv_main_step.
Qed.

Lemma main_inv_exec evs : forall s s',
  main_inv tasks s -> run_exec tasks s evs = Some s' -> main_inv tasks s'.
Proof.
  induction evs as [|ev evs IH]; intros s s' Hinv Hexec; cbn in Hexec.
  - by injection Hexec as <-.
  - destruct (run_step tasks s ev) as [s1|] eqn:Hstep; [|done].
    eapply IH; [|done]. by eapply main_inv_step.
Qed.

(** Once the context is canceled, [run] can finish, and it returns
    the context's error. *)
Lemma main_finishes s :
  main_inv tasks s -> panicked s = None -> is_Some (ctx_err s) ->
  exists evs s', run_exec tasks s evs = Some s' /\ main s' = MainReturned (ctx_err s).
Proof.
  intros [Hdom Hmain] Hp [e He].
  destruct s as [ce tr st mn cl pn]. cbn in *. subst ce pn.
  destruct mn as [[|t rest]| | |r].
  - exists [EvMainStep; EvMainStep; EvMainStep]. eexists. split; reflexivity.
  - assert (t ∈ tasks) as Ht by (apply Hmain; left).
    destruct (Hdom t Ht) as [ch Hch].
    exists [EvMainSelect CaseDone]. eexists.
    cbn. unfold run_step, main_step, wait_step. cbn. rewrite Hch.
    split; reflexivity.
  - exists [EvMainStep; EvMainStep]. eexists. split; reflexivity.
  - exists [EvMainStep]. eexists. split; reflexivity.
  - exists []. eexists. split; [reflexivity|]. cbn. by destruct Hmain as [_ ->].
Qed.

Lemma tasks_inv_init : tasks_inv tasks (run_init tasks).
Proof.
  split_and!; cbn.
  - done.
  - constructor.
  - intros t. rewrite make_tasksReady_lookup. split.
    + by intros ?%elem_of_nil.
    + by destruct (decide (t ∈ tasks)).
  - intros i t Hi. rewrite lookup_replicate_2 by (by eapply lookup_lt_Some).
    rewrite make_tasksReady_lookup, decide_True; [done|].
    by eapply list_elem_of_lookup_2.
Qed.

Lemma tasks_inv_cancel e s : tasks_inv tasks s -> tasks_inv tasks (cancel_with e s).
Proof.
  rewrite cancel_with_spec. intros (Hp & Hnd & Hcl & Hst).
  split_and!; try done. cbn. intros i t Hi. specialize (Hst i t Hi).
  destruct (status s !! i) as [[|[e'|]]|]; try done.
  destruct Hst as [? _]. split; [done|by eexists].
Qed.

Lemma tasks_inv_main pc s : tasks_inv tasks s -> tasks_inv tasks (set_main pc s).
Proof. done. Qed.

Lemma tasks_inv_main_step c s s' :
  tasks_inv tasks s -> main_step c s = Some s' -> tasks_inv tasks s'.
Proof.
  intros Hinv Hstep. unfold main_step in Hstep.
  repeat (match type of Hstep with
          | context [match ?x with _ => _ end] => destruct x; try done
          end);
    injection Hstep as <-; by apply tasks_inv_main.
Qed.

Lemma tasks_inv_return_err i name e s :
  tasks_inv tasks s ->
  status s !! i = Some TaskRunning -> tasks !! i = Some name ->
  tasks_inv tasks (fail (set_status (<[i := TaskReturned (Some e)]> (status s)) s)).
Proof.
  intros (Hp & Hnd & Hcl & Hst) Hrun Hname.
  rewrite fail_spec, cancel_with_spec.
  split_and!; try done. cbn. intros j t Hj.
  destruct (decide (j = i)) as [->|Hne].
  - rewrite list_lookup_insert_eq by (by eapply lookup_lt_Some).
    specialize (Hst i t Hj). rewrite Hrun in Hst. split; [done|by eexists].
  - rewrite list_lookup_insert_ne by done. specialize (Hst j t Hj).
    destruct (status s !! j) as [[|[e'|]]|]; try done.
    destruct Hst as [? _]. split; [done|by eexists].
Qed.

(** The tasks are named apart. *)
Hypothesis tasks_distinct : NoDup tasks.

Lemma tasks_inv_return_ok i name s :
  tasks_inv tasks s ->
  status s !! i = Some TaskRunning -> tasks !! i = Some name ->
  tasks_inv tasks (close_ready name (set_status (<[i := TaskReturned None]> (status s)) s)).
Proof.
  intros (Hp & Hnd & Hcl & Hst) Hrun Hname.
  assert (tasksReady s !! name = Some ChanOpen) as Hopen.
  { specialize (Hst i name Hname). by rewrite Hrun in Hst. }
  unfold close_ready. cbn. rewrite Hopen. split_and!; cbn.
  - done.
  - apply NoDup_app. split_and!; [done| |apply NoDup_singleton].
    intros t Hin ->%list_elem_of_singleton. apply Hcl in Hin. congruence.
  - intros t. rewrite elem_of_app, list_elem_of_singleton, Hcl.
    destruct (decide (t = name)) as [->|Hne].
    + rewrite lookup_insert_eq. tauto.
    + rewrite lookup_insert_ne by done. tauto.
  - intros j t Hj. destruct (decide (j = i)) as [->|Hne].
    + rewrite list_lookup_insert_eq by (by eapply lookup_lt_Some).
      assert (t = name) as -> by congruence. by rewrite lookup_insert_eq.
    + rewrite list_lookup_insert_ne by done.
      assert (t <> name) as Htn.
      { intros ->. apply Hne. exact (NoDup_lookup tasks j i name tasks_distinct Hj Hname). }
      rewrite lookup_insert_ne by done. by apply Hst.
Qed.

Lemma tasks_inv_step s ev s' :
  tasks_inv tasks s -> run_step tasks s ev = Some s' -> tasks_inv tasks s'.
Proof.
  intros Hinv Hstep. unfold run_step in Hstep.
  destruct (panicked s); [done|]. destruct ev as [|e|i e|i r|c|].
  - injection Hstep as <-. by apply tasks_inv_cancel.
  - injection Hstep as <-. by apply tasks_inv_cancel.
  - destruct (status s !! i) as [[|]|]; try done. injection Hstep as <-.
    rewrite fail_spec. by apply tasks_inv_cancel.
  - destruct (status s !! i) as [[|]|] eqn:Hrun; try done.
    destruct (tasks !! i) as [name|] eqn:Hname; [|done].
    destruct r as [e|]; injection Hstep as <-.
    + by eapply tasks_inv_return_err.
    + by eapply tasks_inv_return_ok.
  - by eapply tasks_inv_main_step.
  - by eapply tasks_inv_main_step.
Qed.

Lemma tasks_inv_exec evs : forall s s',
  tasks_inv tasks s -> run_exec tasks s evs = Some s' -> tasks_inv tasks s'.
Proof.
  induction evs as [|ev evs IH]; intros s s' Hinv Hexec; cbn in Hexec.
  - by injection Hexec as <-.
  - destruct (run_step tasks s ev) as [s1|] eqn:Hstep; [|done].
    eapply IH; [|done]. by eapply tasks_inv_step.
Qed.

End scheduler.

(** C2, as the code has it. [run] never returns nil from line 221 on:
    whatever it returns, after a clean start and an outside
    cancellation as well as after a task failure, is the non-nil error
    of the canceled context; and once the context is canceled [run] can
    run to its return. *)
Theorem run_returns_ctx_error (tasks : list string) (evs : list event) (s : sched) :
  run_exec tasks (run_init tasks) evs = Some s ->
  (forall r, main s = MainReturned r -> is_Some r /\ r = ctx_err s)
  /\ (panicked s = None -> is_Some (ctx_err s) ->
      exists evs' s', run_exec tasks s evs' = Some s'
                      /\ main s' = MainReturned (ctx_err s)).
Proof.
  intros Hexec.
  assert (main_inv tasks s) as Hinv.
  { eapply main_inv_exec; [apply main_inv_init|done]. }
  split.
  - intros r Hr. destruct Hinv as [_ Hmain]. by rewrite Hr in Hmain.
  - intros Hp Hc. by apply main_finishes.
Qed.

Lemma run_returns_ctx_error_witness :
  let tasks := ["certificates"; "postgresql"] in
  let evs := [EvTaskReturn 0 None; EvTaskReturn 1 (Some (Errorf "initdb failed"));
              EvMainSelect CaseReady; EvMainSelect CaseDone] in
  let s := {| ctx_err := Some ContextCanceled;
              tasksReady := <["certificates" := ChanClosed]> (make_tasksReady tasks);
              status := [TaskReturned None; TaskReturned (Some (Errorf "initdb failed"))];
              main := MainReturned (Some ContextCanceled);
              closes := ["certificates"];
              panicked := None |} in
  (forall r, main s = MainReturned r -> is_Some r /\ r = ctx_err s)
  /\ (panicked s = None -> is_Some (ctx_err s) ->
      exists evs' s', run_exec tasks s evs' = Some s'
                      /\ main s' = MainReturned (ctx_err s)).
Proof.
  intros tasks evs s.
  apply (run_returns_ctx_error tasks evs s).
  vm_compute. reflexivity.
Defined.

(** C2 as stated fails: every task returns without error, [run] sees
    all of them ready, cancellation comes from outside, and [run]
    returns [context.Canceled], not nil. *)
Lemma run_clean_shutdown_returns_canceled :
  let tasks := ["certificates"; "postgresql"] in
  exists s,
    run_exec tasks (run_init tasks)
      [EvTaskReturn 0 None; EvTaskReturn 1 None;
       EvMainSelect CaseReady; EvMainSelect CaseReady; EvMainStep;
       EvCancel; EvMainStep; EvMainStep] = Some s
    /\ status s = [TaskReturned None; TaskReturned None]
    /\ main s = MainReturned (Some ContextCanceled).
Proof. eexists. vm_compute. split_and!; reflexivity. Qed.

(** C3. In every state a run can reach, with the tasks named apart:
    nothing panics and no channel is closed twice; for a task whose
    [Run] returned an error the context is canceled and its channel was
    not closed and is open, so that a [wait] standing at that task
    cannot take the ready case and takes the canceled case, returning
    the context's error; and a channel that was closed belongs to a
    task whose [Run] returned without error. *)
Theorem failed_task_never_ready (tasks : list string) (evs : list event) (s : sched) :
  NoDup tasks ->
  run_exec tasks (run_init tasks) evs = Some s ->
  panicked s = None
  /\ NoDup (closes s)
  /\ forall i t, tasks !! i = Some t ->
       (forall e, status s !! i = Some (TaskReturned (Some e)) ->
          is_Some (ctx_err s)
          /\ (t ∉ closes s)
          /\ tasksReady s !! t = Some ChanOpen
          /\ forall rest,
               wait_step (tasksReady s) (ctx_err s) CaseReady (t :: rest) = None
               /\ wait_step (tasksReady s) (ctx_err s) CaseDone (t :: rest)
                  = Some (WaitReturned (ctx_err s)))
       /\ (t ∈ closes s -> status s !! i = Some (TaskReturned None)).
Proof.
  intros Hdistinct Hexec.
  assert (tasks_inv tasks s) as (Hp & Hnd & Hcl & Hst).
  { eapply tasks_inv_exec; [done|apply tasks_inv_init|done]. }
  split_and!; try done. intros i t Hi. specialize (Hst i t Hi). split.
  - intros e He. rewrite He in Hst. destruct Hst as [Hopen [e' Hc]].
    split; [by eexists|]. split; [intros Hin%Hcl; congruence|]. split; [done|].
    intros rest. unfold wait_step. rewrite Hopen, Hc. done.
  - intros Hin%Hcl. destruct (status s !! i) as [[|[e'|]]|]; try done.
    + congruence.
    + destruct Hst. congruence.
Qed.

Lemma failed_task_never_ready_witness :
  let tasks := ["certificates"; "postgresql"; "nginx"] in
  let evs := [EvTaskReturn 0 None; EvTaskReturn 1 (Some (Errorf "initdb failed"));
              EvMainSelect CaseReady; EvTaskReturn 2 None] in
  let s := {| ctx_err := Some ContextCanceled;
              tasksReady := <["nginx" := ChanClosed]>
                              (<["certificates" := ChanClosed]> (make_tasksReady tasks));
              status := [TaskReturned None; TaskReturned (Some (Errorf "initdb failed"));
                         TaskReturned None];
              main := MainWait ["postgresql"; "nginx"];
              closes := ["certificates"; "nginx"];
              panicked := None |} in
  panicked s = None
  /\ NoDup (closes s)
  /\ forall i t, tasks !! i = Some t ->
       (forall e, status s !! i = Some (TaskReturned (Some e)) ->
          is_Some (ctx_err s)
          /\ (t ∉ closes s)
          /\ tasksReady s !! t = Some ChanOpen
          /\ forall rest,
               wait_step (tasksReady s) (ctx_err s) CaseReady (t :: rest) = None
               /\ wait_step (tasksReady s) (ctx_err s) CaseDone (t :: rest)
                  = Some (WaitReturned (ctx_err s)))
       /\ (t ∈ closes s -> status s !! i = Some (TaskReturned None)).
Proof.
  intros tasks evs s.
  apply (failed_task_never_ready tasks evs s).
  - apply (bool_decide_unpack _). vm_compute. exact I.
  - vm_compute. reflexivity.
Defined.

(** Two tasks of one name share a channel: the second [close] panics. *)
Example run_same_name_panics :
  option_map panicked
    (run_exec ["a"; "a"] (run_init ["a"; "a"]) [EvTaskReturn 0 None; EvTaskReturn 1 None])
  = Some (Some "close of closed channel").
Proof. vm_compute. reflexivity. Qed.

(** *** [wait] on a task that has no channel *)

(** C10, as the code has it. When the loop of [wait] stands at a task
    with no entry in the readiness map, the call returns the "no such
    task" error for that task at that step, whichever case its select
    would take and whatever the context: it is not blocked and waits on
    no signal for that task.  In particular a call whose first task has
    no entry returns at once, and so does a call all of whose earlier
    tasks are ready when the ready cases are taken. *)
Theorem wait_no_such_task (ready : gmap string chan) (ctxerr : option error)
    (c : select_case) (before : list string) (t : string) (rest : list string) :
  ready !! t = None ->
  wait_step ready ctxerr c (t :: rest)
  = Some (WaitReturned (Some (Errorf ("no such task: " +:+ t))))
  /\ ~ wait_blocked ready ctxerr (t :: rest)
  /\ (Forall (fun b => ready !! b = Some ChanClosed) before ->
      wait_exec ready ctxerr (replicate (length before) CaseReady ++ [c])
        (WaitAt (before ++ t :: rest))
      = Some (WaitReturned (Some (Errorf ("no such task: " +:+ t))))).
Proof.
  intros Hnone.
  assert (forall c', wait_step ready ctxerr c' (t :: rest)
          = Some (WaitReturned (Some (Errorf ("no such task: " +:+ t))))) as Hstep.
  { intros c'. unfold wait_step. by rewrite Hnone. }
  split_and!.
  - apply Hstep.
  - intros [Hb _]. by rewrite Hstep in Hb.
  - induction before as [|b before IH]; intros Hready.
    + cbn [length replicate app wait_exec]. by rewrite Hstep.
    + inversion_clear Hready as [|? ? Hb Hrest].
      cbn [length replicate app wait_exec]. cbn [wait_step]. rewrite Hb.
      by apply IH.
Qed.

Lemma wait_no_such_task_witness :
  let ready : gmap string chan := {[ "certificates" := ChanClosed ]} in
  wait_step ready None CaseReady ["nginx"; "certificates"]
  = Some (WaitReturned (Some (Errorf "no such task: nginx")))
  /\ ~ wait_blocked ready None ["nginx"; "certificates"]
  /\ (Forall (fun b => ready !! b = Some ChanClosed) ["certificates"] ->
      wait_exec ready None (replicate 1 CaseReady ++ [CaseReady])
        (WaitAt (["certificates"] ++ "nginx" :: ["certificates"]))
      = Some (WaitReturned (Some (Errorf "no such task: nginx")))).
Proof.
  intros ready.
  apply (wait_no_such_task ready None CaseReady ["certificates"] "nginx" ["certificates"]).
  vm_compute. reflexivity.
Defined.

(** C10 as stated fails: a call that names a task without entry after
    a task that is not ready yet is blocked while the context is live,
    and returns the context's error, not "no such task", once the
    context is canceled. *)
Lemma wait_missing_task_not_immediate :
  let ready : gmap string chan := {[ "certificates" := ChanOpen ]} in
  ready !! "nginx" = None
  /\ wait_blocked ready None ["certificates"; "nginx"]
  /\ wait_step ready (Some ContextCanceled) CaseReady ["certificates"; "nginx"] = None
  /\ wait_step ready (Some ContextCanceled) CaseDone ["certificates"; "nginx"]
     = Some (WaitReturned (Some ContextCanceled)).
Proof. vm_compute. split_and!; reflexivity. Qed.

(** *** The monad of autofill *)

Lemma bind_Ok {A B} (m : M A) (k : A -> M B) st b st' :
  (m ≫= k) st = Returns (Ok b, st') ->
  exists a st1, m st = Returns (Ok a, st1) /\ k a st1 = Returns (Ok b, st').
Proof.
  unfold mbind, M_bind. destruct (m st) as [[[a|e] st1]| |]; try done. eauto.
Qed.

Lemma ret_Ok {A} (a b : A) st st' :
  mret (M := M) a st = Returns (Ok b, st') -> a = b /\ st = st'.
Proof. unfold mret, M_ret. by intros [= -> ->]. Qed.

Lemma lift_Ok {A} (r : result A) (b : A) st st' :
  lift r st = Returns (Ok b, st') -> r = Ok b /\ st = st'.
Proof. unfold lift. by intros [= -> ->]. Qed.

Lemma grows_refl st : grows st st.
Proof. by split. Qed.

Lemma grows_trans st1 st2 st3 : grows st1 st2 -> grows st2 st3 -> grows st1 st3.
Proof. intros [H1 D1] [H2 D2]. split; [auto|set_solver]. Qed.

(** *** Port allocation *)

(** What a call of [nextPort] that returns has done: it took a number
    of offers of the system that were all marked used, then one that was
    not, marked that one and returned it. *)
Lemma nextPort_spec w fuel host : forall st r st',
  nextPort w fuel host st = Returns (r, st') ->
  exists p n,
    r = Ok p
    /\ default false (usedPort st !! p) = false
    /\ usedPort st' = <[p := true]> (usedPort st)
    /\ listens st' = S (listens st + n)
    /\ reads st' = reads st /\ dirs st' = dirs st
    /\ availablePort w (listens st + n) host = Ok p
    /\ forall k, (k < n)%nat ->
         exists q, availablePort w (listens st + k) host = Ok q
                   /\ default false (usedPort st !! q) = true.
Proof.
  induction fuel as [|fuel IH]; intros st r st' Hcall; [done|].
  cbn [nextPort] in Hcall.
  destruct (availablePort w (listens st) host) as [port|e] eqn:Havail; [|done].
  cbn [usedPort listens reads dirs] in Hcall.
  destruct (default false (usedPort st !! port)) eqn:Hused.
  - apply IH in Hcall as (p & n & -> & Hfresh & Hmap & Hl & Hr & Hd & Hav & Hskip).
    cbn [usedPort listens reads dirs] in *.
    exists p, (S n). split_and!; try done.
    + rewrite Hl. lia.
    + by replace (listens st + S n)%nat with (S (listens st) + n)%nat by lia.
    + intros [|k] Hk.
      * exists port. by rewrite Nat.add_0_r.
      * destruct (Hskip k ltac:(lia)) as (q & Hq & Hqu). exists q.
        by replace (listens st + S k)%nat with (S (listens st) + k)%nat by lia.
  - injection Hcall as <- <-. exists port, O. cbn. split_and!; try done.
    + by rewrite Nat.add_0_r.
    + intros k Hk. lia.
Qed.

Lemma nextPort_Ok w fuel host st p st' :
  nextPort w fuel host st = Returns (Ok p, st') ->
  default false (usedPort st !! p) = false
  /\ usedPort st' = <[p := true]> (usedPort st)
  /\ reads st' = reads st /\ dirs st' = dirs st.
Proof.
  intros (p' & n & [= <-] & ? & ? & ? & ? & ? & _)%nextPort_spec. done.
Qed.

Lemma nextPort_grows w fuel host st p st' :
  nextPort w fuel host st = Returns (Ok p, st') ->
  grows st st' /\ usedPort st' !! p = Some true /\ usedPort st !! p <> Some true.
Proof.
  intros (Hfresh & Hmap & _ & Hd)%nextPort_Ok. split_and!.
  - split; [|by rewrite Hd]. intros q Hq. rewrite Hmap.
    destruct (decide (p = q)) as [->|Hne].
    + by rewrite lookup_insert_eq.
    + by rewrite lookup_insert_ne.
  - rewrite Hmap. by rewrite lookup_insert_eq.
  - intros E. by rewrite E in Hfresh.
Qed.

(** [nextPort] returns when the system offers an unused port within
    the fuel, after offers that are all in use. *)
Lemma nextPort_returns w host p : forall n fuel st,
  (n < fuel)%nat ->
  availablePort w (listens st + n) host = Ok p ->
  default false (usedPort st !! p) = false ->
  (forall k, (k < n)%nat ->
     exists q, availablePort w (listens st + k) host = Ok q
               /\ default false (usedPort st !! q) = true) ->
  exists st', nextPort w fuel host st = Returns (Ok p, st').
Proof.
  induction n as [|n IH]; intros fuel st Hfuel Hav Hfresh Hskip;
    (destruct fuel as [|fuel]; [lia|]); cbn [nextPort].
  - rewrite Nat.add_0_r in Hav. rewrite Hav. cbn [usedPort]. rewrite Hfresh. eauto.
  - destruct (Hskip O ltac:(lia)) as (q & Hq & Hqu). rewrite Nat.add_0_r in Hq.
    rewrite Hq. cbn [usedPort]. rewrite Hqu. apply IH; cbn [usedPort listens].
    + lia.
    + by replace (S (listens st) + n)%nat with (listens st + S n)%nat by lia.
    + done.
    + intros k Hk. destruct (Hskip (S k) ltac:(lia)) as (q' & Hq' & Hqu'). exists q'.
      by replace (S (listens st) + k)%nat with (listens st + S k)%nat by lia.
Qed.

Lemma nextPorts_spec w fuel hosts : forall st ports st',
  nextPorts w fuel hosts st = Returns (Ok ports, st') ->
  NoDup ports
  /\ length ports = length hosts
  /\ grows st st'
  /\ forall p, p ∈ ports ->
       usedPort st !! p <> Some true /\ usedPort st' !! p = Some true.
Proof.
  induction hosts as [|h hosts IH]; intros st ports st' Hcall; cbn [nextPorts] in Hcall.
  - apply ret_Ok in Hcall as [<- <-]. split_and!; [constructor|done|apply grows_refl|].
    by intros p ?%elem_of_nil.
  - apply bind_Ok in Hcall as (p & st1 & Hp & Hcall).
    apply bind_Ok in Hcall as (ps & st2 & Hps & Hcall).
    apply ret_Ok in Hcall as [<- <-].
    apply nextPort_grows in Hp as (Hg1 & Hp1 & Hp0).
    apply IH in Hps as (Hnd & Hlen & Hg2 & Hin).
    split_and!.
    + constructor; [|done]. intros Hp. apply Hin in Hp as [Hp _]. done.
    + cbn. by rewrite Hlen.
    + by eapply grows_trans.
    + intros q [->|Hq]%elem_of_cons.
      * split; [done|]. by apply Hg2.
      * destruct (Hin q Hq) as [Hq1 Hq2]. split; [|done].
        intros Hq0. apply Hq1. by apply Hg1.
Qed.

(** C4. The ports that a run of [nextPort] calls returns are pairwise
    distinct: every returned port was not marked used before its call
    and is marked used from then on; a call passes over every offer of
    the system that is marked used and takes the first that is not. *)
Theorem nextPort_distinct (w : World) (fuel : nat) (hosts : list string)
    (st : wstate) (ports : list string) (st' : wstate) :
  nextPorts w fuel hosts st = Returns (Ok ports, st') ->
  NoDup ports
  /\ length ports = length hosts
  /\ (forall p, p ∈ ports ->
        usedPort st !! p <> Some true /\ usedPort st' !! p = Some true)
  /\ (forall host st1 p st2,
        nextPort w fuel host st1 = Returns (Ok p, st2) ->
        usedPort st2 = <[p := true]> (usedPort st1)
        /\ exists n,
             availablePort w (listens st1 + n) host = Ok p
             /\ default false (usedPort st1 !! p) = false
             /\ forall k, (k < n)%nat ->
                  exists q, availablePort w (listens st1 + k) host = Ok q
                            /\ default false (usedPort st1 !! q) = true).
Proof.
  intros (Hnd & Hlen & _ & Hin)%nextPorts_spec. split_and!; try done.
  intros host st1 p st2 Hcall.
  apply nextPort_spec in Hcall as (p' & n & [= <-] & ? & ? & ? & ? & ? & ? & ?).
  split; [done|]. by exists n.
Qed.

Lemma nextPort_distinct_witness :
  let w := Example.world in
  let hosts := ["localhost"; "localhost"; "localhost"] in
  let ports := ["4000"; "4001"; "4002"] in
  let st' := {| usedPort := <["4002" := true]> (<["4001" := true]> (<["4000" := true]> ∅));
                listens := 5; reads := 0; dirs := ∅ |} in
  NoDup ports
  /\ length ports = length hosts
  /\ (forall p, p ∈ ports ->
        usedPort Example.st0 !! p <> Some true /\ usedPort st' !! p = Some true)
  /\ (forall host st1 p st2,
        nextPort w 3 host st1 = Returns (Ok p, st2) ->
        usedPort st2 = <[p := true]> (usedPort st1)
        /\ exists n,
             availablePort w (listens st1 + n) host = Ok p
             /\ default false (usedPort st1 !! p) = false
             /\ forall k, (k < n)%nat ->
                  exists q, availablePort w (listens st1 + k) host = Ok q
                            /\ default false (usedPort st1 !! q) = true).
Proof.
  intros w hosts ports st'.
  apply (nextPort_distinct w 3 hosts Example.st0 ports st').
  vm_compute. reflexivity.
Defined.

(** With one iteration of fuel the second call is cut off: the system
    offers 4000 again. *)
Example nextPorts_out_of_fuel :
  nextPorts Example.world 1 ["localhost"; "localhost"] Example.st0 = Diverges.
Proof. vm_compute. reflexivity. Qed.

(** *** Secrets *)

Lemma length_append (a b : string) :
  String.length (a +:+ b) = (String.length a + String.length b)%nat.
Proof. induction a as [|c a IH]; [done|]. rewrite append_cons_l. cbn. by rewrite IH. Qed.

Lemma list_ascii_append (a b : string) :
  String.list_ascii_of_string (a +:+ b)
  = String.list_ascii_of_string a ++ String.list_ascii_of_string b.
Proof. induction a as [|c a IH]; [done|]. rewrite append_cons_l. cbn. by rewrite IH. Qed.

Lemma hex_byte_spec b : hex_string 2 (hex_byte b).
Proof. destruct b; vm_compute; done. Qed.

Lemma hex_encode_spec bs : hex_string (2 * length bs) (hex_encode bs).
Proof.
  induction bs as [|b bs [IHl IHh]]; [done|].
  destruct (hex_byte_spec b) as [Hl Hh]. cbn [hex_encode foldr]. split.
  - rewrite length_append, Hl. fold (hex_encode bs). rewrite IHl. cbn [length]. lia.
  - rewrite list_ascii_append, forallb_app, Hh. exact IHh.
Qed.

(** [randomHexString(64)] returns 64 hexadecimal digits or panics. *)
Lemma randomHexString_spec w st r st' :
  randomHexString w 64 st = Returns (r, st') ->
  exists s, r = Ok s /\ hex_string 64 s /\ rand_fault w (reads st) = None
            /\ usedPort st' = usedPort st /\ dirs st' = dirs st.
Proof.
  unfold randomHexString, rand_Read.
  destruct (rand_fault w (reads st)) as [e|]; [done|].
  intros [= <- <-]. eexists. split_and!; try done.
  pose proof (hex_encode_spec (rand_byte w (reads st) <$> seq 0 (Nat.div 64 2))) as H.
  by rewrite length_fmap, length_seq in H.
Qed.


Lemma randomHexString_grows w st s st' :
  randomHexString w 64 st = Returns (Ok s, st') -> grows st st' /\ hex_string 64 s.
Proof.
  intros (s' & [= <-] & Hh & _ & Hu & Hd)%randomHexString_spec.
  split; [|done]. split; [by rewrite Hu|by rewrite Hd].
Qed.

Ltac inv_M :=
  repeat match goal with
    | H : (_ ≫= _) _ = Returns (Ok _, _) |- _ =>
        let a := fresh "a" in let st := fresh "st" in let Ha := fresh "Ha" in
        apply bind_Ok in H as (a & st & Ha & H)
    | H : mret _ _ = Returns (Ok _, _) |- _ => apply ret_Ok in H as [? ?]; subst
    | H : lift _ _ = Returns (Ok _, _) |- _ => apply lift_Ok in H as [? ?]; subst
    end.

Section stages.

(** The world, the fuel of the port loop and the supervisor of the run. *)
Context (w : World) (fuel : nat) (super : Supervisor).

Lemma secret_filled_eq s : s <> "" -> secret_filled s s.
Proof. intros Hs. unfold secret_filled. by rewrite decide_False. Qed.

Lemma secret_filled_hex s : hex_string 64 s -> secret_filled "" s.
Proof. intros Hs. unfold secret_filled. by rewrite decide_True. Qed.

(** The pattern of lines 559-570 for one field. *)
Lemma fill_if_empty_spec (get : Cluster -> string) (set : string -> Cluster -> Cluster)
    c st c' st' :
  (if decide (get c = "")
   then s ← randomHexString w 64; mret (set s c)
   else mret c) st = Returns (Ok c', st') ->
  grows st st'
  /\ if decide (get c = "") then exists s, hex_string 64 s /\ c' = set s c else c' = c.
Proof.
  destruct (decide (get c = "")); intros H.
  - apply bind_Ok in H as (s & st1 & Hs & H). apply ret_Ok in H as [<- <-].
    apply randomHexString_grows in Hs as [? ?]. eauto.
  - apply ret_Ok in H as [<- <-]. split; [apply grows_refl|done].
Qed.

(** Lines 559-570: each empty secret is generated, the others stay. *)
Lemma autofill_secrets_spec c st c' st' :
  autofill_secrets w c st = Returns (Ok c', st') ->
  ClusterID c' = ClusterID c
  /\ ClusterServices c' = ClusterServices c
  /\ Volumes c' = Volumes c
  /\ PostgreSQL_Connection c' = PostgreSQL_Connection c
  /\ grows st st'
  /\ Forall2 secret_filled (secrets c) (secrets c').
Proof.
  unfold autofill_secrets. intros H.
  apply bind_Ok in H as (c1 & st1 & H1 & H).
  apply bind_Ok in H as (c2 & st2 & H2 & H).
  apply bind_Ok in H as (c3 & st3 & H3 & H).
  apply (fill_if_empty_spec SystemRootToken set_SystemRootToken) in H1 as [W1 F1].
  apply (fill_if_empty_spec ManagementToken set_ManagementToken) in H2 as [W2 F2].
  apply (fill_if_empty_spec API_RailsSessionSecretToken set_RailsSessionSecretToken)
    in H3 as [W3 F3].
  apply (fill_if_empty_spec Collections_BlobSigningKey set_BlobSigningKey) in H as [W4 F4].
  assert (grows st st') as Hg by eauto using grows_trans.
  destruct (decide (SystemRootToken c = "")) as [E1|E1];
    [destruct F1 as (x1 & X1 & ->)|subst c1];
    (destruct (decide (ManagementToken _ = "")) as [E2|E2];
       [destruct F2 as (x2 & X2 & ->)|subst c2]);
    (destruct (decide (API_RailsSessionSecretToken _ = "")) as [E3|E3];
       [destruct F3 as (x3 & X3 & ->)|subst c3]);
    (destruct (decide (Collections_BlobSigningKey _ = "")) as [E4|E4];
       [destruct F4 as (x4 & X4 & ->)|subst c']);
    cbn in *; (split_and!; try done);
    unfold secrets, secret_filled; cbn;
    repeat constructor; (case_decide; done).
Qed.


(** *** The stages of autofill *)


Lemma foldM_inv {A B} (R : A * wstate -> A * wstate -> Prop) (f : A -> B -> M A)
    (l : list B) :
  (forall x, R x x) ->
  (forall x y z, R x y -> R y z -> R x z) ->
  (forall a b st a' st', b ∈ l -> f a b st = Returns (Ok a', st') -> R (a, st) (a', st')) ->
  forall a st a' st',
    foldM f a l st = Returns (Ok a', st') -> R (a, st) (a', st').
Proof.
  intros Hrefl Htrans. induction l as [|b l IH]; intros Hf a st a' st' H; cbn [foldM] in H.
  - apply ret_Ok in H as [-> ->]. apply Hrefl.
  - apply bind_Ok in H as (a1 & st1 & H1 & H). eapply Htrans.
    + eapply Hf; [left|done].
    + apply IH; [|done]. intros ? ? ? ? ? Hin. apply Hf. by right.
Qed.

Lemma autofill_controller_spec c st c' st' :
  autofill_controller w fuel super c st = Returns (Ok c', st') ->
  ClusterID c' = ClusterID c
  /\ secrets c' = secrets c
  /\ grows st st'
  /\ (forall n, InternalURLs (ClusterServices c' n) = InternalURLs (ClusterServices c n))
  /\ (Host (ExternalURL (ClusterServices c Controller)) = "" ->
      Scheme (ExternalURL (ClusterServices c' Controller)) = "https").
Proof.
  unfold autofill_controller. intros H.
  destruct (decide (Host (ExternalURL (ClusterServices c Controller)) = "")) as [E|E].
  - apply bind_Ok in H as (hp & st1 & H1 & H). apply lift_Ok in H1 as [_ <-].
    apply bind_Ok in H as (p & st2 & H2 & H). apply ret_Ok in H as [<- <-].
    assert (grows st st2) as Hg.
    { destruct (decide (hp.2 = "0")).
      - by apply nextPort_grows in H2 as [? _].
      - apply ret_Ok in H2 as [_ <-]. apply grows_refl. }
    split_and!; try done; intros n; cbn; by destruct (decide (n = Controller)) as [->|].
  - apply ret_Ok in H as [<- <-]. split_and!; try done; apply grows_refl.
Qed.

(** One iteration of the loop over the services. *)
Lemma autofill_service_spec c n st c' st' :
  autofill_service w fuel super c n st = Returns (Ok c', st') ->
  ClusterID c' = ClusterID c
  /\ secrets c' = secrets c
  /\ grows st st'
  /\ (forall m, m <> n -> ClusterServices c' m = ClusterServices c m)
  /\ (n ∈ https_services ->
      Scheme (ExternalURL (ClusterServices c n)) = "https" ->
      Scheme (ExternalURL (ClusterServices c' n)) = "https")
  /\ (n <> DispatchCloud ->
      InternalURLs (ClusterServices c n) = ∅ ->
      exists p, InternalURLs (ClusterServices c' n)
                = {[ {| Scheme := "http"; Host := host_port (ListenHost super) p |} := () ]}
                /\ usedPort st' !! p = Some true).
Proof.
  unfold autofill_service. intros H.
  destruct (decide (n = DispatchCloud /\ ClusterType super = "test")) as [[-> E]|E].
  { apply ret_Ok in H as [<- <-]. split_and!; try done; apply grows_refl. }
  apply bind_Ok in H as (svc1 & st1 & H1 & H).
  apply bind_Ok in H as (svc2 & st2 & H2 & H). apply ret_Ok in H as [<- <-].
  assert (grows st st1
          /\ InternalURLs svc1 = InternalURLs (ClusterServices c n)
          /\ (n ∈ https_services ->
              Scheme (ExternalURL (ClusterServices c n)) = "https" ->
              Scheme (ExternalURL svc1) = "https")) as (Hg1 & Hi1 & Hs1).
  { destruct (decide (Host (ExternalURL (ClusterServices c n)) = "")).
    - destruct (decide (n ∈ https_services)).
      + apply bind_Ok in H1 as (p & st0 & Hp & H1). apply ret_Ok in H1 as [<- <-].
        apply nextPort_grows in Hp as [? _]. done.
      + destruct (decide (n = Websocket)).
        * apply bind_Ok in H1 as (p & st0 & Hp & H1). apply ret_Ok in H1 as [<- <-].
          apply nextPort_grows in Hp as [? _]. done.
        * apply ret_Ok in H1 as [<- <-]. split_and!; try done; apply grows_refl.
    - apply ret_Ok in H1 as [<- <-]. split_and!; try done; apply grows_refl. }
  assert (grows st1 st2
          /\ ExternalURL svc2 = ExternalURL svc1
          /\ (InternalURLs svc1 = ∅ ->
              exists p, InternalURLs svc2
                = {[ {| Scheme := "http"; Host := host_port (ListenHost super) p |} := () ]}
                /\ usedPort st2 !! p = Some true)) as (Hg2 & He2 & Hi2).
  { destruct (decide (size (InternalURLs svc1) = 0%nat)) as [Hz|Hz].
    - apply bind_Ok in H2 as (p & st0 & Hp & H2). apply ret_Ok in H2 as [<- <-].
      apply nextPort_grows in Hp as (? & ? & _). split_and!; try done.
      intros _. by exists p.
    - apply ret_Ok in H2 as [<- <-]. split_and!; try done; try apply grows_refl.
      intros Hempty. rewrite Hempty, map_size_empty in Hz. done. }
  split_and!; try done.
  - by eapply grows_trans.
  - intros m Hm. cbn. by rewrite decide_False.
  - intros Hn Hs. cbn. rewrite decide_True by done. rewrite He2. by apply Hs1.
  - intros _ Hempty. cbn. rewrite decide_True by done. apply Hi2. by rewrite Hi1.
Qed.

Lemma autofill_nonproduction_spec c st c' st' :
  autofill_nonproduction w super c st = Returns (Ok c', st') ->
  ClusterID c' = ClusterID c
  /\ secrets c' = secrets c
  /\ ClusterServices c' = ClusterServices c
  /\ st' = st.
Proof.
  unfold autofill_nonproduction. intros H.
  apply bind_Ok in H as (c1 & st1 & H1 & H).
  assert (ClusterID c1 = ClusterID c /\ secrets c1 = secrets c
          /\ ClusterServices c1 = ClusterServices c /\ st1 = st) as (? & ? & ? & ->).
  { destruct (decide (ClusterType super <> "production"
                      /\ Containers_DispatchPrivateKey c = "")).
    - apply bind_Ok in H1 as (buf & st0 & Hb & H1). apply lift_Ok in Hb as [_ <-].
      apply ret_Ok in H1 as [<- <-]. done.
    - apply ret_Ok in H1 as [<- <-]. done. }
  destruct (decide (ClusterType super <> "production"));
    apply ret_Ok in H as [<- <-]; done.
Qed.

Lemma autofill_database_spec c st c' st' :
  autofill_database w fuel super c st = Returns (Ok c', st') ->
  ClusterID c' = ClusterID c
  /\ secrets c' = secrets c
  /\ ClusterServices c' = ClusterServices c
  /\ Volumes c' = Volumes c
  /\ grows st st' /\ dirs st' = dirs st
  /\ (if OwnTemporaryDatabase super
      then PostgreSQL_Connection c' !! "dbname" = Some "arvados_test"
      else PostgreSQL_Connection c' = PostgreSQL_Connection c).
Proof.
  unfold autofill_database. intros H. destruct (OwnTemporaryDatabase super).
  - apply bind_Ok in H as (p & st1 & Hp & H). apply ret_Ok in H as [<- <-].
    pose proof (nextPort_Ok _ _ _ _ _ _ Hp) as (_ & _ & _ & Hd).
    apply nextPort_grows in Hp as [? _]. split_and!; try done.
  - apply ret_Ok in H as [<- <-]. split_and!; try done; apply grows_refl.
Qed.






(** One iteration of the loop over the keepstore URLs. *)
Lemma autofill_volume_spec c url st c' st' :
  autofill_volume w super c url st = Returns (Ok c', st') ->
  ClusterID c' = ClusterID c
  /\ secrets c' = secrets c
  /\ ClusterServices c' = ClusterServices c
  /\ PostgreSQL_Connection c' = PostgreSQL_Connection c
  /\ grows st st'
  /\ keep_datadir super (size (Volumes c)) ∈ dirs st'
  /\ Volumes c'
     = <[volume_key (ClusterID c) (size (Volumes c))
           := keep_volume w super (size (Volumes c)) url]> (Volumes c).
Proof.
  unfold autofill_volume. intros H.
  apply bind_Ok in H as (err & st1 & H1 & H).
  apply bind_Ok in H as (u & st2 & H2 & H). apply ret_Ok in H as [<- <-].
  assert (grows st st2 /\ keep_datadir super (size (Volumes c)) ∈ dirs st2) as [Hg Hd].
  { unfold Stat_dot in H1.
    destruct (stat_fault w (keep_datadir super (size (Volumes c)))) as [e|].
    - injection H1 as <- <-. destruct (IsNotExist e).
      + unfold Mkdir in H2.
        destruct (decide (keep_datadir super (size (Volumes c)) ∈ dirs st)); [done|].
        destruct (mkdir_fault w (keep_datadir super (size (Volumes c)))); [done|].
        injection H2 as _ <-. split; [split; [done|]|]; cbn; set_solver.
      + by apply lift_Ok in H2 as [? _].
    - destruct (decide (keep_datadir super (size (Volumes c)) ∈ dirs st)) as [Hin|Hin].
      + injection H1 as <- <-. apply ret_Ok in H2 as [_ <-]. split; [apply grows_refl|done].
      + injection H1 as <- <-. cbn [IsNotExist] in H2. unfold Mkdir in H2.
        rewrite decide_False in H2 by done.
        destruct (mkdir_fault w (keep_datadir super (size (Volumes c)))); [done|].
        injection H2 as _ <-. split; [split; [done|]|]; cbn; set_solver. }
  split_and!; done.
Qed.

(** The test-mode stage keeps identity and secrets of the cluster. *)
Lemma autofill_test_keeps c st c' st' :
  autofill_test w fuel super c st = Returns (Ok c', st') ->
  ClusterID c' = ClusterID c /\ secrets c' = secrets c /\ grows st st'
  /\ PostgreSQL_Connection c' = PostgreSQL_Connection c.
Proof.
  unfold autofill_test. intros H. destruct (decide (ClusterType super = "test")).
  - apply bind_Ok in H as (p & st1 & Hp & H). apply nextPort_grows in Hp as [Hg _].
    apply (foldM_inv (fun x y => ClusterID y.1 = ClusterID x.1 /\ secrets y.1 = secrets x.1
                                 /\ grows x.2 y.2
                                 /\ PostgreSQL_Connection y.1 = PostgreSQL_Connection x.1))
      in H.
    + cbn in H. destruct H as (? & ? & ? & ?). split_and!; try done; by eapply grows_trans.
    + intros x. split_and!; try done; apply grows_refl.
    + intros x y z (? & ? & ? & ?) (? & ? & ? & ?).
      split_and!; try congruence; by eapply grows_trans.
    + intros a b s a' s' _ Hv.
      apply autofill_volume_spec in Hv as (? & ? & ? & ? & ? & _). done.
  - apply ret_Ok in H as [<- <-]. split_and!; try done; apply grows_refl.
Qed.


(** The loop over the services keeps identity and secrets. *)
Lemma autofill_services_keeps l c st c' st' :
  foldM (autofill_service w fuel super) c l st = Returns (Ok c', st') ->
  ClusterID c' = ClusterID c /\ secrets c' = secrets c /\ grows st st'
  /\ (Scheme (ExternalURL (ClusterServices c Controller)) = "https" ->
      Scheme (ExternalURL (ClusterServices c' Controller)) = "https")
  /\ (Keepstore ∉ l -> ClusterServices c' Keepstore = ClusterServices c Keepstore).
Proof.
  intros H.
  apply (foldM_inv (fun x y =>
           ClusterID y.1 = ClusterID x.1 /\ secrets y.1 = secrets x.1 /\ grows x.2 y.2
           /\ (Scheme (ExternalURL (ClusterServices x.1 Controller)) = "https" ->
               Scheme (ExternalURL (ClusterServices y.1 Controller)) = "https")
           /\ (Keepstore ∉ l ->
               ClusterServices y.1 Keepstore = ClusterServices x.1 Keepstore))) in H.
  - done.
  - intros x. split_and!; try done; apply grows_refl.
  - intros x y z (? & ? & ? & ? & Hk1) (? & ? & ? & ? & Hk2).
    split_and!; try congruence; try (by eapply grows_trans); try tauto.
    intros Hk. rewrite Hk2, Hk1; done.
  - intros a n s a' s' Hin Hs.
    apply autofill_service_spec in Hs as (? & ? & ? & Hother & Hhttps & _).
    cbn. split_and!; try done.
    + destruct (decide (n = Controller)) as [->|Hn].
      * apply Hhttps. unfold https_services. by left.
      * rewrite Hother; done.
    + intros Hk. apply Hother. by intros <-.
Qed.


(** The stages of a run of autofill that returns nil. *)
Lemma autofillConfig_stages cfg st cfg' st' :
  autofillConfig w fuel super cfg st = Returns (Ok cfg', st') ->
  exists c0 c1 c2 c3 c4 c5 c6 s1 s2 s3 s4 s5,
    GetCluster w cfg = Ok c0
    /\ autofill_controller w fuel super c0
         {| usedPort := ∅; listens := listens st; reads := reads st; dirs := dirs st |}
       = Returns (Ok c1, s1)
    /\ foldM (autofill_service w fuel super) c1 autofill_services s1 = Returns (Ok c2, s2)
    /\ autofill_secrets w c2 s2 = Returns (Ok c3, s3)
    /\ autofill_nonproduction w super c3 s3 = Returns (Ok c4, s4)
    /\ autofill_test w fuel super c4 s4 = Returns (Ok c5, s5)
    /\ autofill_database w fuel super c5 s5 = Returns (Ok c6, st')
    /\ cfg' = {| Clusters := <[ClusterID c6 := c6]> (Clusters cfg) |}.
Proof.
  unfold autofillConfig. intros H.
  apply bind_Ok in H as (c0 & s0 & H0 & H). apply lift_Ok in H0 as [H0 <-].
  apply bind_Ok in H as (c1 & s1 & H1 & H).
  apply bind_Ok in H as (c2 & s2 & H2 & H).
  apply bind_Ok in H as (c3 & s3 & H3 & H).
  apply bind_Ok in H as (c4 & s4 & H4 & H).
  apply bind_Ok in H as (c5 & s5 & H5 & H).
  apply bind_Ok in H as (c6 & s6 & H6 & H). apply ret_Ok in H as [<- <-].
  exists c0, c1, c2, c3, c4, c5, c6, s1, s2, s3, s4, s5. done.
Qed.

End stages.

(** *** More on the stages of autofill *)

Section endpoints.

Context (w : World) (fuel : nat) (super : Supervisor).

Lemma autofill_controller_frame c st c' st' :
  autofill_controller w fuel super c st = Returns (Ok c', st') ->
  misc c' = misc c /\ Volumes c' = Volumes c
  /\ PostgreSQL_Connection c' = PostgreSQL_Connection c
  /\ (forall n, n <> Controller -> ClusterServices c' n = ClusterServices c n)
  /\ (Host (ExternalURL (ClusterServices c Controller)) <> "" -> c' = c).
Proof.
  unfold autofill_controller. intros H.
  destruct (decide (Host (ExternalURL (ClusterServices c Controller)) = "")) as [E|E].
  - apply bind_Ok in H as (hp & st1 & H1 & H).
    apply bind_Ok in H as (p & st2 & H2 & H). apply ret_Ok in H as [<- <-].
    split_and!; try done.
    intros n Hn. cbn. by rewrite decide_False.
  - apply ret_Ok in H as [<- <-]. done.
Qed.

Lemma autofill_service_frame c n st c' st' :
  autofill_service w fuel super c n st = Returns (Ok c', st') ->
  misc c' = misc c /\ Volumes c' = Volumes c
  /\ PostgreSQL_Connection c' = PostgreSQL_Connection c
  /\ (Host (ExternalURL (ClusterServices c n)) <> "" ->
      ExternalURL (ClusterServices c' n) = ExternalURL (ClusterServices c n))
  /\ (InternalURLs (ClusterServices c n) <> ∅ ->
      InternalURLs (ClusterServices c' n) = InternalURLs (ClusterServices c n))
  /\ (visited super n -> InternalURLs (ClusterServices c' n) <> ∅).
Proof.
  unfold autofill_service, visited. intros H.
  destruct (decide (n = DispatchCloud /\ ClusterType super = "test")) as [E|E].
  { apply ret_Ok in H as [<- <-]. done. }
  apply bind_Ok in H as (svc1 & st1 & H1 & H).
  apply bind_Ok in H as (svc2 & st2 & H2 & H). apply ret_Ok in H as [<- <-].
  assert (InternalURLs svc1 = InternalURLs (ClusterServices c n)
          /\ (Host (ExternalURL (ClusterServices c n)) <> "" ->
              ExternalURL svc1 = ExternalURL (ClusterServices c n))) as [Hi1 He1].
  { destruct (decide (Host (ExternalURL (ClusterServices c n)) = "")).
    - destruct (decide (n ∈ https_services)).
      + apply bind_Ok in H1 as (p & st0 & Hp & H1). apply ret_Ok in H1 as [<- <-]. done.
      + destruct (decide (n = Websocket)).
        * apply bind_Ok in H1 as (p & st0 & Hp & H1). apply ret_Ok in H1 as [<- <-]. done.
        * apply ret_Ok in H1 as [<- <-]. done.
    - apply ret_Ok in H1 as [<- <-]. done. }
  assert (ExternalURL svc2 = ExternalURL svc1
          /\ (InternalURLs svc1 <> ∅ -> InternalURLs svc2 = InternalURLs svc1)
          /\ InternalURLs svc2 <> ∅) as (He2 & Hi2 & Hne2).
  { destruct (decide (size (InternalURLs svc1) = 0%nat)) as [Hz|Hz].
    - apply bind_Ok in H2 as (p & st0 & Hp & H2). apply ret_Ok in H2 as [<- <-].
      split_and!; [done| |].
      + intros Hne. by apply map_size_empty_iff in Hz.
      + cbn. apply insert_non_empty.
    - apply ret_Ok in H2 as [<- <-]. split_and!; [done..|].
      intros Hempty. by rewrite Hempty, map_size_empty in Hz. }
  split_and!; try done; cbn; rewrite decide_True by done.
  - intros Hh. rewrite He2. by apply He1.
  - intros Hne. rewrite Hi2; [done|]. by rewrite Hi1.
  - done.
Qed.

(** What the whole loop does to one service [n]. *)
Lemma autofill_services_frame l : forall c st c' st' n,
  foldM (autofill_service w fuel super) c l st = Returns (Ok c', st') ->
  misc c' = misc c /\ Volumes c' = Volumes c
  /\ PostgreSQL_Connection c' = PostgreSQL_Connection c
  /\ (Host (ExternalURL (ClusterServices c n)) <> "" ->
      ExternalURL (ClusterServices c' n) = ExternalURL (ClusterServices c n))
  /\ (InternalURLs (ClusterServices c n) <> ∅ ->
      InternalURLs (ClusterServices c' n) = InternalURLs (ClusterServices c n))
  /\ (n ∈ l -> visited super n -> InternalURLs (ClusterServices c' n) <> ∅).
Proof.
  induction l as [|m l IH]; intros c st c' st' n H; cbn [foldM] in H.
  - apply ret_Ok in H as [<- <-]. split_and!; try done. by intros ?%elem_of_nil.
  - apply bind_Ok in H as (c1 & st1 & H1 & H).
    pose proof (autofill_service_spec _ _ _ _ _ _ _ _ H1) as (_ & _ & _ & Hother & _).
    apply autofill_service_frame in H1 as (M1 & V1 & P1 & E1 & I1 & N1).
    apply (IH _ _ _ _ n) in H as (M2 & V2 & P2 & E2 & I2 & N2).
    assert (Host (ExternalURL (ClusterServices c n)) <> "" ->
            ExternalURL (ClusterServices c1 n) = ExternalURL (ClusterServices c n)) as E1'.
    { destruct (decide (n = m)) as [->|Hne]; [done|]. intros _. by rewrite Hother. }
    assert (InternalURLs (ClusterServices c n) <> ∅ ->
            InternalURLs (ClusterServices c1 n) = InternalURLs (ClusterServices c n)) as I1'.
    { destruct (decide (n = m)) as [->|Hne]; [done|]. intros _. by rewrite Hother. }
    split_and!; try congruence.
    + intros Hh. rewrite E2; [by apply E1'|]. by rewrite E1'.
    + intros Hi. rewrite I2; [by apply I1'|]. by rewrite I1'.
    + intros [->|Hin]%elem_of_cons Hvis; [|by apply N2].
      rewrite I2; by apply N1.
Qed.

(** The test-mode stage, on any cluster: one more keepstore URL. *)
Lemma autofill_test_frame c st c' st' :
  autofill_test w fuel super c st = Returns (Ok c', st') ->
  misc c' = misc c
  /\ (forall n, ExternalURL (ClusterServices c' n) = ExternalURL (ClusterServices c n))
  /\ (forall n, n <> Keepstore -> ClusterServices c' n = ClusterServices c n)
  /\ if decide (ClusterType super = "test")
     then exists p, InternalURLs (ClusterServices c' Keepstore)
                    = <[http_url super p := ()]> (InternalURLs (ClusterServices c Keepstore))
     else c' = c.
Proof.
  unfold autofill_test. intros H. destruct (decide (ClusterType super = "test")).
  - apply bind_Ok in H as (p & st1 & Hp & H).
    apply (foldM_inv (fun x y => misc y.1 = misc x.1
                                 /\ ClusterServices y.1 = ClusterServices x.1)) in H.
    + cbn [fst] in H. destruct H as [Hm Hs]. split_and!; try done.
      * intros n. rewrite Hs. cbn. by destruct (decide (n = Keepstore)) as [->|].
      * intros n Hn. rewrite Hs. cbn. by rewrite decide_False.
      * exists p. rewrite Hs. cbn. by rewrite decide_True.
    + done.
    + intros x y z [? ?] [? ?]. split; congruence.
    + intros a b s a' s' _ Hv. unfold autofill_volume in Hv.
      apply bind_Ok in Hv as (err & s1 & _ & Hv).
      apply bind_Ok in Hv as (u & s2 & _ & Hv). apply ret_Ok in Hv as [<- <-]. done.
  - apply ret_Ok in H as [<- <-]. done.
Qed.

Lemma autofill_secrets_frame c st c' st' :
  autofill_secrets w c st = Returns (Ok c', st') -> misc c' = misc c.
Proof.
  unfold autofill_secrets. intros H.
  apply bind_Ok in H as (c1 & st1 & H1 & H).
  apply bind_Ok in H as (c2 & st2 & H2 & H).
  apply bind_Ok in H as (c3 & st3 & H3 & H).
  apply (fill_if_empty_spec w SystemRootToken set_SystemRootToken) in H1 as [_ F1].
  apply (fill_if_empty_spec w ManagementToken set_ManagementToken) in H2 as [_ F2].
  apply (fill_if_empty_spec w API_RailsSessionSecretToken set_RailsSessionSecretToken)
    in H3 as [_ F3].
  apply (fill_if_empty_spec w Collections_BlobSigningKey set_BlobSigningKey) in H as [_ F4].
  repeat case_decide;
    repeat match goal with
      | F : exists _, _ |- _ => destruct F as (? & _ & ->)
      end; subst; done.
Qed.

(** Lines 571-580: outside production the TLS checks are relaxed and
    an empty dispatch key is read from the source tree. *)
Lemma autofill_nonproduction_frame c st c' st' :
  autofill_nonproduction w super c st = Returns (Ok c', st') ->
  Volumes c' = Volumes c
  /\ PostgreSQL_Connection c' = PostgreSQL_Connection c
  /\ if decide (ClusterType super = "production")
     then misc c' = misc c
     else TLS_Insecure c' = true
          /\ if decide (Containers_DispatchPrivateKey c = "")
             then ReadFile w (filepath_Join w [SourcePath super; "lib"; "dispatchcloud";
                                               "test"; "sshkey_dispatch"])
                  = Ok (Containers_DispatchPrivateKey c')
             else Containers_DispatchPrivateKey c' = Containers_DispatchPrivateKey c.
Proof.
  unfold autofill_nonproduction. intros H.
  apply bind_Ok in H as (c1 & st1 & H1 & H).
  destruct (decide (ClusterType super = "production")) as [Hprod|Hprod].
  - rewrite decide_False in H1 by tauto. rewrite decide_False in H by tauto.
    apply ret_Ok in H1 as [<- <-]. apply ret_Ok in H as [<- <-]. done.
  - rewrite decide_True in H by done. apply ret_Ok in H as [<- <-].
    destruct (decide (Containers_DispatchPrivateKey c = "")) as [Hk|Hk].
    + rewrite decide_True in H1 by done.
      apply bind_Ok in H1 as (buf & st0 & Hb & H1). apply lift_Ok in Hb as [Hb <-].
      apply ret_Ok in H1 as [<- <-]. done.
    + rewrite decide_False in H1 by tauto. apply ret_Ok in H1 as [<- <-]. done.
Qed.

Lemma autofill_database_frame c st c' st' :
  autofill_database w fuel super c st = Returns (Ok c', st') -> misc c' = misc c.
Proof.
  unfold autofill_database. intros H. destruct (OwnTemporaryDatabase super).
  - apply bind_Ok in H as (p & st1 & Hp & H). apply ret_Ok in H as [<- <-]. done.
  - apply ret_Ok in H as [<- <-]. done.
Qed.

End endpoints.

(** *** Claims about autofill *)



(** The secrets of the example run: generated where empty. *)
Example autofill_secrets_example :
  match autofillConfig Example.world 5 (Example.super "test" true)
          {| Clusters := {[ "zzzzz" := set_ManagementToken "preset" Example.empty_cluster ]} |}
          Example.st0 with
  | Returns (Ok cfg', _) => secrets <$> Clusters cfg' !! "zzzzz"
  | _ => None
  end
  = Some ["000b16212c37424d58636e79848f9aa5b0bbc6d1dce7f2fd08131e29343f4a55";
          "preset";
          "25303b46515c67727d88939ea9b4bfcad5e0ebf6010c17222d38434e59646f7a";
          "4a55606b76818c97a2adb8c3ced9e4effa05101b26313c47525d68737e89949f"].
Proof. vm_compute. reflexivity. Qed.

Example autofill_norand_panics :
  (autofillConfig Example.world_norand 5 (Example.super "test" true)
     Example.cfg_zzzzz Example.st0)
  = Panics "crypto/rand: unavailable".
Proof. vm_compute. reflexivity. Qed.




(** A data directory that exists already is accepted. *)
Example autofill_existing_directory :
  match autofillConfig Example.world 5 (Example.super "test" true) Example.cfg_zzzzz
          {| usedPort := ∅; listens := 0; reads := 0;
             dirs := {[ "/tmp/arvados-server-boot-1/keep0.data" ]} |} with
  | Returns (Ok cfg', st') =>
      Some (size <$> (Volumes <$> Clusters cfg' !! "zzzzz"), elements (dirs st'))
  | _ => None
  end
  = Some (Some 2%nat, ["/tmp/arvados-server-boot-1/keep1.data";
                       "/tmp/arvados-server-boot-1/keep0.data"]).
Proof. vm_compute. reflexivity. Qed.

(** * The rest of the supervisor *)

(** *** Strings *)

Lemma append_assoc (a b c : string) : (a +:+ b) +:+ c = a +:+ (b +:+ c).
Proof. induction a as [|x a IH]; [done|]. rewrite !append_cons_l. by rewrite IH. Qed.

Lemma append_nil_r (a : string) : a +:+ "" = a.
Proof. induction a as [|x a IH]; [done|]. rewrite append_cons_l. by rewrite IH. Qed.

Lemma HasPrefix_app (p s : string) : HasPrefix (p +:+ s) p = true.
Proof.
  unfold HasPrefix. induction p as [|x p IH]; [by destruct s|].
  rewrite append_cons_l. cbn. by destruct (ascii_dec x x).
Qed.

Lemma HasPrefix_inv (s p : string) : HasPrefix s p = true -> exists r, s = p +:+ r.
Proof.
  unfold HasPrefix. revert s. induction p as [|x p IH]; intros s H.
  - by exists s.
  - destruct s as [|y s]; [done|]. cbn in H.
    destruct (ascii_dec x y) as [->|]; [|done].
    destruct (IH s H) as [r ->]. by exists r.
Qed.

Lemma substring_whole (s : string) : String.substring 0 (String.length s) s = s.
Proof. induction s as [|x s IH]; [done|]. cbn. by rewrite IH. Qed.

Lemma substring_skip (a b : string) m :
  String.substring (String.length a) m (a +:+ b) = String.substring 0 m b.
Proof. induction a as [|x a IH]; [done|]. rewrite append_cons_l. cbn. exact IH. Qed.

Lemma slice_from_app (a b : string) : slice_from (a +:+ b) (String.length a) = b.
Proof.
  unfold slice_from. rewrite substring_skip, length_append.
  replace (String.length a + String.length b - String.length a)%nat
    with (String.length b) by lia.
  apply substring_whole.
Qed.

Lemma substring_take (a b : string) :
  String.substring 0 (String.length a) (a +:+ b) = a.
Proof. induction a as [|x a IH]; [by destruct b|]. rewrite append_cons_l. cbn. by rewrite IH. Qed.

Lemma has_sep_cons c k : has_sep k -> has_sep (String c k).
Proof. intros (a & b & ->). by exists (String c a), b. Qed.

Lemma Index_sep_app key rest :
  ~ has_sep key ->
  strings.Index (key +:+ "=" +:+ rest) "=" = Z.of_nat (String.length key).
Proof.
  induction key as [|c key IH]; intros Hk.
  - rewrite append_nil_l, append_cons_l, Index_sep_cons. by rewrite decide_True.
  - rewrite append_cons_l, Index_sep_cons.
    assert (c <> "="%char) as Hc.
    { intros ->. apply Hk. by exists "", key. }
    rewrite decide_False by done.
    rewrite IH by (intros Hs; by apply Hk, has_sep_cons).
    rewrite decide_False by lia. cbn [String.length]. lia.
Qed.

Lemma env_key_app key rest : ~ has_sep key -> env_key (key +:+ "=" +:+ rest) = key.
Proof.
  intros Hk. unfold env_key, slice_to. rewrite Index_sep_app by done.
  rewrite Nat2Z.id. apply substring_take.
Qed.

Lemma env_valid_app key rest : key_ok key -> env_valid (key +:+ "=" +:+ rest).
Proof.
  intros [Hne Hk]. unfold env_valid. rewrite Index_sep_app by done.
  destruct key; [done|]. cbn [String.length]. lia.
Qed.

(** An entry with a separator is its key, the separator, and a value. *)
Lemma env_split s :
  0 <= strings.Index s "=" -> exists rest, s = env_key s +:+ "=" +:+ rest.
Proof.
  unfold env_key, slice_to. induction s as [|c s IH]; [done|].
  rewrite Index_sep_cons. destruct (decide (c = "="%char)) as [->|Hc].
  - intros _. by exists s.
  - pose proof (Index_sep_ge s).
    destruct (decide (strings.Index s "=" = -1)) as [E|E]; [lia|]. intros _.
    destruct IH as [rest Hrest]; [lia|]. exists rest.
    replace (Z.to_nat (strings.Index s "=" + 1))
      with (S (Z.to_nat (strings.Index s "="))) by lia.
    cbn [String.substring]. rewrite append_cons_l. by rewrite <- Hrest.
Qed.

(** For a proper key, the test of [setEnv] and [prependEnv] picks
    the entries that [dedupEnv] files under that key. *)
Lemma HasPrefix_key key s :
  key_ok key ->
  HasPrefix s (key +:+ "=") = true <-> env_valid s /\ env_key s = key.
Proof.
  intros Hk. split.
  - intros [r ->]%HasPrefix_inv. rewrite append_assoc. split.
    + by apply env_valid_app.
    + apply env_key_app, Hk.
  - intros [Hv <-]. unfold env_valid in Hv.
    destruct (env_split s) as [rest Hrest]; [lia|].
    rewrite Hrest at 1. rewrite <- append_assoc. apply HasPrefix_app.
Qed.

Lemma HasPrefix_key_false key s :
  key_ok key -> env_valid s ->
  HasPrefix s (key +:+ "=") = false <-> env_key s <> key.
Proof.
  intros Hk Hv. pose proof (HasPrefix_key key s Hk) as H.
  destruct (HasPrefix s (key +:+ "=")); split.
  - discriminate.
  - intros Hne. destruct H as [H _]. destruct (H eq_refl) as [_ E]. contradiction.
  - intros _ E. destruct H as [_ H]. specialize (H (conj Hv E)). discriminate.
  - reflexivity.
Qed.

(** *** [setEnv], [prependEnv], [cleanEnv] *)

Lemma setEnv_valid key val env :
  key_ok key -> Forall env_valid env -> Forall env_valid (setEnv key val env).
Proof.
  intros Hk. induction 1 as [|s env Hs Hv IH]; cbn [setEnv].
  - constructor; [by apply env_valid_app|done].
  - destruct (HasPrefix s (key +:+ "=")); constructor; try done. by apply env_valid_app.
Qed.

Lemma setEnv_head_key key val env :
  key_ok key -> Forall env_valid env ->
  head (filter (fun kv => env_key kv = key) (setEnv key val env))
  = Some (key +:+ "=" +:+ val).
Proof.
  intros Hk. induction 1 as [|s env Hs Hv IH]; cbn [setEnv].
  - rewrite filter_cons_True; [done|]. apply env_key_app, Hk.
  - destruct (HasPrefix s (key +:+ "=")) eqn:Hp.
    + rewrite filter_cons_True; [done|]. apply env_key_app, Hk.
    + rewrite filter_cons_False; [done|]. by apply HasPrefix_key_false in Hp.
Qed.

Lemma setEnv_other key val env k :
  key_ok key -> Forall env_valid env -> k <> key ->
  filter (fun kv => env_key kv = k) (setEnv key val env)
  = filter (fun kv => env_key kv = k) env.
Proof.
  intros Hk Hv Hne.
  assert (env_key (key +:+ "=" +:+ val) <> k) as Hnew.
  { rewrite env_key_app; [done|apply Hk]. }
  induction Hv as [|s env Hs Hv IH]; cbn [setEnv].
  - by rewrite filter_cons_False.
  - destruct (HasPrefix s (key +:+ "=")) eqn:Hp.
    + apply HasPrefix_key in Hp as [_ Hp]; [|done].
      rewrite !filter_cons_False; [done|congruence|done].
    + destruct (decide (env_key s = k)).
      * rewrite !filter_cons_True by done. by rewrite IH.
      * rewrite !filter_cons_False by done. done.
Qed.

Lemma setEnv_again key v1 v2 env :
  setEnv key v2 (setEnv key v1 env) = setEnv key v2 env.
Proof.
  induction env as [|s env IH]; cbn [setEnv].
  - rewrite <- append_assoc, HasPrefix_app. done.
  - destruct (HasPrefix s (key +:+ "=")) eqn:Hp; cbn [setEnv].
    + rewrite <- append_assoc, HasPrefix_app. done.
    + by rewrite Hp, IH.
Qed.

Lemma setEnv_length key val env :
  length (setEnv key val env)
  = if existsb (fun s => HasPrefix s (key +:+ "=")) env
    then length env else S (length env).
Proof.
  induction env as [|s env IH]; [done|]. cbn [setEnv existsb].
  destruct (HasPrefix s (key +:+ "=")); [done|]. cbn. rewrite IH.
  by destruct (existsb _ env).
Qed.

Lemma cleanEnv_elem prefixes env s :
  s ∈ cleanEnv prefixes env
  <-> s ∈ env /\ forall p, p ∈ prefixes -> HasPrefix s p = false.
Proof.
  assert (existsb (HasPrefix s) prefixes = false
          <-> forall p, p ∈ prefixes -> HasPrefix s p = false) as Hex.
  { split.
    - intros Hn p Hp. destruct (HasPrefix s p) eqn:Hsp; [|done].
      assert (existsb (HasPrefix s) prefixes = true); [|congruence].
      apply existsb_exists. exists p. split; [by apply list_elem_of_In|done].
    - intros Hall. destruct (existsb (HasPrefix s) prefixes) eqn:Hx; [|done].
      apply existsb_exists in Hx as (p & Hpin & Hpx).
      rewrite Hall in Hpx; [done|]. by apply list_elem_of_In. }
  rewrite <- Hex. clear Hex.
  induction env as [|x env IH]; cbn [cleanEnv].
  - split; [by intros ?%elem_of_nil|]. by intros [?%elem_of_nil _].
  - destruct (existsb (HasPrefix x) prefixes) eqn:Hx.
    + rewrite IH, elem_of_cons. split; [tauto|].
      intros [[E|Hin] Hp]; [subst x; congruence|done].
    + rewrite !elem_of_cons, IH. split; [|tauto].
      intros [E|[Hin Hp]]; [subst x|]; tauto.
Qed.

Lemma cleanEnv_sublist prefixes env : sublist (cleanEnv prefixes env) env.
Proof.
  induction env as [|x env IH]; cbn [cleanEnv]; [done|].
  destruct (existsb (HasPrefix x) prefixes).
  - by apply sublist_cons.
  - by apply sublist_skip.
Qed.

Lemma cleanEnv_fixed prefixes env :
  Forall (fun s => existsb (HasPrefix s) prefixes = false) env ->
  cleanEnv prefixes env = env.
Proof.
  induction 1 as [|x env Hx _ IH]; [done|]. cbn [cleanEnv]. by rewrite Hx, IH.
Qed.

Lemma cleanEnv_clean prefixes env :
  Forall (fun s => existsb (HasPrefix s) prefixes = false) (cleanEnv prefixes env).
Proof.
  induction env as [|x env IH]; cbn [cleanEnv]; [done|].
  destruct (existsb (HasPrefix x) prefixes) eqn:Hx; [done|]. by constructor.
Qed.


Lemma prependEnv_again key p1 p2 env :
  prependEnv key p2 (prependEnv key p1 env) = prependEnv key (p2 +:+ p1) env.
Proof.
  assert (forall r, slice_from (key +:+ "=" +:+ r) (String.length key + 1) = r) as Hslice.
  { intros r. rewrite <- append_assoc.
    replace (String.length key + 1)%nat with (String.length (key +:+ "="))
      by (rewrite length_append; done).
    apply slice_from_app. }
  assert (forall r, HasPrefix (key +:+ "=" +:+ r) (key +:+ "=") = true) as Hpre.
  { intros r. rewrite <- append_assoc. apply HasPrefix_app. }
  induction env as [|s env IH]; cbn [prependEnv].
  - by rewrite Hpre, Hslice.
  - destruct (HasPrefix s (key +:+ "=")) eqn:Hp; cbn [prependEnv].
    + by rewrite Hpre, Hslice, append_assoc.
    + by rewrite Hp, IH.
Qed.

Lemma prependEnv_valid key prepend env :
  key_ok key -> Forall env_valid env -> Forall env_valid (prependEnv key prepend env).
Proof.
  intros Hk. induction 1 as [|s env Hs Hv IH]; cbn [prependEnv].
  - constructor; [by apply env_valid_app|done].
  - destruct (HasPrefix s (key +:+ "=")); constructor; try done. by apply env_valid_app.
Qed.

Lemma prependEnv_other key prepend env k :
  key_ok key -> Forall env_valid env -> k <> key ->
  filter (fun kv => env_key kv = k) (prependEnv key prepend env)
  = filter (fun kv => env_key kv = k) env.
Proof.
  intros Hk Hv Hne.
  assert (forall r, env_key (key +:+ "=" +:+ r) <> k) as Hnew.
  { intros r. rewrite env_key_app; [done|apply Hk]. }
  induction Hv as [|s env Hs Hv IH]; cbn [prependEnv].
  - by rewrite filter_cons_False.
  - destruct (HasPrefix s (key +:+ "=")) eqn:Hp.
    + apply HasPrefix_key in Hp as [_ Hp]; [|done].
      rewrite !filter_cons_False; [done|congruence|done].
    + destruct (decide (env_key s = k)).
      * rewrite !filter_cons_True by done. by rewrite IH.
      * rewrite !filter_cons_False by done. done.
Qed.

(** The first entry under [key] after [prependEnv]: the prepended
    text before the old value, or alone when there was none. *)
Lemma prependEnv_head_key key prepend env :
  key_ok key -> Forall env_valid env ->
  exists old,
    head (filter (fun kv => env_key kv = key) (prependEnv key prepend env))
    = Some (key +:+ "=" +:+ prepend +:+ old)
    /\ match head (filter (fun kv => env_key kv = key) env) with
       | Some s => s = key +:+ "=" +:+ old
       | None => old = ""
       end.
Proof.
  intros Hk. induction 1 as [|s env Hs Hv IH]; cbn [prependEnv].
  - exists "". rewrite append_nil_r. split; [|done].
    rewrite filter_cons_True; [done|]. apply env_key_app, Hk.
  - destruct (HasPrefix s (key +:+ "=")) eqn:Hp.
    + pose proof Hp as [r ->]%HasPrefix_inv.
      apply HasPrefix_key in Hp as [_ Hp]; [|done].
      exists r. rewrite filter_cons_True by (apply env_key_app, Hk).
      rewrite (filter_cons_True _ _ env) by done. cbn [head]. split; [|apply append_assoc].
      replace (String.length key + 1)%nat with (String.length (key +:+ "="))
        by (rewrite length_append; done).
      by rewrite slice_from_app.
    + apply HasPrefix_key_false in Hp; [|done..].
      destruct IH as (old & H1 & H2). exists old.
      by rewrite !filter_cons_False.
Qed.

Lemma setEnv_fresh key val env :
  Forall (fun s => HasPrefix s (key +:+ "=") = false) env ->
  setEnv key val env = env ++ [key +:+ "=" +:+ val].
Proof. induction 1 as [|s env Hs _ IH]; [done|]. cbn [setEnv]. by rewrite Hs, IH. Qed.

Lemma filter_setEnv_keep (Q : string -> Prop) `{!forall s, Decision (Q s)} key val env :
  (forall s, HasPrefix s (key +:+ "=") = true -> ~ Q s) ->
  filter Q (setEnv key val env) = filter Q env.
Proof.
  intros HQ.
  assert (~ Q (key +:+ "=" +:+ val)) as Hnew.
  { apply HQ. rewrite <- append_assoc. apply HasPrefix_app. }
  induction env as [|s env IH]; cbn [setEnv].
  - by rewrite filter_cons_False.
  - destruct (HasPrefix s (key +:+ "=")) eqn:Hp.
    + rewrite !filter_cons_False; [done|by apply HQ|done].
    + destruct (decide (Q s)).
      * rewrite !filter_cons_True by done. by rewrite IH.
      * rewrite !filter_cons_False by done. done.
Qed.

Lemma filter_prependEnv_keep (Q : string -> Prop) `{!forall s, Decision (Q s)}
    key prepend env :
  (forall s, HasPrefix s (key +:+ "=") = true -> ~ Q s) ->
  filter Q (prependEnv key prepend env) = filter Q env.
Proof.
  intros HQ.
  assert (forall r, ~ Q (key +:+ "=" +:+ r)) as Hnew.
  { intros r. apply HQ. rewrite <- append_assoc. apply HasPrefix_app. }
  induction env as [|s env IH]; cbn [prependEnv].
  - by rewrite filter_cons_False.
  - destruct (HasPrefix s (key +:+ "=")) eqn:Hp.
    + rewrite !filter_cons_False; [done|by apply HQ|done].
    + destruct (decide (Q s)).
      * rewrite !filter_cons_True by done. by rewrite IH.
      * rewrite !filter_cons_False by done. done.
Qed.

(** Evaluate [HasPrefix] on a string that starts with known bytes. *)
Ltac head_bytes :=
  unfold HasPrefix; repeat (rewrite append_cons_l || rewrite append_nil_l);
  cbn; try done.

Lemma not_has_sep_by_Index key : strings.Index key "=" = -1 -> ~ has_sep key.
Proof. apply Index_sep_none. Qed.

(** X1. After [setEnv key val], with a proper key on accepted entries,
    the child gets exactly [key=val] for that key, and for every other
    key what it would have got before. *)
Theorem setEnv_child_sees (key val : string) (env : list string) :
  key_ok key ->
  Forall env_valid env ->
  exists out out0,
    dedupEnv (setEnv key val env) = Returns out
    /\ dedupEnv env = Returns out0
    /\ filter (fun kv => env_key kv = key) out = [key +:+ "=" +:+ val]
    /\ forall k, k <> key ->
         filter (fun kv => env_key kv = k) out = filter (fun kv => env_key kv = k) out0.
Proof.
  intros Hk Hv.
  destruct (dedupEnv_accepted (setEnv key val env)) as (out & Hout & Hkeys).
  { by apply setEnv_valid. }
  destruct (dedupEnv_accepted env Hv) as (out0 & Hout0 & Hkeys0).
  exists out, out0. split_and!; [done|done| |].
  - by rewrite Hkeys, setEnv_head_key.
  - intros k Hne. by rewrite Hkeys, Hkeys0, setEnv_other.
Qed.

Lemma setEnv_child_sees_witness :
  let env := ["PATH=/usr/bin"; "HOME=/root"; "HOME=/old"] in
  exists out out0,
    dedupEnv (setEnv "HOME" "/var/lib/arvados" env) = Returns out
    /\ dedupEnv env = Returns out0
    /\ filter (fun kv => env_key kv = "HOME") out = ["HOME" +:+ "=" +:+ "/var/lib/arvados"]
    /\ forall k, k <> "HOME" ->
         filter (fun kv => env_key kv = k) out = filter (fun kv => env_key kv = k) out0.
Proof.
  intros env. apply (setEnv_child_sees "HOME" "/var/lib/arvados" env).
  - split; [discriminate|]. apply not_has_sep_by_Index. vm_compute. reflexivity.
  - repeat constructor; vm_compute; discriminate.
Defined.

(** X2. A second [setEnv] of the same key overwrites the first and
    does not lengthen the list: the last value set is the one kept. *)
Theorem setEnv_overwrites (key v1 v2 : string) (env : list string) :
  setEnv key v2 (setEnv key v1 env) = setEnv key v2 env
  /\ length (setEnv key v2 (setEnv key v1 env)) = length (setEnv key v1 env).
Proof.
  split; [apply setEnv_again|].
  rewrite (setEnv_length key v2 (setEnv key v1 env)).
  assert (existsb (fun s => HasPrefix s (key +:+ "=")) (setEnv key v1 env) = true) as ->; [|done].
  induction env as [|s env IH]; cbn [setEnv existsb].
  - rewrite <- append_assoc, HasPrefix_app. done.
  - destruct (HasPrefix s (key +:+ "=")) eqn:Hp; cbn [existsb].
    + rewrite <- append_assoc, HasPrefix_app. done.
    + by rewrite Hp, IH.
Qed.

(** X3. [cleanEnv] keeps, in order, exactly the entries that start
    with none of the prefixes, and cleaning a cleaned list changes
    nothing. *)
Theorem cleanEnv_spec (prefixes env : list string) :
  (forall s, s ∈ cleanEnv prefixes env
             <-> s ∈ env /\ forall p, p ∈ prefixes -> HasPrefix s p = false)
  /\ sublist (cleanEnv prefixes env) env
  /\ cleanEnv prefixes (cleanEnv prefixes env) = cleanEnv prefixes env.
Proof.
  split_and!.
  - intros s. apply cleanEnv_elem.
  - apply cleanEnv_sublist.
  - apply cleanEnv_fixed, cleanEnv_clean.
Qed.

(** X4. [prependEnv key p] puts [p] in front of the value the child
    gets for a proper [key] (the empty value when the key was not set),
    leaves every other key alone, and two prepends add up. *)
Theorem prependEnv_child_sees (key p : string) (env : list string) :
  key_ok key ->
  Forall env_valid env ->
  exists out old,
    dedupEnv (prependEnv key p env) = Returns out
    /\ filter (fun kv => env_key kv = key) out = [key +:+ "=" +:+ p +:+ old]
    /\ match head (filter (fun kv => env_key kv = key) env) with
       | Some s => s = key +:+ "=" +:+ old
       | None => old = ""
       end
    /\ (forall k, k <> key ->
          filter (fun kv => env_key kv = k) out
          = option_list (head (filter (fun kv => env_key kv = k) env)))
    /\ forall p', prependEnv key p' (prependEnv key p env) = prependEnv key (p' +:+ p) env.
Proof.
  intros Hk Hv.
  destruct (dedupEnv_accepted (prependEnv key p env)) as (out & Hout & Hkeys).
  { by apply prependEnv_valid. }
  destruct (prependEnv_head_key key p env Hk Hv) as (old & Hhead & Hold).
  exists out, old. split_and!; [done| |done| |].
  - by rewrite Hkeys, Hhead.
  - intros k Hne. by rewrite Hkeys, prependEnv_other.
  - intros p'. apply prependEnv_again.
Qed.

Lemma prependEnv_child_sees_witness :
  let env := ["HOME=/root"; "PATH=/usr/bin"] in
  exists out old,
    dedupEnv (prependEnv "PATH" "/tmp/bin:" env) = Returns out
    /\ filter (fun kv => env_key kv = "PATH") out = ["PATH" +:+ "=" +:+ "/tmp/bin:" +:+ old]
    /\ match head (filter (fun kv => env_key kv = "PATH") env) with
       | Some s => s = "PATH" +:+ "=" +:+ old
       | None => old = ""
       end
    /\ (forall k, k <> "PATH" ->
          filter (fun kv => env_key kv = k) out
          = option_list (head (filter (fun kv => env_key kv = k) env)))
    /\ forall p', prependEnv "PATH" p' (prependEnv "PATH" "/tmp/bin:" env)
                  = prependEnv "PATH" (p' +:+ "/tmp/bin:") env.
Proof.
  intros env. apply (prependEnv_child_sees "PATH" "/tmp/bin:" env).
  - split; [discriminate|]. apply not_has_sep_by_Index. vm_compute. reflexivity.
  - repeat constructor; vm_compute; discriminate.
Defined.

Example prependEnv_example :
  prependEnv "PATH" "/tmp/bin:" ["HOME=/root"; "PATH=/usr/bin"; "PATH=/x"]
  = ["HOME=/root"; "PATH=/tmp/bin:/usr/bin"; "PATH=/x"].
Proof. vm_compute. reflexivity. Qed.

Example cleanEnv_example :
  cleanEnv ["GEM_HOME="; "GEM_PATH="] ["GEM_HOME=/a"; "HOME=/root"; "GEM_PATH=/b"; "GEM_HOMER=1"]
  = ["HOME=/root"; "GEM_HOMER=1"].
Proof. vm_compute. reflexivity. Qed.

(** *** The environment that [run] sets up *)

Lemma filter_none (Q : string -> Prop) `{!forall s, Decision (Q s)} env :
  Forall (fun s => ~ Q s) env -> filter Q env = [].
Proof. induction 1 as [|s env Hs _ IH]; [done|]. by rewrite filter_cons_False. Qed.


Lemma ARVADOS_CONFIG_prefix s :
  HasPrefix s ("ARVADOS_CONFIG" +:+ "=") = true -> HasPrefix s "ARVADOS_" = true.
Proof. intros [r ->]%HasPrefix_inv. head_bytes. Qed.

Lemma other_prefix key s :
  key ∈ ["RAILS_ENV"; "TMPDIR"; "PATH"] ->
  HasPrefix s (key +:+ "=") = true -> ~ HasPrefix s "ARVADOS_" = true.
Proof.
  intros Hkey [r ->]%HasPrefix_inv.
  repeat (apply elem_of_cons in Hkey as [->|Hkey]; [head_bytes|]).
  by apply elem_of_nil in Hkey.
Qed.

(** X5. In the environment that [run] hands to the children the one
    entry that starts with [ARVADOS_] is [ARVADOS_CONFIG=] with the
    generated configuration file, whatever the supervisor's own
    environment held. *)
Theorem run_environ_only_config (w : World) (super : Supervisor)
    (os_environ : list string) :
  filter (fun s => HasPrefix s "ARVADOS_" = true) (run_environ w super os_environ)
  = ["ARVADOS_CONFIG=" +:+ configfile super].
Proof.
  unfold run_environ.
  rewrite filter_prependEnv_keep
    by (intros s; apply other_prefix; rewrite !elem_of_cons; naive_solver).
  rewrite !filter_setEnv_keep
    by (intros s; apply other_prefix; rewrite !elem_of_cons; naive_solver).
  assert (Forall (fun s => ~ HasPrefix s "ARVADOS_" = true)
            (cleanEnv ["ARVADOS_"] os_environ)) as Hclean.
  { eapply Forall_impl; [apply cleanEnv_clean|]. intros s Hs. cbn in Hs.
    destruct (HasPrefix s "ARVADOS_"); done. }
  rewrite setEnv_fresh.
  - rewrite filter_app, filter_none by done.
    rewrite filter_cons_True by head_bytes. done.
  - eapply Forall_impl; [exact Hclean|]. intros s Hs. cbn in Hs.
    destruct (HasPrefix s ("ARVADOS_CONFIG" +:+ "=")) eqn:Hp; [|done].
    by apply ARVADOS_CONFIG_prefix in Hp.
Qed.


Example run_environ_example :
  run_environ Example.world (Example.super "test" true)
    ["ARVADOS_API_HOST=x"; "PATH=/usr/bin"; "RAILS_ENV=production"]
  = ["PATH=/tmp/arvados-server-boot-1/bin:/usr/bin"; "RAILS_ENV=test";
     "ARVADOS_CONFIG="; "TMPDIR=/tmp/arvados-server-boot-1"].
Proof. vm_compute. reflexivity. Qed.

(** *** [lookPath] *)

Lemma lookPath_dirs_Some w executable prog dirs path :
  lookPath_dirs w executable prog dirs = Some path ->
  executable path = true
  /\ exists dir, dir ∈ dirs /\ path = filepath_Join w [dir; prog].
Proof.
  induction dirs as [|d dirs IH]; cbn [lookPath_dirs]; [done|].
  destruct (executable (filepath_Join w [d; prog])) eqn:Hx.
  - intros [= <-]. split; [done|]. exists d. split; [by left|done].
  - intros (? & dir & ? & ?)%IH. split; [done|]. exists dir. split; [by right|done].
Qed.

Lemma lookPath_dirs_None w executable prog dirs :
  lookPath_dirs w executable prog dirs = None ->
  forall dir, dir ∈ dirs -> executable (filepath_Join w [dir; prog]) = false.
Proof.
  induction dirs as [|d dirs IH]; cbn [lookPath_dirs]; [by intros _ ? ?%elem_of_nil|].
  destruct (executable (filepath_Join w [d; prog])) eqn:Hx; [done|].
  intros Hn dir [->|Hin]%elem_of_cons; [done|]. by apply IH.
Qed.

(** X7. [lookPath] returns the program name unchanged when no
    directory of any [PATH=] entry holds an executable of that name, and
    otherwise an executable path made of such a directory and the name. *)
Theorem lookPath_result (w : World) (executable : string -> bool)
    (env : list string) (prog : string) :
  (lookPath w executable env prog = prog
   /\ forall val dir,
        val ∈ env -> HasPrefix val "PATH=" = true ->
        dir ∈ SplitList (slice_from val 5) ->
        executable (filepath_Join w [dir; prog]) = false)
  \/ (executable (lookPath w executable env prog) = true
      /\ exists val dir,
           val ∈ env /\ HasPrefix val "PATH=" = true
           /\ dir ∈ SplitList (slice_from val 5)
           /\ lookPath w executable env prog = filepath_Join w [dir; prog]).
Proof.
  induction env as [|val env IH]; cbn [lookPath].
  - left. split; [done|]. by intros ? ? ?%elem_of_nil.
  - destruct (HasPrefix val "PATH=") eqn:Hp.
    + destruct (lookPath_dirs w executable prog (SplitList (slice_from val 5)))
        as [path|] eqn:Hd.
      * right. apply lookPath_dirs_Some in Hd as (Hx & dir & Hin & ->).
        split; [done|]. exists val, dir. split_and!; try done. by left.
      * pose proof (lookPath_dirs_None _ _ _ _ Hd) as Hnone.
        destruct IH as [[-> Hall]|(Hx & v & d & Hv & Hvp & Hdin & Heq)].
        -- left. split; [done|].
           intros v d [->|Hin]%elem_of_cons Hvp Hdin; [by apply Hnone|by eapply Hall].
        -- right. split; [done|]. exists v, d. split_and!; try done. by right.
    + destruct IH as [[-> Hall]|(Hx & v & d & Hv & Hvp & Hdin & Heq)].
      * left. split; [done|].
        intros v d [->|Hin]%elem_of_cons Hvp Hdin; [congruence|by eapply Hall].
      * right. split; [done|]. exists v, d. split_and!; try done. by right.
Qed.

Lemma Split_colon_nonempty s : Split_colon s <> [].
Proof.
  induction s as [|c s IH]; [done|]. cbn [Split_colon].
  destruct (decide (c = ":"%char)); [done|]. by destruct (Split_colon s).
Qed.

Lemma Split_colon_app d r :
  ":"%char ∉ String.list_ascii_of_string d ->
  Split_colon (d +:+ ":" +:+ r) = d :: Split_colon r.
Proof.
  induction d as [|c d IH]; intros Hd.
  - rewrite append_nil_l, append_cons_l, append_nil_l. cbn [Split_colon].
    by rewrite decide_True.
  - rewrite append_cons_l. cbn [Split_colon String.list_ascii_of_string] in *.
    apply not_elem_of_cons in Hd as [Hc Hd].
    rewrite decide_False by done. by rewrite IH.
Qed.

(** The directory put in front of the path is searched first. *)
Lemma lookPath_prependEnv (w : World) (executable : string -> bool)
    (env : list string) (bindir prog : string) :
  ":"%char ∉ String.list_ascii_of_string bindir ->
  executable (filepath_Join w [bindir; prog]) = true ->
  lookPath w executable (prependEnv "PATH" (bindir +:+ ":") env) prog
  = filepath_Join w [bindir; prog].
Proof.
  intros Hcolon Hx.
  assert (forall old,
            lookPath_dirs w executable prog
              (SplitList (slice_from ("PATH" +:+ "=" +:+ (bindir +:+ ":") +:+ old) 5))
            = Some (filepath_Join w [bindir; prog])) as Hfirst.
  { intros old.
    change ("PATH" +:+ "=" +:+ (bindir +:+ ":") +:+ old)
      with ("PATH=" +:+ ((bindir +:+ ":") +:+ old)).
    pose proof (slice_from_app "PATH=" ((bindir +:+ ":") +:+ old)) as Hs.
    change (String.length "PATH=") with 5%nat in Hs. rewrite Hs. clear Hs.
    rewrite append_assoc. unfold SplitList.
    rewrite decide_False.
    - rewrite Split_colon_app by done. cbn [lookPath_dirs]. by rewrite Hx.
    - intros E. destruct bindir.
      + rewrite append_nil_l, append_cons_l in E. discriminate.
      + rewrite append_cons_l in E. discriminate. }
  assert (forall r, HasPrefix ("PATH" +:+ "=" +:+ r) "PATH=" = true) as Hpre.
  { intros r. head_bytes. by destruct r. }
  induction env as [|s env IH]; cbn [prependEnv].
  - cbn [lookPath]. rewrite Hpre.
    pose proof (Hfirst "") as H0. rewrite append_nil_r in H0. by rewrite H0.
  - destruct (HasPrefix s ("PATH" +:+ "=")) eqn:Hp; cbn [lookPath].
    + by rewrite Hpre, Hfirst.
    + change ("PATH" +:+ "=") with "PATH=" in Hp. by rewrite Hp, IH.
Qed.

(** X8. After [prependEnv "PATH"] of a directory (followed by a
    colon), a program that is executable in that directory is what
    [lookPath] finds, whatever else is on the path. *)
Theorem lookPath_prepended_first (w : World) (executable : string -> bool)
    (env : list string) (bindir prog : string) :
  ":"%char ∉ String.list_ascii_of_string bindir ->
  executable (filepath_Join w [bindir; prog]) = true ->
  lookPath w executable (prependEnv "PATH" (bindir +:+ ":") env) prog
  = filepath_Join w [bindir; prog].
Proof. apply lookPath_prependEnv. Qed.

Lemma lookPath_prepended_first_witness :
  let w := Example.world in
  let executable := fun p : string => bool_decide (p = "/tmp/ws/bin/arvados-server") in
  lookPath w executable
    (prependEnv "PATH" ("/tmp/ws/bin" +:+ ":") ["HOME=/root"; "PATH=/usr/bin:/bin"])
    "arvados-server"
  = filepath_Join w ["/tmp/ws/bin"; "arvados-server"].
Proof.
  intros w executable.
  apply (lookPath_prepended_first w executable ["HOME=/root"; "PATH=/usr/bin:/bin"]
           "/tmp/ws/bin" "arvados-server").
  - apply (bool_decide_unpack _). vm_compute. exact I.
  - vm_compute. reflexivity.
Defined.

Example lookPath_not_found :
  lookPath Example.world (fun _ => false) ["PATH=/usr/bin:/bin"] "go" = "go".
Proof. vm_compute. reflexivity. Qed.

(** *** What [RunProgram] returns *)

(** X9. [RunProgram] returns nil only for a child that was started,
    exited without error, and with the context still live when
    [RunProgram] looked; and a failure to start the child is returned as
    it is even when the context is canceled. *)
Theorem RunProgram_nil_iff (super : Supervisor) (ctx : Context)
    (env : list string) (prog : string) (args : list string)
    (pipes : Pipes) (os : list string -> Child) :
  (RunProgram super ctx env prog args pipes os = Returns None
   <-> stdoutPipe_err pipes = None /\ stderrPipe_err pipes = None
       /\ exists childEnv d,
            cmd_Env super env = Returns childEnv
            /\ start_err (os childEnv) = None
            /\ child_exit (os childEnv) = Some (d, None)
            /\ ctx_Err ctx (start_time (os childEnv) + d + resume_delay (os childEnv)) = None)
  /\ (forall childEnv e,
        stdoutPipe_err pipes = None -> stderrPipe_err pipes = None ->
        cmd_Env super env = Returns childEnv ->
        start_err (os childEnv) = Some e ->
        RunProgram super ctx env prog args pipes os = Returns (Some e)).
Proof.
  split.
  - unfold RunProgram. split.
    + destruct (stdoutPipe_err pipes); [done|]. destruct (stderrPipe_err pipes); [done|].
      destruct (cmd_Env super env) as [childEnv| |] eqn:Henv; [|done..].
      destruct (start_err (os childEnv)) eqn:Hs; [done|].
      destruct (child_exit (os childEnv)) as [[d werr]|] eqn:Hexit; [|done].
      destruct (ctx_Err ctx _) eqn:Hc; [done|].
      destruct werr; [done|]. intros _. split; [done|]. split; [done|].
      exists childEnv, d. done.
    + intros (-> & -> & childEnv & d & -> & -> & -> & ->). done.
  - intros childEnv e Ho He Henv Hs. unfold RunProgram.
    by rewrite Ho, He, Henv, Hs.
Qed.

(** *** [installGoProgram] *)



(** *** [setupRubyEnv] *)

Lemma Forall_setEnv (P : string -> Prop) key val env :
  P (key +:+ "=" +:+ val) -> Forall P env -> Forall P (setEnv key val env).
Proof.
  intros Hnew. induction 1 as [|s env Hs Hv IH]; cbn [setEnv]; [by constructor|].
  destruct (HasPrefix s (key +:+ "=")); by constructor.
Qed.

Lemma Forall_prependEnv (P : string -> Prop) key prepend env :
  (forall r, P (key +:+ "=" +:+ r)) -> Forall P env ->
  Forall P (prependEnv key prepend env).
Proof.
  intros Hnew. induction 1 as [|s env Hs Hv IH]; cbn [prependEnv]; [by constructor|].
  destruct (HasPrefix s (key +:+ "=")); by constructor.
Qed.

Lemma filter_setEnv_fresh (Q : string -> Prop) `{!forall s, Decision (Q s)} key val env :
  Q (key +:+ "=" +:+ val) ->
  Forall (fun s => ~ Q s) env ->
  Forall (fun s => HasPrefix s (key +:+ "=") = false) env ->
  filter Q (setEnv key val env) = [key +:+ "=" +:+ val].
Proof.
  intros Hnew HQ Hfresh. rewrite setEnv_fresh by done.
  rewrite filter_app, filter_none by done. by rewrite filter_cons_True.
Qed.

(** X12. When [setupRubyEnv] succeeds outside RVM, [gem] ran and
    printed something, and in the new environment the only [GEM_HOME=]
    and [GEM_PATH=] entries are the ones for the first path that [gem]
    printed: whatever was set before is gone. *)
Theorem setupRubyEnv_gem_vars (gem : list string -> string * option error)
    (user_Current : result string) (env env' : list string) :
  setupRubyEnv "" gem user_Current env = (env', None) ->
  let out := gem (cleanEnv ["GEM_HOME="; "GEM_PATH="] env) in
  let gempath := hd "" (Split_colon out.1) in
  out.2 = None /\ out.1 <> ""
  /\ filter (fun s => HasPrefix s "GEM_HOME=" = true) env' = ["GEM_HOME=" +:+ gempath]
  /\ filter (fun s => HasPrefix s "GEM_PATH=" = true) env' = ["GEM_PATH=" +:+ gempath]
  /\ exists home, user_Current = Ok home.
Proof.
  unfold setupRubyEnv. rewrite decide_True by done. cbn zeta.
  set (env1 := cleanEnv ["GEM_HOME="; "GEM_PATH="] env).
  set (out := gem env1). set (gempath := hd "" (Split_colon out.1)).
  destruct (bool_decide (out.2 <> None) || bool_decide (String.length out.1 = 0%nat))
    eqn:Hbad; cbn [fst snd]; [done|].
  apply orb_false_iff in Hbad as [H1 H2].
  apply bool_decide_eq_false in H1, H2.
  destruct user_Current as [home|e]; [|done]. intros [= <-].
  assert (Forall (fun s => HasPrefix s "GEM_HOME=" = false
                           /\ HasPrefix s "GEM_PATH=" = false) env1) as Hclean.
  { eapply Forall_impl; [apply cleanEnv_clean|]. intros s Hs. cbn in Hs.
    destruct (HasPrefix s "GEM_HOME="), (HasPrefix s "GEM_PATH="); done. }
  set (e2 := prependEnv "PATH" (gempath +:+ "/bin:") env1).
  assert (Forall (fun s => HasPrefix s "GEM_HOME=" = false
                           /\ HasPrefix s "GEM_PATH=" = false) e2) as Hclean2.
  { apply Forall_prependEnv; [|done]. intros r. split; head_bytes. }
  split_and!.
  - by apply dec_stable.
  - intros E. apply H2. by rewrite E.
  - rewrite filter_setEnv_keep
      by (intros s [r ->]%HasPrefix_inv; head_bytes).
    rewrite filter_setEnv_keep
      by (intros s [r ->]%HasPrefix_inv; head_bytes).
    apply (filter_setEnv_fresh (fun s => HasPrefix s "GEM_HOME=" = true) "GEM_HOME").
    + head_bytes. by destruct gempath.
    + eapply Forall_impl; [exact Hclean2|]. intros s [Hs _]. by rewrite Hs.
    + eapply Forall_impl; [exact Hclean2|]. by intros s [Hs _].
  - rewrite filter_setEnv_keep
      by (intros s [r ->]%HasPrefix_inv; head_bytes).
    apply (filter_setEnv_fresh (fun s => HasPrefix s "GEM_PATH=" = true) "GEM_PATH").
    + head_bytes. by destruct gempath.
    + apply Forall_setEnv; [head_bytes|].
      eapply Forall_impl; [exact Hclean2|]. intros s [_ Hs]. by rewrite Hs.
    + apply Forall_setEnv; [head_bytes|].
      eapply Forall_impl; [exact Hclean2|]. by intros s [_ Hs].
  - by exists home.
Qed.

Lemma setupRubyEnv_gem_vars_witness :
  let gem := fun _ : list string => ("/var/lib/gems/2.5.0:/usr/lib/ruby", @None error) in
  let env := ["GEM_HOME=/old"; "HOME=/"; "PATH=/usr/bin"] in
  let env' := ["HOME=/home/arvados"; "PATH=/var/lib/gems/2.5.0/bin:/usr/bin";
               "GEM_HOME=/var/lib/gems/2.5.0"; "GEM_PATH=/var/lib/gems/2.5.0"] in
  let out := gem (cleanEnv ["GEM_HOME="; "GEM_PATH="] env) in
  let gempath := hd "" (Split_colon out.1) in
  out.2 = None /\ out.1 <> ""
  /\ filter (fun s => HasPrefix s "GEM_HOME=" = true) env' = ["GEM_HOME=" +:+ gempath]
  /\ filter (fun s => HasPrefix s "GEM_PATH=" = true) env' = ["GEM_PATH=" +:+ gempath]
  /\ exists home, Ok "/home/arvados" = Ok home.
Proof.
  intros gem env env'.
  apply (setupRubyEnv_gem_vars gem (Ok "/home/arvados") env env').
  vm_compute. reflexivity.
Defined.

(** [gem] printing nothing is an error that names a nil error, and
    the stale variables are dropped all the same. *)
Example setupRubyEnv_empty_output :
  setupRubyEnv "" (fun _ => ("", None)) (Ok "/home/arvados") ["GEM_HOME=/old"; "HOME=/"]
  = (["HOME=/"], Some (Errorf "gem env gempath: <nil>")).
Proof. vm_compute. reflexivity. Qed.

(** With RVM in use only [HOME] is set. *)
Example setupRubyEnv_rvm :
  setupRubyEnv "/usr/local/rvm" (fun _ => ("", None)) (Ok "/home/arvados")
    ["GEM_HOME=/old"; "HOME=/"]
  = (["GEM_HOME=/old"; "HOME=/home/arvados"], None).
Proof. vm_compute. reflexivity. Qed.

(** *** The environment of the tasks *)



Lemma filter_cleanEnv_keep (Q : string -> Prop) `{!forall s, Decision (Q s)} prefixes env :
  (forall s p, p ∈ prefixes -> HasPrefix s p = true -> ~ Q s) ->
  filter Q (cleanEnv prefixes env) = filter Q env.
Proof.
  intros HQ. induction env as [|x env IH]; [done|]. cbn [cleanEnv].
  destruct (existsb (HasPrefix x) prefixes) eqn:Hx.
  - apply existsb_exists in Hx as (p & Hin%list_elem_of_In & Hpx).
    rewrite filter_cons_False by (by eapply HQ). done.
  - destruct (decide (Q x)).
    + rewrite !filter_cons_True by done. by rewrite IH.
    + rewrite !filter_cons_False by done. done.
Qed.

(** What [setupRubyEnv] has done when it returns nil. *)
Lemma setupRubyEnv_ok rvm_path gem user_Current env env' :
  setupRubyEnv rvm_path gem user_Current env = (env', None) ->
  exists home,
    user_Current = Ok home
    /\ env' = setEnv "HOME" home
                (if decide (rvm_path = "") then
                   let gempath :=
                     hd "" (Split_colon (gem (cleanEnv ["GEM_HOME="; "GEM_PATH="] env)).1) in
                   setEnv "GEM_PATH" gempath
                     (setEnv "GEM_HOME" gempath
                        (prependEnv "PATH" (gem_bindir gem env +:+ ":")
                           (cleanEnv ["GEM_HOME="; "GEM_PATH="] env)))
                 else env).
Proof.
  unfold setupRubyEnv, gem_bindir. destruct (decide (rvm_path = "")) as [E|E]; cbn zeta.
  - set (out := gem (cleanEnv ["GEM_HOME="; "GEM_PATH="] env)).
    destruct (bool_decide (out.2 <> None) || bool_decide (String.length out.1 = 0%nat));
      cbn [fst snd]; [done|].
    destruct user_Current as [home|e]; [|done]. intros [= <-].
    exists home. split; [done|]. by rewrite append_assoc.
  - cbn [fst snd]. destruct user_Current as [home|e]; [|done]. intros [= <-]. by exists home.
Qed.



(** Outside RVM the gems come first on the path of the tasks; under
    RVM the workspace does. *)
Example tasks_environ_example :
  let gem := fun _ : list string => ("/var/lib/gems/2.5.0:/usr/lib/ruby", @None error) in
  tasks_environ Example.world (Example.super "test" true) "" gem (Ok "/home/arvados")
    ["PATH=/usr/bin"]
  = (["PATH=/var/lib/gems/2.5.0/bin:/tmp/arvados-server-boot-1/bin:/usr/bin";
      "ARVADOS_CONFIG="; "RAILS_ENV=test"; "TMPDIR=/tmp/arvados-server-boot-1";
      "GEM_HOME=/var/lib/gems/2.5.0"; "GEM_PATH=/var/lib/gems/2.5.0";
      "HOME=/home/arvados"], None)
  /\ tasks_environ Example.world (Example.super "test" true) "/usr/local/rvm" gem
       (Ok "/home/arvados") ["PATH=/usr/bin"]
     = (["PATH=/tmp/arvados-server-boot-1/bin:/usr/bin";
         "ARVADOS_CONFIG="; "RAILS_ENV=test"; "TMPDIR=/tmp/arvados-server-boot-1";
         "HOME=/home/arvados"], None).
Proof. split; vm_compute; reflexivity. Qed.

(** *** Installed programs on the path of the tasks *)

(** [lookPath] looks at the [PATH=] entries only. *)
Lemma lookPath_path_entries w executable env prog :
  lookPath w executable env prog = lookPath w executable (path_entries env) prog.
Proof.
  unfold path_entries. induction env as [|s env IH]; [done|]. cbn [lookPath].
  destruct (HasPrefix s "PATH=") eqn:Hp.
  - rewrite filter_cons_True by done. cbn [lookPath]. by rewrite Hp, IH.
  - rewrite filter_cons_False by (by rewrite Hp). done.
Qed.

Lemma path_entries_prependEnv p env :
  path_entries (prependEnv "PATH" p env)
  = match path_entries env with
    | [] => ["PATH=" +:+ p]
    | s :: rest => ("PATH=" +:+ p +:+ slice_from s 5) :: rest
    end.
Proof.
  assert (forall r, HasPrefix ("PATH" +:+ "=" +:+ r) "PATH=" = true) as Hpre.
  { intros r. head_bytes. by destruct r. }
  unfold path_entries. induction env as [|s env IH]; cbn [prependEnv].
  - by rewrite filter_cons_True.
  - change ("PATH" +:+ "=") with "PATH=" in *.
    destruct (HasPrefix s "PATH=") eqn:Hp.
    + by rewrite !filter_cons_True.
    + rewrite !filter_cons_False by (by rewrite Hp). done.
Qed.

Lemma path_entries_setEnv key val env :
  (forall r, HasPrefix (key +:+ "=" +:+ r) "PATH=" = false) ->
  path_entries (setEnv key val env) = path_entries env.
Proof.
  intros Hk. apply filter_setEnv_keep.
  intros s [r ->]%HasPrefix_inv. rewrite append_assoc, Hk. done.
Qed.

Lemma Split_colon_hd s : ":"%char ∉ String.list_ascii_of_string (hd "" (Split_colon s)).
Proof.
  induction s as [|c s IH]; cbn [Split_colon hd String.list_ascii_of_string].
  - apply not_elem_of_nil.
  - destruct (decide (c = ":"%char)); [apply not_elem_of_nil|].
    destruct (Split_colon s) as [|piece pieces]; cbn [hd String.list_ascii_of_string] in *.
    + apply not_elem_of_cons. split; [done|apply not_elem_of_nil].
    + apply not_elem_of_cons. by split.
Qed.

Lemma gem_bindir_no_colon gem env :
  ":"%char ∉ String.list_ascii_of_string (gem_bindir gem env).
Proof.
  unfold gem_bindir. rewrite list_ascii_append. intros [H|H]%elem_of_app.
  - by apply Split_colon_hd in H.
  - revert H. apply (bool_decide_unpack _). vm_compute. exact I.
Qed.

(** The path entries of the environment of the tasks. *)
Lemma path_entries_tasks w super rvm_path gem user_Current os_environ env :
  tasks_environ w super rvm_path gem user_Current os_environ = (env, None) ->
  exists old rest,
    path_entries env
    = ("PATH="
       +:+ (if decide (rvm_path = "")
            then gem_bindir gem (run_environ w super os_environ) +:+ ":" else "")
       +:+ (filepath_Join w [tempdir super; "bin"] +:+ ":") +:+ old) :: rest.
Proof.
  unfold tasks_environ. intros (home & _ & ->)%setupRubyEnv_ok.
  set (e := run_environ w super os_environ).
  assert (exists old rest,
            path_entries e
            = ("PATH=" +:+ (filepath_Join w [tempdir super; "bin"] +:+ ":") +:+ old) :: rest)
    as (old & rest & He).
  { unfold e, run_environ. rewrite path_entries_prependEnv.
    destruct (path_entries _) as [|s rest]; [|by eexists _, _].
    exists "", []. by rewrite append_nil_r. }
  exists old, rest.
  rewrite path_entries_setEnv by (intros r; head_bytes).
  destruct (decide (rvm_path = "")); [|by rewrite append_nil_l].
  cbn zeta. rewrite !path_entries_setEnv by (intros r; head_bytes).
  rewrite path_entries_prependEnv.
  unfold path_entries at 1. rewrite filter_cleanEnv_keep.
  - fold (path_entries e). rewrite He.
    pose proof (slice_from_app "PATH="
                  ((filepath_Join w [tempdir super; "bin"] +:+ ":") +:+ old)) as Hs.
    change (String.length "PATH=") with 5%nat in Hs. rewrite Hs.
    by rewrite <- !append_assoc.
  - intros s p Hin [r ->]%HasPrefix_inv.
    repeat (apply elem_of_cons in Hin as [->|Hin]; [head_bytes|]).
    by apply elem_of_nil in Hin.
Qed.

(** X11. On the path of the tasks, [lookPath] resolves the base name
    of an installed program, once that file is executable, to the very
    path [installGoProgram] returned when RVM is in use; outside RVM a
    program of that name in the [bin] directory of the gems comes
    first, and the installed one is found when there is none. *)
Theorem installGoProgram_then_lookPath (w : World)
    (filepath_Split : string -> string * string)
    (super : Supervisor) (ctx : Context) (srcpath : string)
    (pipes : Pipes) (os : list string -> Child)
    (executable : string -> bool) (rvm_path : string)
    (gem : list string -> string * option error) (user_Current : result string)
    (os_environ env : list string) (binfile : string) (err : option error) :
  ":"%char ∉ String.list_ascii_of_string (filepath_Join w [tempdir super; "bin"]) ->
  installGoProgram w filepath_Split super ctx srcpath pipes os = Returns (binfile, err) ->
  tasks_environ w super rvm_path gem user_Current os_environ = (env, None) ->
  executable binfile = true ->
  let prog := (filepath_Split srcpath).2 in
  let gemfile := filepath_Join w [gem_bindir gem (run_environ w super os_environ); prog] in
  lookPath w executable env prog
  = if decide (rvm_path = "")
    then (if executable gemfile then gemfile else binfile)
    else binfile.
Proof.
  intros Hcolon Hinst Henv Hx prog gemfile. unfold installGoProgram in Hinst.
  destruct (RunProgram _ _ _ _ _ _ _); [|done..]. injection Hinst as <- _.
  fold prog in Hx |- *.
  set (bindir := filepath_Join w [tempdir super; "bin"]) in *.
  apply path_entries_tasks in Henv as (old & rest & Hp). fold bindir in Hp.
  rewrite lookPath_path_entries, Hp. cbn [lookPath].
  assert (forall r, HasPrefix ("PATH=" +:+ r) "PATH=" = true) as Hpre.
  { intros r. head_bytes. by destruct r. }
  rewrite Hpre.
  pose proof (fun r => slice_from_app "PATH=" r) as Hs.
  change (String.length "PATH=") with 5%nat in Hs. rewrite Hs.
  assert (forall r, SplitList ((bindir +:+ ":") +:+ r) = bindir :: Split_colon r) as Hbin.
  { intros r. unfold SplitList. rewrite append_assoc, decide_False.
    - by apply Split_colon_app.
    - destruct bindir; [rewrite append_nil_l|]; rewrite append_cons_l; discriminate. }
  destruct (decide (rvm_path = "")).
  - set (gembin := gem_bindir gem (run_environ w super os_environ)) in *.
    assert (SplitList ((gembin +:+ ":") +:+ (bindir +:+ ":") +:+ old)
            = gembin :: bindir :: Split_colon old) as ->.
    { unfold SplitList. rewrite append_assoc, decide_False.
      - rewrite Split_colon_app by apply gem_bindir_no_colon.
        rewrite append_assoc. by rewrite Split_colon_app.
      - destruct gembin; [rewrite append_nil_l|]; rewrite append_cons_l; discriminate. }
    cbn [lookPath_dirs]. fold gemfile.
    destruct (executable gemfile); [done|]. by rewrite Hx.
  - rewrite append_nil_l, Hbin. cbn [lookPath_dirs]. by rewrite Hx.
Qed.

Lemma installGoProgram_then_lookPath_witness :
  let w := Example.world in
  let super := Example.super "test" true in
  let split := fun s : string => ("cmd/", "arvados-server") in
  let pipes := {| stdoutPipe_err := None; stderrPipe_err := None |} in
  let os := fun _ : list string =>
    {| start_err := None; start_time := 0; child_exit := Some (3%nat, None);
       resume_delay := 0 |} in
  let gem := fun _ : list string => ("/var/lib/gems/2.5.0:/usr/lib/ruby", @None error) in
  let binfile := "/tmp/arvados-server-boot-1/bin/arvados-server" in
  let env := ["PATH=/var/lib/gems/2.5.0/bin:/tmp/arvados-server-boot-1/bin:/usr/bin";
              "ARVADOS_CONFIG="; "RAILS_ENV=test"; "TMPDIR=/tmp/arvados-server-boot-1";
              "GEM_HOME=/var/lib/gems/2.5.0"; "GEM_PATH=/var/lib/gems/2.5.0";
              "HOME=/home/arvados"] in
  lookPath w (fun _ => true) env "arvados-server"
  = "/var/lib/gems/2.5.0/bin/arvados-server".
Proof.
  intros w super split pipes os gem binfile env.
  apply (installGoProgram_then_lookPath w split super {| ctx_canceled := None |}
           "cmd/arvados-server" pipes os (fun _ => true) "" gem (Ok "/home/arvados")
           ["PATH=/usr/bin"] env binfile None).
  - apply (bool_decide_unpack _). vm_compute. exact I.
  - vm_compute. reflexivity.
  - vm_compute. reflexivity.
  - reflexivity.
Defined.

(** The installed program is found when the gems have none of its
    name, and always under RVM. *)
Example lookPath_installed_program :
  let gem := fun _ : list string => ("/var/lib/gems/2.5.0:/usr/lib/ruby", @None error) in
  let binfile := "/tmp/arvados-server-boot-1/bin/arvados-server" in
  lookPath Example.world (fun p => bool_decide (p = binfile))
    (tasks_environ Example.world (Example.super "test" true) "" gem (Ok "/home/arvados")
       ["PATH=/usr/bin"]).1 "arvados-server" = binfile
  /\ lookPath Example.world (fun _ => true)
       (tasks_environ Example.world (Example.super "test" true) "/usr/local/rvm" gem
          (Ok "/home/arvados") ["PATH=/usr/bin"]).1 "arvados-server" = binfile.
Proof. split; vm_compute; reflexivity. Qed.

Lemma all_services_visited n : n ∈ autofill_services.
Proof. unfold autofill_services. destruct n; rewrite !elem_of_cons; naive_solver. Qed.

(** How the services, the TLS switch and the dispatch key of the
    final cluster come from those of the input. *)
Lemma autofillConfig_endpoints w fuel super cfg cluster st cfg' st' :
  GetCluster w cfg = Ok cluster ->
  autofillConfig w fuel super cfg st = Returns (Ok cfg', st') ->
  exists c3 s3 c4 s4 c',
    Clusters cfg' !! ClusterID cluster = Some c'
    /\ misc c3 = misc cluster
    /\ autofill_nonproduction w super c3 s3 = Returns (Ok c4, s4)
    /\ misc c' = misc c4
    /\ forall n,
         (Host (ExternalURL (ClusterServices cluster n)) <> "" ->
          ExternalURL (ClusterServices c' n) = ExternalURL (ClusterServices cluster n))
         /\ (visited super n -> InternalURLs (ClusterServices c' n) <> ∅)
         /\ (InternalURLs (ClusterServices cluster n) <> ∅ ->
             if decide (n = Keepstore /\ ClusterType super = "test")
             then exists p, InternalURLs (ClusterServices c' n)
                            = <[http_url super p := ()]>
                                (InternalURLs (ClusterServices cluster n))
             else InternalURLs (ClusterServices c' n)
                  = InternalURLs (ClusterServices cluster n)).
Proof.
  intros Hget H.
  apply autofillConfig_stages in H
    as (c0 & c1 & c2 & c3 & c4 & c5 & c6 & s1 & s2 & s3 & s4 & s5
        & H0 & H1 & H2 & H3 & H4 & H5 & H6 & ->).
  assert (c0 = cluster) as -> by congruence.
  pose proof (autofill_controller_spec _ _ _ _ _ _ _ H1) as (I1 & _ & _ & Hint1 & _).
  apply autofill_controller_frame in H1 as (M1 & _ & _ & Hoth1 & Hsame1).
  pose proof (autofill_services_keeps _ _ _ _ _ _ _ _ H2) as (I2 & _).
  pose proof (autofill_secrets_frame _ _ _ _ _ H3) as M3.
  apply autofill_secrets_spec in H3 as (I3 & Hsv3 & _).
  pose proof (autofill_nonproduction_spec _ _ _ _ _ _ H4) as (I4 & _ & Hsv4 & _).
  pose proof (autofill_test_keeps _ _ _ _ _ _ _ H5) as (I5 & _).
  apply autofill_test_frame in H5 as (M5 & Hext5 & Hoth5 & Hks5).
  pose proof (autofill_database_frame _ _ _ _ _ _ _ H6) as M6.
  apply autofill_database_spec in H6 as (I6 & _ & Hsv6 & _).
  exists c3, s3, c4, s4, c6. split_and!.
  - cbn. replace (ClusterID cluster) with (ClusterID c6) by congruence.
    by rewrite lookup_insert_eq.
  - pose proof (autofill_services_frame _ _ _ _ _ _ _ _ Controller H2) as (M2 & _).
    congruence.
  - done.
  - congruence.
  - intros n.
    pose proof (autofill_services_frame _ _ _ _ _ _ _ _ n H2) as (_ & _ & _ & E2 & J2 & N2).
    assert (Host (ExternalURL (ClusterServices cluster n)) <> "" ->
            ExternalURL (ClusterServices c1 n) = ExternalURL (ClusterServices cluster n))
      as E1.
    { intros Hh. destruct (decide (n = Controller)) as [->|Hn].
      - by rewrite Hsame1.
      - by rewrite Hoth1. }
    assert (InternalURLs (ClusterServices c4 n) = InternalURLs (ClusterServices c2 n)) as J4
      by (by rewrite Hsv4, Hsv3).
    split_and!.
    + intros Hh. rewrite Hsv6, Hext5, Hsv4, Hsv3, E2; [by apply E1|]. by rewrite E1.
    + intros Hvis. rewrite Hsv6.
      assert (InternalURLs (ClusterServices c4 n) <> ∅) as Hne4.
      { rewrite J4. apply N2; [apply all_services_visited|done]. }
      destruct (decide (n = Keepstore)) as [->|Hn]; [|by rewrite Hoth5].
      destruct (decide (ClusterType super = "test")); [|by subst c5].
      destruct Hks5 as [p ->]. apply insert_non_empty.
    + intros Hne. rewrite Hsv6.
      assert (InternalURLs (ClusterServices c4 n)
              = InternalURLs (ClusterServices cluster n)) as J.
      { rewrite J4, J2; by rewrite Hint1. }
      destruct (decide (n = Keepstore /\ ClusterType super = "test")) as [[-> Ht]|Hn].
      * rewrite decide_True in Hks5 by done. destruct Hks5 as [p Hp].
        exists p. by rewrite Hp, J.
      * destruct (decide (ClusterType super = "test")) as [Ht|Ht]; [|by subst c5].
        rewrite Hoth5; [done|]. intros ->. by apply Hn.
Qed.

(** X13. After an autofill that returns nil, every service the loop
    visits has at least one internal URL, an external host that was
    configured is left as it was, and so are configured internal URLs;
    for the keepstore of a test cluster they are the configured ones
    with the http URL of the listen host and one port put in, which is
    no new URL when it was configured already. *)
Theorem autofill_endpoints (w : World) (fuel : nat) (super : Supervisor)
    (cfg : Config) (cluster : Cluster) (st : wstate) (cfg' : Config) (st' : wstate) :
  GetCluster w cfg = Ok cluster ->
  autofillConfig w fuel super cfg st = Returns (Ok cfg', st') ->
  exists c',
    Clusters cfg' !! ClusterID cluster = Some c'
    /\ forall n,
         (Host (ExternalURL (ClusterServices cluster n)) <> "" ->
          ExternalURL (ClusterServices c' n) = ExternalURL (ClusterServices cluster n))
         /\ (visited super n -> InternalURLs (ClusterServices c' n) <> ∅)
         /\ (InternalURLs (ClusterServices cluster n) <> ∅ ->
             if decide (n = Keepstore /\ ClusterType super = "test")
             then exists p, InternalURLs (ClusterServices c' n)
                            = <[http_url super p := ()]>
                                (InternalURLs (ClusterServices cluster n))
             else InternalURLs (ClusterServices c' n)
                  = InternalURLs (ClusterServices cluster n)).
Proof.
  intros Hget H.
  destruct (autofillConfig_endpoints _ _ _ _ _ _ _ _ Hget H)
    as (c3 & s3 & c4 & s4 & c' & Hl & _ & _ & _ & Hsvc).
  by exists c'.
Qed.

(** X14. After an autofill that returns nil: in production the TLS
    switch and the dispatch key are as in the input; otherwise TLS
    verification is switched off, and a dispatch key that was empty is
    the content of the key file of the source tree, one that was set is
    kept. *)
Theorem autofill_nonproduction_fields (w : World) (fuel : nat) (super : Supervisor)
    (cfg : Config) (cluster : Cluster) (st : wstate) (cfg' : Config) (st' : wstate) :
  GetCluster w cfg = Ok cluster ->
  autofillConfig w fuel super cfg st = Returns (Ok cfg', st') ->
  exists c',
    Clusters cfg' !! ClusterID cluster = Some c'
    /\ if decide (ClusterType super = "production")
       then TLS_Insecure c' = TLS_Insecure cluster
            /\ Containers_DispatchPrivateKey c' = Containers_DispatchPrivateKey cluster
       else TLS_Insecure c' = true
            /\ if decide (Containers_DispatchPrivateKey cluster = "")
               then ReadFile w (filepath_Join w [SourcePath super; "lib"; "dispatchcloud";
                                                 "test"; "sshkey_dispatch"])
                    = Ok (Containers_DispatchPrivateKey c')
               else Containers_DispatchPrivateKey c'
                    = Containers_DispatchPrivateKey cluster.
Proof.
  intros Hget H.
  destruct (autofillConfig_endpoints _ _ _ _ _ _ _ _ Hget H)
    as (c3 & s3 & c4 & s4 & c' & Hl & M3 & Hnp & M' & _).
  exists c'. split; [done|].
  apply autofill_nonproduction_frame in Hnp as (_ & _ & Hnp).
  unfold misc in *. injection M3 as T3 K3. injection M' as T' K'.
  destruct (decide (ClusterType super = "production")).
  - injection Hnp as T4 K4. split; congruence.
  - destruct Hnp as [T4 K4]. split; [congruence|]. rewrite <- K3, K'.
    by destruct (decide (Containers_DispatchPrivateKey c3 = "")).
Qed.

Lemma autofill_endpoints_witness :
  let w := Example.world in
  let super := Example.super "test" false in
  let url := {| Scheme := "http"; Host := "localhost:9000" |} in
  exists cfg' st' c' p,
    autofillConfig w 5 super (Configured.cfg "9000") Example.st0 = Returns (Ok cfg', st')
    /\ Clusters cfg' !! "zzzzz" = Some c'
    /\ (forall n, ExternalURL (ClusterServices c' n)
                  = {| Scheme := "https"; Host := "example.com:443" |})
    /\ (forall n, InternalURLs (ClusterServices c' n) <> ∅)
    /\ (forall n, n <> Keepstore -> InternalURLs (ClusterServices c' n) = {[ url := () ]})
    /\ InternalURLs (ClusterServices c' Keepstore)
       = <[http_url super p := ()]> {[ url := () ]}.
Proof.
  intros w super url.
  assert (Example.returned_nil
            (autofillConfig w 5 super (Configured.cfg "9000") Example.st0) = true) as Hnil.
  { vm_compute. reflexivity. }
  destruct (autofillConfig w 5 super (Configured.cfg "9000") Example.st0)
    as [[[cfg'|e] st']| |] eqn:Hrun; try discriminate Hnil.
  assert (GetCluster w (Configured.cfg "9000") = Ok (Configured.cluster "9000")) as Hget.
  { vm_compute. reflexivity. }
  destruct (autofill_endpoints w 5 super (Configured.cfg "9000") (Configured.cluster "9000")
              Example.st0 cfg' st' Hget Hrun) as (c' & Hl & Hc).
  assert (forall n : service_name,
            InternalURLs (ClusterServices (Configured.cluster "9000") n) <> ∅) as Hne.
  { intros n. apply insert_non_empty. }
  destruct (Hc Keepstore) as (_ & _ & Hk). specialize (Hk (Hne Keepstore)).
  rewrite decide_True in Hk by (split; reflexivity). destruct Hk as [p Hp].
  exists cfg', st', c', p. split; [reflexivity|]. split; [exact Hl|]. split_and!.
  - intros n. destruct (Hc n) as (He & _). apply He. discriminate.
  - intros n. destruct (Hc n) as (_ & Hv & Hi). specialize (Hi (Hne n)).
    destruct (decide (n = Keepstore /\ ClusterType super = "test")).
    + destruct Hi as [q ->]. apply insert_non_empty.
    + rewrite Hi. apply Hne.
  - intros n Hn. destruct (Hc n) as (_ & _ & Hi). specialize (Hi (Hne n)).
    rewrite decide_False in Hi by (intros [E _]; contradiction). exact Hi.
  - exact Hp.
Defined.

(** The port picked for the second keepstore can be the port of the
    configured one: a test cluster whose services are all configured,
    keepstore on the first port the system hands out, ends with one
    keepstore URL and one volume. *)
Example autofill_test_keepstore_same_url :
  match autofillConfig Example.world 5 (Example.super "test" false)
          (Configured.cfg "4000") Example.st0 with
  | Returns (Ok cfg', _) =>
      (fun c => (map_to_list (InternalURLs (ClusterServices c Keepstore)),
                 size (Volumes c)))
        <$> Clusters cfg' !! "zzzzz"
  | _ => None
  end = Some ([({| Scheme := "http"; Host := "localhost:4000" |}, ())], 1%nat).
Proof. vm_compute. reflexivity. Qed.

Lemma autofill_nonproduction_fields_witness :
  let w := Example.world in
  let super := Example.super "test" true in
  exists cfg' st' c',
    autofillConfig w 5 super Example.cfg_zzzzz Example.st0 = Returns (Ok cfg', st')
    /\ Clusters cfg' !! "zzzzz" = Some c'
    /\ TLS_Insecure c' = true
    /\ ReadFile w (filepath_Join w [SourcePath super; "lib"; "dispatchcloud";
                                     "test"; "sshkey_dispatch"])
       = Ok (Containers_DispatchPrivateKey c').
Proof.
  intros w super.
  assert (Example.returned_nil
            (autofillConfig w 5 super Example.cfg_zzzzz Example.st0) = true) as Hnil.
  { vm_compute. reflexivity. }
  destruct (autofillConfig w 5 super Example.cfg_zzzzz Example.st0)
    as [[[cfg'|e] st']| |] eqn:Hrun; try discriminate Hnil.
  assert (GetCluster w Example.cfg_zzzzz = Ok Example.getCluster_zzzzz) as Hget.
  { vm_compute. reflexivity. }
  destruct (autofill_nonproduction_fields w 5 super Example.cfg_zzzzz
              Example.getCluster_zzzzz Example.st0 cfg' st' Hget Hrun) as (c' & Hl & Hc).
  exists cfg', st', c'. split; [reflexivity|]. split; [exact Hl|].
  rewrite decide_False in Hc by (intros E; discriminate E).
  destruct Hc as [Ht Hk]. split; [exact Ht|].
  rewrite decide_True in Hk by reflexivity. exact Hk.
Defined.

(** *** What [run] has waited for *)

Lemma passed_inv_init tasks : passed_inv tasks (run_init tasks).
Proof. exists []. split; [done|]. intros t Ht. by apply elem_of_nil in Ht. Qed.

Lemma passed_inv_same tasks s s' :
  main s' = main s ->
  (forall t, tasksReady s !! t = Some ChanClosed -> tasksReady s' !! t = Some ChanClosed) ->
  passed_inv tasks s -> passed_inv tasks s'.
Proof.
  unfold passed_inv. intros -> Hr H. destruct (main s); [|by auto..].
  destruct H as (passed & -> & Hp). exists passed. split; [done|auto].
Qed.

Lemma passed_inv_cancel tasks e s : passed_inv tasks s -> passed_inv tasks (cancel_with e s).
Proof.
  apply passed_inv_same; unfold cancel_with; by destruct (ctx_err s).
Qed.

Lemma passed_inv_close tasks name s :
  passed_inv tasks s -> passed_inv tasks (close_ready name s).
Proof.
  apply passed_inv_same; unfold close_ready;
    destruct (tasksReady s !! name) as [[|]|] eqn:E; try done.
  intros t Ht. cbn. destruct (decide (t = name)) as [->|Hn].
  - by rewrite lookup_insert_eq.
  - by rewrite lookup_insert_ne.
Qed.

Lemma passed_inv_main_step tasks c s s' :
  main_step c s = Some s' -> passed_inv tasks s -> passed_inv tasks s'.
Proof.
  unfold main_step, passed_inv. intros Hstep H.
  destruct (main s) as [[|t rest]| | |r] eqn:Hm.
  - destruct c; [done|]. injection Hstep as <-. cbn.
    destruct H as (passed & -> & Hp). intros t. rewrite app_nil_r. apply Hp.
  - destruct H as (passed & -> & Hp).
    destruct (tasksReady s !! t) as [ch|] eqn:Ht.
    + destruct c as [c|]; [|done]. unfold wait_step in Hstep. rewrite Ht in Hstep.
      destruct c.
      * destruct ch; [done|]. injection Hstep as <-. cbn.
        exists (passed ++ [t]). split; [by rewrite <- app_assoc|].
        intros t' [Hin|Hin%list_elem_of_singleton]%elem_of_app; [by apply Hp|by subst t'].
      * destruct (ctx_err s); [|done]. by injection Hstep as <-.
    + destruct c; [done|]. by injection Hstep as <-.
  - destruct c; [done|]. destruct (ctx_err s); [|done]. by injection Hstep as <-.
  - destruct c; [done|]. by injection Hstep as <-.
  - by destruct c.
Qed.

Lemma passed_inv_step tasks s ev s' :
  run_step tasks s ev = Some s' -> passed_inv tasks s -> passed_inv tasks s'.
Proof.
  unfold run_step. destruct (panicked s); [done|].
  destruct ev as [|e|i e|i r|c|].
  - intros [= <-]. apply passed_inv_cancel.
  - intros [= <-]. apply passed_inv_cancel.
  - destruct (status s !! i) as [[|]|]; try done. intros [= <-].
    rewrite fail_spec. apply passed_inv_cancel.
  - destruct (status s !! i) as [[|]|]; try done.
    destruct (tasks !! i) as [name|]; [|done].
    destruct r; intros [= <-] H.
    + rewrite fail_spec. by apply passed_inv_cancel.
    + by apply passed_inv_close.
  - apply passed_inv_main_step.
  - apply passed_inv_main_step.
Qed.

Lemma passed_inv_exec tasks evs : forall s s',
  run_exec tasks s evs = Some s' -> passed_inv tasks s -> passed_inv tasks s'.
Proof.
  induction evs as [|ev evs IH]; intros s s' Hexec Hinv; cbn in Hexec.
  - by injection Hexec as <-.
  - destruct (run_step tasks s ev) as [s1|] eqn:Hstep; [|done].
    eapply IH; [done|]. by eapply passed_inv_step.
Qed.

Lemma status_length_main_step c s s' :
  main_step c s = Some s' -> status s' = status s.
Proof.
  unfold main_step. intros H.
  repeat (match type of H with
          | context [match ?x with _ => _ end] => destruct x
          end; try done); by injection H as <-.
Qed.

Lemma status_length_step tasks s ev s' :
  run_step tasks s ev = Some s' -> length (status s') = length (status s).
Proof.
  unfold run_step. destruct (panicked s); [done|].
  destruct ev as [|e|i e|i r|c|].
  - intros [= <-]. unfold cancel_with. by destruct (ctx_err s).
  - intros [= <-]. unfold cancel_with. by destruct (ctx_err s).
  - destruct (status s !! i) as [[|]|]; try done. intros [= <-].
    rewrite fail_spec. unfold cancel_with. by destruct (ctx_err s).
  - destruct (status s !! i) as [[|]|]; try done.
    destruct (tasks !! i) as [name|]; [|done].
    destruct r; intros [= <-].
    + rewrite fail_spec. unfold cancel_with. cbn.
      destruct (ctx_err s); cbn; by rewrite length_insert.
    + unfold close_ready. cbn.
      destruct (tasksReady s !! name) as [[|]|]; cbn; by rewrite length_insert.
  - by intros ->%status_length_main_step.
  - by intros ->%status_length_main_step.
Qed.

Lemma status_length_exec tasks evs : forall s s',
  run_exec tasks s evs = Some s' -> length (status s') = length (status s).
Proof.
  induction evs as [|ev evs IH]; intros s s' Hexec; cbn in Hexec.
  - by injection Hexec as <-.
  - destruct (run_step tasks s ev) as [s1|] eqn:Hstep; [|done].
    erewrite IH by done. by eapply status_length_step.
Qed.

(** X15. With the tasks named apart, [run] gets past its [wait] only
    when the [Run] of every task has returned nil: in the healthy phase
    and during shutdown every goroutine is done without error, every
    channel is closed, and every task is among the closes made. *)
Theorem run_healthy_all_returned (tasks : list string) (evs : list event) (s : sched) :
  NoDup tasks ->
  run_exec tasks (run_init tasks) evs = Some s ->
  main s = MainHealthy \/ main s = MainShutdown ->
  status s = replicate (length tasks) (TaskReturned None)
  /\ (forall t, t ∈ tasks -> tasksReady s !! t = Some ChanClosed)
  /\ tasks ⊆+ closes s.
Proof.
  intros Hdistinct Hexec Hmain.
  assert (tasks_inv tasks s) as (_ & Hnd & Hcl & Hst).
  { eapply tasks_inv_exec; [done|apply tasks_inv_init|done]. }
  assert (passed_inv tasks s) as Hp.
  { eapply passed_inv_exec; [done|apply passed_inv_init]. }
  assert (forall t, t ∈ tasks -> tasksReady s !! t = Some ChanClosed) as Hall.
  { unfold passed_inv in Hp. by destruct Hmain as [E|E]; rewrite E in Hp. }
  assert (forall i, (i < length tasks)%nat -> status s !! i = Some (TaskReturned None)) as Hi.
  { intros i Hlt. destruct (lookup_lt_is_Some_2 tasks i Hlt) as [t Ht].
    specialize (Hst i t Ht). pose proof (Hall t (list_elem_of_lookup_2 _ _ _ Ht)) as Hc.
    destruct (status s !! i) as [[|[e|]]|]; try done.
    - congruence.
    - destruct Hst. congruence. }
  assert (length (status s) = length tasks) as Hlen.
  { erewrite status_length_exec by done. cbn. by rewrite length_replicate. }
  split_and!.
  - apply list_eq. intros i. destruct (decide (i < length tasks)%nat) as [Hlt|Hge].
    + rewrite Hi by done. symmetry. by apply lookup_replicate_2.
    + rewrite lookup_ge_None_2 by lia. symmetry. apply lookup_ge_None_2.
      rewrite length_replicate. lia.
  - done.
  - apply NoDup_submseteq; [done|]. intros t Ht. apply Hcl. by apply Hall.
Qed.

Lemma run_healthy_all_returned_witness :
  let tasks := ["certificates"; "postgresql"] in
  let s := {| ctx_err := None;
              tasksReady := <["certificates" := ChanClosed]>
                              (<["postgresql" := ChanClosed]> (make_tasksReady tasks));
              status := [TaskReturned None; TaskReturned None];
              main := MainHealthy;
              closes := ["postgresql"; "certificates"];
              panicked := None |} in
  status s = replicate (length tasks) (TaskReturned None)
  /\ (forall t, t ∈ tasks -> tasksReady s !! t = Some ChanClosed)
  /\ tasks ⊆+ closes s.
Proof.
  intros tasks s.
  apply (run_healthy_all_returned tasks
           [EvTaskReturn 1 None; EvTaskReturn 0 None;
            EvMainSelect CaseReady; EvMainSelect CaseReady; EvMainStep] s).
  - apply (bool_decide_unpack _). vm_compute. exact I.
  - vm_compute. reflexivity.
  - left. reflexivity.
Defined.

(** *** What [wait] returns *)

Lemma wait_exec_returned ready ctxerr cs r pc :
  wait_exec ready ctxerr cs (WaitReturned r) = Some pc -> cs = [] /\ pc = WaitReturned r.
Proof. destruct cs; [by intros [= <-]|done]. Qed.

Lemma wait_exec_ready ready ctxerr tasks : forall c,
  Forall (fun t => ready !! t = Some ChanClosed) tasks ->
  wait_exec ready ctxerr (replicate (length tasks) CaseReady ++ [c]) (WaitAt tasks)
  = Some (WaitReturned None).
Proof.
  induction tasks as [|t tasks IH]; intros c Hall; [done|].
  inversion_clear Hall as [|? ? Ht Hrest].
  cbn [length replicate app wait_exec wait_step]. rewrite Ht. by apply IH.
Qed.

(** X16. A call of [wait] returns nil only when the channel of every
    task it names is closed; an error it returns is the error of the
    context, or the "no such task" error for the first task without a
    channel, those before it being ready.  With every channel closed
    the call can return nil whatever the context reports. *)
Theorem wait_result (ready : gmap string chan) (ctxerr : option error)
    (cs : list select_case) (tasks : list string) (r : option error) :
  wait_exec ready ctxerr cs (WaitAt tasks) = Some (WaitReturned r) ->
  match r with
  | None =>
      Forall (fun t => ready !! t = Some ChanClosed) tasks
      /\ forall ctxerr' c,
           wait_exec ready ctxerr' (replicate (length tasks) CaseReady ++ [c]) (WaitAt tasks)
           = Some (WaitReturned None)
  | Some e =>
      exists before t rest,
        tasks = before ++ t :: rest
        /\ Forall (fun b => ready !! b = Some ChanClosed) before
        /\ ((ready !! t = None /\ e = Errorf ("no such task: " +:+ t))
            \/ (is_Some (ready !! t) /\ ctxerr = Some e))
  end.
Proof.
  intros H.
  assert (match r with
          | None => Forall (fun t => ready !! t = Some ChanClosed) tasks
          | Some e =>
              exists before t rest,
                tasks = before ++ t :: rest
                /\ Forall (fun b => ready !! b = Some ChanClosed) before
                /\ ((ready !! t = None /\ e = Errorf ("no such task: " +:+ t))
                    \/ (is_Some (ready !! t) /\ ctxerr = Some e))
          end) as Hr.
  { revert tasks H. induction cs as [|c cs IH]; intros tasks H; [done|].
    cbn [wait_exec] in H.
    destruct (wait_step ready ctxerr c tasks) as [pc|] eqn:Hstep; [|done].
    unfold wait_step in Hstep. destruct tasks as [|t rest].
    { injection Hstep as <-. apply wait_exec_returned in H as [_ [= ->]]. constructor. }
    destruct (ready !! t) as [ch|] eqn:Ht.
    - destruct c.
      + destruct ch; [done|]. injection Hstep as <-. apply IH in H.
        destruct r as [e|].
        * destruct H as (before & t' & rest' & -> & Hb & Ht').
          exists (t :: before), t', rest'. split; [done|]. split; [by constructor|done].
        * by constructor.
      + destruct ctxerr as [e|]; [|done]. injection Hstep as <-.
        apply wait_exec_returned in H as [_ [= ->]].
        exists [], t, rest. split; [done|]. split; [constructor|].
        right. split; [by eexists|done].
    - injection Hstep as <-. apply wait_exec_returned in H as [_ [= ->]].
      exists [], t, rest. split; [done|]. split; [constructor|]. by left. }
  destruct r; [done|]. split; [done|]. intros ctxerr' c. by apply wait_exec_ready.
Qed.

Lemma wait_result_witness :
  let ready : gmap string chan :=
    {[ "certificates" := ChanClosed; "postgresql" := ChanOpen ]} in
  exists before t rest,
    ["certificates"; "postgresql"; "nginx"] = before ++ t :: rest
    /\ Forall (fun b => ready !! b = Some ChanClosed) before
    /\ ((ready !! t = None /\ ContextCanceled = Errorf ("no such task: " +:+ t))
        \/ (is_Some (ready !! t) /\ Some ContextCanceled = Some ContextCanceled)).
Proof.
  intros ready.
  apply (wait_result ready (Some ContextCanceled) [CaseReady; CaseDone]
           ["certificates"; "postgresql"; "nginx"] (Some ContextCanceled)).
  vm_compute. reflexivity.
Defined.

(** *** Waiting for a listener *)

Lemma next_attempt_ge net addr now : (now <= next_attempt net addr now)%nat.
Proof. unfold next_attempt. lia. Qed.

(** X17. What [waitForConnect] returns: nil only when a dial begun
    while the context was live succeeded; otherwise the error of the
    context, never the error of a dial. *)
Theorem waitForConnect_result (net : Net) (fuel : nat) (ctx : Context) (addr : string)
    (now : nat) (r : option error) :
  waitForConnect net fuel ctx addr now = Returns r ->
  match r with
  | None =>
      exists t, (now <= t)%nat /\ ctx_Err ctx t = None
                /\ (DialContext net addr t).2 = None
  | Some e => exists t, (now <= t)%nat /\ ctx_Err ctx t = Some e
  end.
Proof.
  revert now. induction fuel as [|fuel IH]; intros now H; [done|].
  cbn [waitForConnect] in H.
  destruct (ctx_Err ctx now) as [e|] eqn:Hctx.
  - injection H as <-.
    assert (ctx_Err ctx (now + return_delay net now) = Some e) as ->.
    { eapply ctx_Err_monotone; [done|lia]. }
    by exists now.
  - destruct (DialContext net addr now).2 as [e|] eqn:Hdial.
    + apply IH in H. pose proof (next_attempt_ge net addr now).
      destruct r; destruct H as (t & Hle & Ht); exists t; (split; [lia|done]).
    + injection H as <-. by exists now.
Qed.

Lemma waitForConnect_result_witness :
  let net := {| DialContext := fun _ t => (1%nat, if (t <? 3)%nat
                                                  then Some (OSError "connection refused")
                                                  else None);
                sleep_time := fun _ => 1%nat;
                return_delay := fun _ => 0%nat |} in
  let ctx := {| ctx_canceled := Some (10%nat, ContextCanceled) |} in
  exists t, (0 <= t)%nat /\ ctx_Err ctx t = None
            /\ (DialContext net "localhost:8000" t).2 = None.
Proof.
  intros net ctx.
  apply (waitForConnect_result net 5 ctx "localhost:8000" 0 None).
  vm_compute. reflexivity.
Defined.

(** X18. [waitForConnect] gives up: when the context is canceled at
    some instant and every sleep takes time, the call returns, however
    the dials go. *)
Theorem waitForConnect_gives_up (net : Net) (ctx : Context) (addr : string)
    (now tc : nat) (e : error) (fuel : nat) :
  ctx_canceled ctx = Some (tc, e) ->
  (forall t, 0 < sleep_time net t)%nat ->
  (tc - now < fuel)%nat ->
  waitForConnect net fuel ctx addr now = Returns None
  \/ waitForConnect net fuel ctx addr now = Returns (Some e).
Proof.
  intros Hc Hsleep.
  assert (forall t, ctx_Err ctx t = if (tc <=? t)%nat then Some e else None) as Herr.
  { intros t. unfold ctx_Err. by rewrite Hc. }
  revert now. induction fuel as [|fuel IH]; intros now Hfuel; [lia|].
  cbn [waitForConnect]. rewrite !Herr.
  destruct (Nat.leb_spec tc now) as [Hle|Hlt].
  - right. by destruct (Nat.leb_spec tc (now + return_delay net now)); [|lia].
  - destruct (DialContext net addr now).2; [|by left].
    apply IH. unfold next_attempt.
    specialize (Hsleep (now + (DialContext net addr now).1)%nat). lia.
Qed.

Lemma waitForConnect_gives_up_witness :
  let net := {| DialContext := fun _ _ => (1%nat, Some (OSError "connection refused"));
                sleep_time := fun _ => 1%nat;
                return_delay := fun _ => 0%nat |} in
  let ctx := {| ctx_canceled := Some (6%nat, ContextDeadlineExceeded) |} in
  waitForConnect net 7 ctx "localhost:8000" 0 = Returns None
  \/ waitForConnect net 7 ctx "localhost:8000" 0 = Returns (Some ContextDeadlineExceeded).
Proof.
  intros net ctx.
  apply (waitForConnect_gives_up net ctx "localhost:8000" 0 6 ContextDeadlineExceeded 7).
  - reflexivity.
  - intros t. cbn. lia.
  - lia.
Defined.

Example waitForConnect_refused :
  waitForConnect
    {| DialContext := fun _ _ => (1%nat, Some (OSError "connection refused"));
       sleep_time := fun _ => 1%nat; return_delay := fun _ => 0%nat |}
    7 {| ctx_canceled := Some (6%nat, ContextDeadlineExceeded) |} "localhost:8000" 0
  = Returns (Some ContextDeadlineExceeded).
Proof. vm_compute. reflexivity. Qed.

(** *** Waiting for the cluster to be healthy *)

Lemma append_not_nil (a b : string) : b <> "" -> a +:+ b <> "".
Proof.
  intros Hb E. apply (f_equal String.length) in E. rewrite length_append in E.
  destruct b; [done|]. cbn in E. lia.
Qed.

Lemma waiting_targets_fold checks : forall acc,
  foldl (fun waiting check =>
           if decide (check.2 <> "OK") then waiting +:+ " " +:+ check.1 else waiting)
        acc checks = ""
  <-> acc = "" /\ all_ok checks.
Proof.
  unfold all_ok. induction checks as [|check checks IH]; intros acc; cbn [foldl].
  - split; [intros ->; by split|by intros [-> _]].
  - rewrite IH. destruct (decide (check.2 <> "OK")) as [Hne|Heq].
    + split.
      * intros [E _]. exfalso. revert E. apply append_not_nil.
        rewrite append_cons_l. done.
      * intros [_ Hall]. by inversion Hall.
    + apply dec_stable in Heq. split.
      * intros [-> Hall]. split; [done|]. by constructor.
      * intros [-> Hall]. split; [done|]. by inversion Hall.
Qed.

Lemma waiting_targets_empty checks : waiting_targets checks = "" <-> all_ok checks.
Proof.
  unfold waiting_targets. rewrite waiting_targets_fold.
  split; [by intros [_ Hall]|by split].
Qed.

Lemma WaitReady_loop_spec u evs : forall waiting r,
  waiting <> "" ->
  WaitReady_loop u waiting evs = Some r ->
  (r = (Some u, true)
   /\ exists pre checks post,
        evs = pre ++ EvTick (Some checks) :: post
        /\ Forall keeps_waiting pre /\ all_ok checks)
  \/ (r = (None, false)
      /\ exists pre post, evs = pre ++ EvDone :: post /\ Forall keeps_waiting pre).
Proof.
  induction evs as [|ev evs IH]; intros waiting r Hw H; cbn [WaitReady_loop] in H;
    rewrite decide_True in H by done; [done|].
  destruct ev as [[checks|]|].
  - destruct (decide (waiting_targets checks = "")) as [E|E].
    + left. destruct evs; cbn [WaitReady_loop] in H;
        rewrite decide_False in H by (by intros ?); injection H as <-;
        (split; [done|]); eexists [], checks, _;
        (split; [done|]); (split; [constructor|by apply waiting_targets_empty]).
    + assert (keeps_waiting (EvTick (Some checks))) as Hk.
      { cbn. by rewrite <- waiting_targets_empty. }
      apply IH in H as [(-> & pre & checks' & post & -> & Hpre & Hok)
                       |(-> & pre & post & -> & Hpre)]; [| |done].
      * left. split; [done|]. exists (EvTick (Some checks) :: pre), checks', post.
        split; [done|]. split; [by constructor|done].
      * right. split; [done|]. exists (EvTick (Some checks) :: pre), post.
        split; [done|]. by constructor.
  - apply IH in H as [(-> & pre & checks' & post & -> & Hpre & Hok)
                     |(-> & pre & post & -> & Hpre)]; [| |done].
    + left. split; [done|]. exists (EvTick None :: pre), checks', post.
      split; [done|]. split; [by constructor|done].
    + right. split; [done|]. exists (EvTick None :: pre), post.
      split; [done|]. by constructor.
  - injection H as <-. right. split; [done|]. exists [], evs. split; [done|constructor].
Qed.

Lemma WaitReady_loop_ready u : forall pre waiting checks post,
  Forall keeps_waiting pre -> all_ok checks ->
  WaitReady_loop u waiting (pre ++ EvTick (Some checks) :: post) = Some (Some u, true).
Proof.
  assert (forall evs, WaitReady_loop u "" evs = Some (Some u, true)) as Hdone.
  { intros evs. destruct evs; cbn [WaitReady_loop]; by rewrite decide_False by (by intros ?). }
  induction pre as [|ev pre IH]; intros waiting checks post Hpre Hok.
  - destruct (decide (waiting <> "")) as [Hw|Hw%dec_stable].
    + cbn [app WaitReady_loop]. rewrite decide_True by done.
      apply waiting_targets_empty in Hok. rewrite Hok. apply Hdone.
    + subst waiting. apply Hdone.
  - inversion_clear Hpre as [|? ? Hev Hrest].
    destruct (decide (waiting <> "")) as [Hw|Hw%dec_stable]; [|subst waiting; apply Hdone].
    cbn [app WaitReady_loop]. rewrite decide_True by done.
    destruct ev as [[checks'|]|]; [| |done]; by apply IH.
Qed.

(** X19. [WaitReady] reports the cluster ready, with the external URL
    of the controller, exactly when its select takes a tick at which
    the health checker is set up and every check is [OK] (none at all
    will do), all it took before being ticks without a health checker
    or with a check that is not [OK]. *)
Theorem WaitReady_ready_iff (cluster : Cluster) (evs : list ready_event)
    (u : option URL) :
  WaitReady cluster evs = Some (u, true)
  <-> u = Some (ExternalURL (ClusterServices cluster Controller))
      /\ exists pre checks post,
           evs = pre ++ EvTick (Some checks) :: post
           /\ Forall keeps_waiting pre /\ all_ok checks.
Proof.
  unfold WaitReady. split.
  - intros H. apply WaitReady_loop_spec in H as [[[= ->] H]|[[=] _]]; done.
  - intros (-> & pre & checks & post & -> & Hpre & Hok). by apply WaitReady_loop_ready.
Qed.

Lemma WaitReady_loop_done u post : forall pre waiting,
  waiting <> "" -> Forall keeps_waiting pre ->
  WaitReady_loop u waiting (pre ++ EvDone :: post) = Some (None, false).
Proof.
  induction pre as [|ev pre IH]; intros waiting Hw Hall;
    cbn [app WaitReady_loop]; rewrite decide_True by done; [done|].
  inversion_clear Hall as [|? ? Hev Hrest].
  destruct ev as [[checks|]|]; [| |done].
  - apply IH; [|done]. cbn in Hev. by rewrite waiting_targets_empty.
  - by apply IH.
Qed.

(** X20. [WaitReady] gives up only at the end of the context: it
    returns false, with no URL, exactly when its select takes the end
    of the context after ticks that did not make the cluster ready. *)
Theorem WaitReady_gives_up_iff (cluster : Cluster) (evs : list ready_event)
    (u : option URL) :
  WaitReady cluster evs = Some (u, false)
  <-> u = None
      /\ exists pre post, evs = pre ++ EvDone :: post /\ Forall keeps_waiting pre.
Proof.
  unfold WaitReady. split.
  - intros H. apply WaitReady_loop_spec in H as [[[=] _]|[[= ->] H]]; done.
  - intros (-> & pre & post & -> & Hpre). by apply WaitReady_loop_done.
Qed.

Example WaitReady_example :
  WaitReady Example.getCluster_zzzzz
    [EvTick None; EvTick (Some [("keepstore", "OK"); ("controller", "ERROR")]);
     EvTick (Some [("controller", "OK"); ("keepstore", "OK")]); EvDone]
  = Some (Some (ExternalURL (ClusterServices Example.getCluster_zzzzz Controller)), true).
Proof. vm_compute. reflexivity. Qed.

Example waiting_targets_example :
  waiting_targets [("keepstore", "OK"); ("controller", "ERROR"); ("ws", "")]
  = " controller ws".
Proof. vm_compute. reflexivity. Qed.

(** *** Ports of a service *)

Lemma externalPort_port w svc p : externalPort w svc = Ok p -> p <> "".
Proof.
  unfold externalPort.
  destruct (net_SplitHostPort w (Host (ExternalURL svc))) as [[h q]|e]; [|done].
  destruct (decide (q <> "")); [by intros [= <-]|].
  by destruct (decide (Scheme (ExternalURL svc) = "https")); intros [= <-].
Qed.

(** X21. A port [externalPort] returns is never empty: it is the port
    of the external URL or, that being empty, the default of the
    scheme. *)
Theorem externalPort_nonempty (w : World) (svc : Service) (p : string) :
  externalPort w svc = Ok p ->
  p <> ""
  /\ exists h q, net_SplitHostPort w (Host (ExternalURL svc)) = Ok (h, q)
                 /\ (q <> "" -> p = q)
                 /\ (q = "" -> p = "443" \/ p = "80").
Proof.
  unfold externalPort.
  destruct (net_SplitHostPort w (Host (ExternalURL svc))) as [[h q]|e]; [|done].
  intros H. destruct (decide (q <> "")) as [Hq|Hq].
  - injection H as <-. split; [done|]. by exists h, q.
  - split.
    + by destruct (decide (Scheme (ExternalURL svc) = "https")); injection H as <-.
    + exists h, q. split_and!; try done.
      intros _. destruct (decide (Scheme (ExternalURL svc) = "https")); injection H as <-; auto.
Qed.

Lemma externalPort_nonempty_witness :
  let svc := {| InternalURLs := ∅;
                ExternalURL := {| Scheme := "https"; Host := "localhost:" |} |} in
  "443" <> ""
  /\ exists h q, net_SplitHostPort Example.world (Host (ExternalURL svc)) = Ok (h, q)
                 /\ (q <> "" -> "443" = q)
                 /\ (q = "" -> "443" = "443" \/ "443" = "80").
Proof.
  intros svc. apply (externalPort_nonempty Example.world svc "443").
  vm_compute. reflexivity.
Defined.

(** X22. [internalPort] returns a port only for a service with exactly
    one internal URL, and then what [externalPort] returns for that
    URL; the port is not empty. *)
Theorem internalPort_single (w : World) (svc : Service) (p : string) :
  internalPort w svc = Ok p ->
  p <> ""
  /\ exists u, InternalURLs svc = {[ u := () ]}
               /\ externalPort w {| InternalURLs := ∅; ExternalURL := u |} = Ok p.
Proof.
  unfold internalPort. intros H.
  destruct (decide (1 < size (InternalURLs svc))%nat) as [Hgt|Hle]; [done|].
  destruct (map_to_list (InternalURLs svc)) as [|[u []] l] eqn:Hl; [done|].
  assert (l = []) as ->.
  { rewrite <- length_map_to_list, Hl in Hle. destruct l; [done|]. cbn in Hle. lia. }
  assert (InternalURLs svc = {[ u := () ]}) as Hs.
  { rewrite <- (list_to_map_to_list (InternalURLs svc)), Hl. cbn. by rewrite insert_empty. }
  assert (externalPort w {| InternalURLs := ∅; ExternalURL := u |} = Ok p) as He by done.
  split; [|by exists u]. by apply externalPort_port in He.
Qed.

Lemma internalPort_single_witness :
  let svc := {| InternalURLs := {[ {| Scheme := "http"; Host := "localhost:8000" |} := () ]};
                ExternalURL := {| Scheme := ""; Host := "" |} |} in
  "8000" <> ""
  /\ exists u, InternalURLs svc = {[ u := () ]}
               /\ externalPort Example.world {| InternalURLs := ∅; ExternalURL := u |}
                  = Ok "8000".
Proof.
  intros svc. apply (internalPort_single Example.world svc "8000").
  vm_compute. reflexivity.
Defined.

Example internalPort_two_urls :
  internalPort Example.world
    {| InternalURLs := {[ {| Scheme := "http"; Host := "localhost:8000" |} := ();
                          {| Scheme := "http"; Host := "localhost:8001" |} := () ]};
       ExternalURL := {| Scheme := ""; Host := "" |} |}
  = Fail (Errorf "internalPort() doesn't work with multiple InternalURLs").
Proof. vm_compute. reflexivity. Qed.

(** *** Random strings of any length *)

(** X23. [randomHexString(chars)] makes one read of [chars/2] random
    bytes and returns two hexadecimal digits for each: [chars] digits
    for an even [chars], one fewer for an odd one. *)
Theorem randomHexString_length (w : World) (chars : nat) (st : wstate)
    (s : string) (st' : wstate) :
  randomHexString w chars st = Returns (Ok s, st') ->
  hex_string (chars - Nat.modulo chars 2) s
  /\ reads st' = S (reads st)
  /\ usedPort st' = usedPort st /\ listens st' = listens st /\ dirs st' = dirs st.
Proof.
  unfold randomHexString, rand_Read.
  destruct (rand_fault w (reads st)) as [e|]; [done|].
  intros [= <- <-]. split; [|done].
  pose proof (hex_encode_spec (rand_byte w (reads st) <$> seq 0 (Nat.div chars 2))) as H.
  rewrite length_fmap, length_seq in H.
  replace (chars - Nat.modulo chars 2)%nat with (2 * Nat.div chars 2)%nat; [done|].
  pose proof (Nat.div_mod_eq chars 2). lia.
Qed.

Lemma randomHexString_length_witness :
  exists s st',
    randomHexString Example.world 7 Example.st0 = Returns (Ok s, st')
    /\ hex_string 6 s /\ reads st' = 1%nat.
Proof.
  assert (Example.returned_nil (randomHexString Example.world 7 Example.st0) = true) as Hnil.
  { vm_compute. reflexivity. }
  destruct (randomHexString Example.world 7 Example.st0)
    as [[[s|e] st']| |] eqn:Hrun; try discriminate Hnil.
  destruct (randomHexString_length Example.world 7 Example.st0 s st' Hrun)
    as (Hh & Hr & _).
  exists s, st'. split; [reflexivity|]. split; [exact Hh|exact Hr].
Defined.

(** *** Certificates *)

Lemma RunProgram_nil_child super ctx env prog args pipes os :
  RunProgram super ctx env prog args pipes os = Returns None ->
  child_succeeded super ctx env os.
Proof.
  unfold RunProgram, child_succeeded.
  destruct (stdoutPipe_err pipes); [done|]. destruct (stderrPipe_err pipes); [done|].
  destruct (cmd_Env super env) as [cmdEnv| |]; [|done..].
  destruct (start_err (os cmdEnv)) eqn:Hs; [done|].
  destruct (child_exit (os cmdEnv)) as [[d werr]|] eqn:Hexit; [|done].
  destruct (ctx_Err ctx _) eqn:Hc; [done|].
  destruct werr; [done|]. intros _. by exists cmdEnv, d.
Qed.

Lemma RunProgram_canceled_before super ctx env prog args pipes os e :
  ctx_Err ctx 0 = Some e ->
  RunProgram super ctx env prog args pipes os <> Returns None.
Proof.
  intros Hc H. apply RunProgram_nil_child in H as (cmdEnv & d & _ & _ & _ & Hlive).
  rewrite (ctx_Err_monotone ctx 0 _ e Hc) in Hlive; [done|lia].
Qed.

Lemma and_then_inv r sofar k err trace :
  and_then r sofar k = Returns (err, trace) ->
  (r = Returns None /\ k = Returns (err, trace))
  \/ (exists e, r = Returns (Some e) /\ err = Some e /\ trace = sofar).
Proof.
  unfold and_then. destruct r as [[e|]| |]; try done.
  - intros [= <- <-]. right. by exists e.
  - intros ->. by left.
Qed.

(** X24. [createCertificates.Run] returns nil only after all of it:
    the three [openssl] runs for the keys and the root certificate, the
    configuration written as the system's with the [SAN] section
    appended, and the two runs for the signing request and the
    certificate, in this order, every child having exited without error
    under a live context. *)
Theorem createCertificates_Run_nil (w : World) (super : Supervisor) (ctx : Context)
    (pipes : list string -> Pipes) (os : list string -> list string -> Child)
    (WriteFile : string -> string -> option error) (trace : list cert_effect) :
  createCertificates_Run w super ctx pipes os WriteFile = Returns (None, trace) ->
  exists defaultconf,
    ReadFile w "/etc/ssl/openssl.cnf" = Ok defaultconf
    /\ WriteFile (filepath_Join w [tempdir super; "server.cfg"])
         (defaultconf +:+ san_section) = None
    /\ trace = cert_plan w super defaultconf
    /\ Forall (fun args => child_succeeded super ctx [] (os args))
         [genrsa_root; req_root; genrsa_server; req_server; x509_server].
Proof.
  unfold createCertificates_Run. intros H.
  apply and_then_inv in H as [[R1 H]|(e & _ & [=] & _)].
  apply and_then_inv in H as [[R2 H]|(e & _ & [=] & _)].
  apply and_then_inv in H as [[R3 H]|(e & _ & [=] & _)].
  destruct (ReadFile w "/etc/ssl/openssl.cnf") as [defaultconf|e]; [|done].
  destruct (WriteFile _ _) eqn:Hw; [done|].
  apply and_then_inv in H as [[R4 H]|(e & _ & [=] & _)].
  apply and_then_inv in H as [[R5 H]|(e & _ & [=] & _)].
  injection H as <-. exists defaultconf. split_and!; try done.
  repeat constructor; by eapply RunProgram_nil_child.
Qed.

Lemma createCertificates_Run_nil_witness :
  let w := Example.world in
  let super := Example.super "test" true in
  let ctx := {| ctx_canceled := None |} in
  let os := fun (_ _ : list string) =>
    {| start_err := None; start_time := 2; child_exit := Some (9%nat, None);
       resume_delay := 1 |} in
  let WriteFile := fun (_ _ : string) => @None error in
  exists defaultconf,
    ReadFile w "/etc/ssl/openssl.cnf" = Ok defaultconf
    /\ WriteFile (filepath_Join w [tempdir super; "server.cfg"])
         (defaultconf +:+ san_section) = None
    /\ cert_plan w super "dispatch-key" = cert_plan w super defaultconf
    /\ Forall (fun args => child_succeeded super ctx [] (os args))
         [genrsa_root; req_root; genrsa_server; req_server; x509_server].
Proof.
  intros w super ctx os WriteFile.
  apply (createCertificates_Run_nil w super ctx
           (fun _ => {| stdoutPipe_err := None; stderrPipe_err := None |}) os WriteFile
           (cert_plan w super "dispatch-key")).
  vm_compute. reflexivity.
Defined.

(** X25. [createCertificates.Run] stops at the first failure: what it
    has done when it returns is a beginning of the full sequence, the
    whole of it when it returns nil, and every program it ran before the
    last thing it did exited without error. *)
Theorem createCertificates_Run_stops (w : World) (super : Supervisor) (ctx : Context)
    (pipes : list string -> Pipes) (os : list string -> list string -> Child)
    (WriteFile : string -> string -> option error)
    (err : option error) (trace : list cert_effect) :
  createCertificates_Run w super ctx pipes os WriteFile = Returns (err, trace) ->
  exists defaultconf,
    trace `prefix_of` cert_plan w super defaultconf
    /\ trace <> []
    /\ (err = None -> trace = cert_plan w super defaultconf)
    /\ forall args,
         Called "openssl" args ∈ trace ->
         child_succeeded super ctx [] (os args)
         \/ last trace = Some (Called "openssl" args).
Proof.
  unfold createCertificates_Run. intros H.
  assert (forall args l, Called "openssl" args ∈ l ->
            Forall (fun e => forall a, e = Called "openssl" a ->
                       child_succeeded super ctx [] (os a)) (removelast l) ->
            l <> [] ->
            child_succeeded super ctx [] (os args)
            \/ last l = Some (Called "openssl" args)) as Hsplit.
  { intros args l Hin Hall Hne.
    destruct (exists_last Hne) as (l' & x & ->).
    rewrite removelast_last in Hall. rewrite last_snoc.
    apply elem_of_app in Hin as [Hin|Hin%list_elem_of_singleton].
    - left. rewrite Forall_forall in Hall. by eapply Hall.
    - right. by subst x. }
  apply and_then_inv in H as [[R1%RunProgram_nil_child H]|(e & _ & -> & ->)].
  2:{ exists "". split_and!; [by eexists|done|done|].
      intros args Ha. apply Hsplit; [done|constructor|done]. }
  apply and_then_inv in H as [[R2%RunProgram_nil_child H]|(e & _ & -> & ->)].
  2:{ exists "". split_and!; [by eexists|done|done|].
      intros args Ha. apply Hsplit; [done| |done].
      cbn. repeat constructor; by intros a [= <-]. }
  apply and_then_inv in H as [[R3%RunProgram_nil_child H]|(e & _ & -> & ->)].
  2:{ exists "". split_and!; [by eexists|done|done|].
      intros args Ha. apply Hsplit; [done| |done].
      cbn. repeat constructor; by intros a [= <-]. }
  destruct (ReadFile w "/etc/ssl/openssl.cnf") as [defaultconf|e].
  2:{ injection H as <- <-. exists "". split_and!; [by eexists|done|done|].
      intros args Ha. apply Hsplit; [done| |done].
      cbn. repeat constructor; by intros a [= <-]. }
  exists defaultconf.
  destruct (WriteFile _ _) eqn:Hw.
  { injection H as <- <-. split_and!; [by eexists|done|done|].
    intros args Ha. apply Hsplit; [done| |done].
    cbn. repeat constructor; by intros a [= <-]. }
  apply and_then_inv in H as [[R4%RunProgram_nil_child H]|(e & _ & -> & ->)].
  2:{ split_and!; [by eexists|done|done|].
      intros args Ha. apply Hsplit; [done| |done].
      cbn. repeat constructor; by intros a [= <-]. }
  apply and_then_inv in H as [[R5%RunProgram_nil_child H]|(e & _ & -> & ->)].
  2:{ split_and!; [by eexists|done|done|].
      intros args Ha. apply Hsplit; [done| |done].
      cbn. repeat constructor; by intros a [= <-]. }
  injection H as <- <-. split_and!; [by exists []|done|done|].
  intros args Ha. apply Hsplit; [done| |done].
  cbn. repeat constructor; by intros a [= <-].
Qed.

Lemma createCertificates_Run_stops_witness :
  let w := Example.world in
  let super := Example.super "test" true in
  let ctx := {| ctx_canceled := None |} in
  let os := fun (args _ : list string) =>
    {| start_err := None; start_time := 2;
       child_exit := Some (9%nat, if decide (args = req_root)
                                  then Some (OSError "exit status 1") else None);
       resume_delay := 1 |} in
  let trace := [Called "openssl" genrsa_root; Called "openssl" req_root] in
  exists defaultconf,
    trace `prefix_of` cert_plan w super defaultconf
    /\ trace <> []
    /\ (Some (Errorf (cmdline "openssl" req_root +:+ ": error: exit status 1")) = None ->
        trace = cert_plan w super defaultconf)
    /\ forall args,
         Called "openssl" args ∈ trace ->
         child_succeeded super ctx [] (os args)
         \/ last trace = Some (Called "openssl" args).
Proof.
  intros w super ctx os trace.
  apply (createCertificates_Run_stops w super ctx
           (fun _ => {| stdoutPipe_err := None; stderrPipe_err := None |}) os
           (fun _ _ => None)
           (Some (Errorf (cmdline "openssl" req_root +:+ ": error: exit status 1"))) trace).
  vm_compute. reflexivity.
Defined.

(** X26. Under a context that is canceled before it starts,
    [createCertificates.Run] never returns nil and goes no further than
    its first program: it writes no configuration and runs nothing
    else. *)
Theorem createCertificates_Run_canceled (w : World) (super : Supervisor) (ctx : Context)
    (pipes : list string -> Pipes) (os : list string -> list string -> Child)
    (WriteFile : string -> string -> option error)
    (e : error) (err : option error) (trace : list cert_effect) :
  ctx_Err ctx 0 = Some e ->
  createCertificates_Run w super ctx pipes os WriteFile = Returns (err, trace) ->
  is_Some err /\ trace = [Called "openssl" genrsa_root].
Proof.
  unfold createCertificates_Run. intros Hc H.
  apply and_then_inv in H as [[R1 _]|(e1 & _ & -> & ->)].
  - by eapply RunProgram_canceled_before in R1.
  - split; [by eexists|done].
Qed.

Lemma createCertificates_Run_canceled_witness :
  let ctx := {| ctx_canceled := Some (0%nat, ContextCanceled) |} in
  is_Some (Some ContextCanceled)
  /\ [Called "openssl" genrsa_root] = [Called "openssl" genrsa_root].
Proof.
  intros ctx.
  apply (createCertificates_Run_canceled Example.world (Example.super "test" true) ctx
           (fun _ => {| stdoutPipe_err := None; stderrPipe_err := None |})
           (fun _ _ => {| start_err := None; start_time := 2;
                          child_exit := Some (9%nat, Some (OSError "signal: terminated"));
                          resume_delay := 1 |})
           (fun _ _ => None)
           ContextCanceled (Some ContextCanceled) [Called "openssl" genrsa_root]).
  - reflexivity.
  - vm_compute. reflexivity.
Defined.

(** *** The address of the controller *)

Lemma autofill_controller_url w fuel super c st c' st' :
  Host (ExternalURL (ClusterServices c Controller)) = "" ->
  autofill_controller w fuel super c st = Returns (Ok c', st') ->
  exists addr_h addr_p p,
    net_SplitHostPort w (ControllerAddr super) = Ok (addr_h, addr_p)
    /\ ExternalURL (ClusterServices c' Controller)
       = {| Scheme := "https";
            Host := net_JoinHostPort w
                      (if decide (addr_h = "") then ListenHost super else addr_h) p |}
    /\ (addr_p <> "0" -> p = addr_p)
    /\ (addr_p = "0" -> usedPort st !! p <> Some true /\ usedPort st' !! p = Some true).
Proof.
  unfold autofill_controller. intros Hh H. rewrite decide_True in H by done.
  apply bind_Ok in H as ([addr_h addr_p] & st1 & H1 & H). apply lift_Ok in H1 as [H1 <-].
  apply bind_Ok in H as (p & st2 & H2 & H). apply ret_Ok in H as [<- <-].
  exists addr_h, addr_p, p. cbn [fst snd] in *. split_and!.
  - done.
  - cbn. by rewrite decide_True.
  - intros Hp. rewrite decide_False in H2 by done. by apply ret_Ok in H2 as [-> _].
  - intros Hp. rewrite decide_True in H2 by done.
    apply nextPort_grows in H2 as (_ & Hused & Hfresh). done.
Qed.

(** X27. The external URL of a controller that has none configured:
    [https], with the host of [ControllerAddr], or the listen host for
    an empty one, and the port of [ControllerAddr], or for port 0 a
    port picked for it, which stays recorded as used to the end. *)
Theorem autofill_controller_address (w : World) (fuel : nat) (super : Supervisor)
    (cfg : Config) (cluster : Cluster) (st : wstate) (cfg' : Config) (st' : wstate) :
  GetCluster w cfg = Ok cluster ->
  Host (ExternalURL (ClusterServices cluster Controller)) = "" ->
  (forall h p, net_JoinHostPort w h p <> "") ->
  autofillConfig w fuel super cfg st = Returns (Ok cfg', st') ->
  exists c' addr_h addr_p p,
    Clusters cfg' !! ClusterID cluster = Some c'
    /\ net_SplitHostPort w (ControllerAddr super) = Ok (addr_h, addr_p)
    /\ ExternalURL (ClusterServices c' Controller)
       = {| Scheme := "https";
            Host := net_JoinHostPort w
                      (if decide (addr_h = "") then ListenHost super else addr_h) p |}
    /\ (addr_p <> "0" -> p = addr_p)
    /\ (addr_p = "0" -> usedPort st' !! p = Some true).
Proof.
  intros Hget Hhost Hjoin H.
  apply autofillConfig_stages in H
    as (c0 & c1 & c2 & c3 & c4 & c5 & c6 & s1 & s2 & s3 & s4 & s5
        & H0 & H1 & H2 & H3 & H4 & H5 & H6 & ->).
  assert (c0 = cluster) as -> by congruence.
  pose proof (autofill_controller_url _ _ _ _ _ _ _ Hhost H1)
    as (addr_h & addr_p & p & Hsplit & Hurl & Hgiven & Hpicked).
  pose proof (autofill_services_frame _ _ _ _ _ _ _ _ Controller H2)
    as (_ & _ & _ & E2 & _).
  apply autofill_services_keeps in H2 as (I2 & _ & [G2 _] & _).
  apply autofill_secrets_spec in H3 as (I3 & Hsv3 & _ & _ & [G3 _] & _).
  apply autofill_nonproduction_spec in H4 as (I4 & _ & Hsv4 & ->).
  pose proof (autofill_test_keeps _ _ _ _ _ _ _ H5) as (I5 & _ & [G5 _] & _).
  apply autofill_test_frame in H5 as (_ & Hext5 & _).
  apply autofill_database_spec in H6 as (I6 & _ & Hsv6 & _ & [G6 _] & _).
  apply autofill_controller_spec in H1 as (I1 & _).
  exists c6, addr_h, addr_p, p. split_and!.
  - cbn. replace (ClusterID cluster) with (ClusterID c6) by congruence.
    by rewrite lookup_insert_eq.
  - done.
  - rewrite Hsv6, Hext5, Hsv4, Hsv3, E2; [done|]. rewrite Hurl. cbn. apply Hjoin.
  - done.
  - intros Hp. apply G6, G5, G3, G2. by apply Hpicked.
Qed.

Lemma autofill_controller_address_witness :
  let w := Example.world in
  let super := Example.super "test" true in
  exists cfg' st' c' addr_h addr_p p,
    autofillConfig w 5 super Example.cfg_zzzzz Example.st0 = Returns (Ok cfg', st')
    /\ Clusters cfg' !! "zzzzz" = Some c'
    /\ net_SplitHostPort w (ControllerAddr super) = Ok (addr_h, addr_p)
    /\ ExternalURL (ClusterServices c' Controller)
       = {| Scheme := "https";
            Host := net_JoinHostPort w
                      (if decide (addr_h = "") then ListenHost super else addr_h) p |}
    /\ (addr_p <> "0" -> p = addr_p)
    /\ (addr_p = "0" -> usedPort st' !! p = Some true).
Proof.
  intros w super.
  assert (Example.returned_nil
            (autofillConfig w 5 super Example.cfg_zzzzz Example.st0) = true) as Hnil.
  { vm_compute. reflexivity. }
  destruct (autofillConfig w 5 super Example.cfg_zzzzz Example.st0)
    as [[[cfg'|e] st']| |] eqn:Hrun; try discriminate Hnil.
  assert (GetCluster w Example.cfg_zzzzz = Ok Example.getCluster_zzzzz) as Hget.
  { vm_compute. reflexivity. }
  assert (forall h p, net_JoinHostPort w h p <> "") as Hjoin.
  { intros h p. apply append_not_nil. rewrite append_cons_l. discriminate. }
  destruct (autofill_controller_address w 5 super Example.cfg_zzzzz
              Example.getCluster_zzzzz Example.st0 cfg' st' Hget eq_refl Hjoin Hrun)
    as (c' & addr_h & addr_p & p & Hc).
  exists cfg', st', c', addr_h, addr_p, p. split; [reflexivity|exact Hc].
Defined.

(** X28. The two errors autofill returns before it does anything: the
    error of [GetCluster], and, for a controller without external host,
    the error of splitting [ControllerAddr].  No port has been probed
    then, no random bytes read and no directory made. *)
Theorem autofillConfig_early_error (w : World) (fuel : nat) (super : Supervisor)
    (cfg : Config) (st : wstate) (e : error) :
  GetCluster w cfg = Fail e
  \/ (exists cluster,
        GetCluster w cfg = Ok cluster
        /\ Host (ExternalURL (ClusterServices cluster Controller)) = ""
        /\ net_SplitHostPort w (ControllerAddr super) = Fail e) ->
  exists st',
    autofillConfig w fuel super cfg st = Returns (Fail e, st')
    /\ listens st' = listens st /\ reads st' = reads st /\ dirs st' = dirs st.
Proof.
  intros [Hget|(cluster & Hget & Hhost & Hsplit)]; eexists;
    unfold autofillConfig, mbind, M_bind, lift; rewrite Hget.
  - done.
  - unfold autofill_controller. rewrite decide_True by done.
    unfold mbind, M_bind, lift. rewrite Hsplit. done.
Qed.

Lemma autofillConfig_early_error_witness :
  let super :=
    {| SourcePath := "/src/arvados"; SourceVersion := ""; ClusterType := "test";
       ListenHost := "localhost"; ControllerAddr := "localhost";
       OwnTemporaryDatabase := true; tempdir := "/tmp/arvados-server-boot-1";
       configfile := ""; environ := [] |} in
  exists st',
    autofillConfig Example.world 5 super Example.cfg_zzzzz Example.st0
    = Returns (Fail (OSError "address localhost: missing port in address"), st')
    /\ listens st' = listens Example.st0 /\ reads st' = reads Example.st0
    /\ dirs st' = dirs Example.st0.
Proof.
  intros super.
  apply (autofillConfig_early_error Example.world 5 super Example.cfg_zzzzz Example.st0
           (OSError "address localhost: missing port in address")).
  right. exists Example.getCluster_zzzzz. split_and!; vm_compute; reflexivity.
Defined.
